(** * Prompt Manager: repository back ends and hybrid search

    A shallow embedding of the storage and search core of the prompt
    manager (src/core/PromptService.js, src/core/SemanticSearch.js,
    src/repo/VaultRepo.js, src/repo/IndexedDBRepo.js and
    App.filterAndSortPrompts in app.js), followed by the properties
    established about it.

    Conventions of the embedding:
    - a JavaScript string is a [string]; the file-name sanitiser is given
      on the ASCII letters and digits; the case mapping is a function of
      the host, of which only the action on ASCII strings is fixed;
    - a JavaScript number that holds a score, a vector component, a
      threshold or a version number is a [float], the IEEE 754 binary64
      value with its rounding, its infinities, its two zeros and NaN;
    - [null]/[undefined] is [None];
    - an [async] function is its sequential body; a rejected promise or a
      thrown exception is [Thrown], a fulfilled one is [Returned];
    - a [Map] is a [gmap]; an array is a [list]. *)

From Stdlib Require Import QArith ZArith Lia List Sorted Permutation Ascii String Floats.
From Stdlib Require Uint63.
From stdpp Require Import base option list gmap strings.

Local Close Scope Q_scope.
Local Open Scope string_scope.
Local Open Scope list_scope.

(** ** Host language *)

Module JS.

(** Completion of a call: a value, or an exception carrying its message. *)
Inductive outcome (A : Type) : Type :=
| Returned (a : A)
| Thrown (e : string).
Arguments Returned {A} a.
Arguments Thrown {A} e.

Definition bind {A B} (m : outcome A) (k : A -> outcome B) : outcome B :=
  match m with
  | Returned a => k a
  | Thrown e => Thrown e
  end.

(** [try { m } catch (e) { h }] *)
Definition try_catch {A} (m : outcome A) (h : string -> A) : A :=
  match m with
  | Returned a => a
  | Thrown e => h e
  end.

(** Truthiness of a string and [s || d]. *)
Definition truthy (s : string) : bool :=
  match s with
  | EmptyString => false
  | String _ _ => true
  end.

Definition or_else (s d : string) : string :=
  if truthy s then s else d.

Definition is_upper (c : ascii) : bool :=
  let n := nat_of_ascii c in (65 <=? n)%nat && (n <=? 90)%nat.

Definition is_lower (c : ascii) : bool :=
  let n := nat_of_ascii c in (97 <=? n)%nat && (n <=? 122)%nat.

Definition is_digit (c : ascii) : bool :=
  let n := nat_of_ascii c in (48 <=? n)%nat && (n <=? 57)%nat.

Definition lower_char (c : ascii) : ascii :=
  if is_upper c then ascii_of_nat (nat_of_ascii c + 32) else c.

(** The case mapping of a string of ASCII characters: A-Z go to a-z, the
    other characters stay. *)
Fixpoint lowerAscii (s : string) : string :=
  match s with
  | EmptyString => EmptyString
  | String c s' => String (lower_char c) (lowerAscii s')
  end.

Fixpoint isAscii (s : string) : bool :=
  match s with
  | EmptyString => true
  | String c s' => (nat_of_ascii c <? 128)%nat && isAscii s'
  end.

(** [String.prototype.includes]: [q] occurs in [s] at some offset. *)
Fixpoint includes (s q : string) : bool :=
  String.prefix q s ||
  match s with
  | EmptyString => false
  | String _ s' => includes s' q
  end.

(** [String.prototype.endsWith] *)
Definition endsWith (s q : string) : bool :=
  let n := String.length s in
  let m := String.length q in
  (m <=? n)%nat && String.eqb (String.substring (n - m) m s) q.

(** [s.replace(/[^a-z0-9]/gi, r)] with a one-character replacement. *)
Fixpoint replace_non_alnum (r : ascii) (s : string) : string :=
  match s with
  | EmptyString => EmptyString
  | String c s' =>
      String (if is_lower c || is_upper c || is_digit c then c else r)
             (replace_non_alnum r s')
  end.

(** [Number.isNaN] *)
Definition isNaN (x : float) : bool := negb (x =? x)%float.

(** [x || d] on numbers: [d] when [x] is 0, -0 or NaN. *)
Definition number_or (x d : float) : float :=
  if (x =? 0)%float || isNaN x then d else x.

(** Sign of the number a comparator returns, as the sort reads it: a
    NaN counts as 0. *)
Definition sign (v : float) : comparison :=
  if (0 <? v)%float then Gt
  else if (v <? 0)%float then Lt
  else Eq.

(** [Array.prototype.sort(cmp)]: a stable sort; [cmp a b = Gt] moves
    [a] behind [b].  For a comparator that orders consistently the result
    of a stable sort is unique, and it is the one computed here; for an
    inconsistent one (a date difference that is NaN) the engine may order
    differently, and only the elements of the result are relied on. *)
Fixpoint insert {A} (cmp : A -> A -> comparison) (x : A) (l : list A) : list A :=
  match l with
  | [] => [x]
  | y :: l' =>
      match cmp x y with
      | Gt => y :: insert cmp x l'
      | _ => x :: y :: l'
      end
  end.

Definition sort {A} (cmp : A -> A -> comparison) (l : list A) : list A :=
  foldr (insert cmp) [] l.

(** [arr.slice(0, k)] *)
Definition slice0 {A} (k : nat) (l : list A) : list A := take k l.

(** Functions of the platform whose result depends on the locale, on
    the date parser or on the Unicode tables of the engine.
    [String.prototype.toLowerCase] maps by the Unicode case conversion,
    which looks at the neighbours of a character (the final sigma); on a
    string of ASCII characters it is [lowerAscii]. *)
Class Host := {
  localeCompare : string -> string -> comparison;
  Date_parse : string -> option Z;
  toLowerCase : string -> string;
  toLowerCase_ascii : forall s, isAscii s = true -> toLowerCase s = lowerAscii s
}.

(** [[...new Set(values)]]: the values in the order of their first
    occurrence. *)
Definition Set_of (values : list string) : list string :=
  fold_left (fun acc x => if bool_decide (x ∈ acc) then acc else acc ++ [x]) values [].

(** The comparison of [Array.prototype.sort()] without a comparator, on
    strings: by code unit. *)
Definition defaultCompare (x y : string) : comparison := String.compare x y.

(** [o || d] for a property that may be absent. *)
Definition or_default (o : option string) (d : string) : string :=
  match o with
  | Some s => or_else s d
  | None => d
  end.

(** [String.prototype.trim] on code units below 256: tab, line feed,
    vertical tab, form feed, carriage return, space and no-break space
    are removed at both ends. *)
Definition is_space (c : ascii) : bool :=
  let n := nat_of_ascii c in
  ((9 <=? n)%nat && (n <=? 13)%nat) || (n =? 32)%nat || (n =? 160)%nat.

Fixpoint trimStart (s : string) : string :=
  match s with
  | EmptyString => EmptyString
  | String c s' => if is_space c then trimStart s' else s
  end.

Fixpoint trimEnd (s : string) : string :=
  match s with
  | EmptyString => EmptyString
  | String c s' =>
      match trimEnd s' with
      | EmptyString => if is_space c then EmptyString else String c EmptyString
      | t => String c t
      end
  end.

Definition trim (s : string) : string := trimEnd (trimStart s).

End JS.

Import JS.

(** ** Document model *)

Module Version.
Record t := mk {
  version_no : float;
  prompt_text : string;
  notes : string;
  date_created : string
}.
End Version.

Module Prompt.
Record t := mk {
  id : string;
  title : string;
  description : string;
  prompt_text : string;
  tags : string;
  status : string;
  notes : string;
  category : string;
  client : string;
  date_created : string;
  versions : list Version.t;
  embedding : option (list float)
}.
End Prompt.

Module Template.
Record t := mk {
  id : string;
  description : string;
  template_text : string;
  notes : string;
  is_favourite : bool;
  order : Z
}.
End Template.

(** ** src/core/PromptService.js *)

Module PromptService.

(** [generateId()] and [new Date().toISOString()] are the two effects of
    the factory functions; their results are passed in. *)
Definition createPrompt (generateId : unit -> string) (now : string) : Prompt.t :=
  {| Prompt.id := generateId tt;
     Prompt.title := "New Prompt";
     Prompt.description := "";
     Prompt.prompt_text := "";
     Prompt.tags := "";
     Prompt.status := "draft";
     Prompt.notes := "";
     Prompt.category := "";
     Prompt.client := "";
     Prompt.date_created := now;
     Prompt.versions := [];
     Prompt.embedding := None |}.

Record Filter := mkFilter {
  category : string;
  client : string;
  status : string
}.

Definition matches (filter : Filter) (p : Prompt.t) : bool :=
  let matchesCat :=
    if truthy (category filter) then String.eqb (Prompt.category p) (category filter) else true in
  let matchesClient :=
    if truthy (client filter) then String.eqb (Prompt.client p) (client filter) else true in
  let matchesStatus :=
    if truthy (status filter) then String.eqb (Prompt.status p) (status filter) else true in
  matchesCat && matchesClient && matchesStatus.

Definition filterPrompts (prompts : list Prompt.t) (filter : Filter) : list Prompt.t :=
  List.filter (matches filter) prompts.

Definition keywordMatch `{Host} (q : string) (p : Prompt.t) : bool :=
  includes (toLowerCase (or_else (Prompt.title p) "")) q ||
  includes (toLowerCase (or_else (Prompt.description p) "")) q ||
  includes (toLowerCase (or_else (Prompt.prompt_text p) "")) q ||
  includes (toLowerCase (or_else (Prompt.tags p) "")) q ||
  includes (toLowerCase (or_else (Prompt.notes p) "")) q.

Definition keywordSearch `{Host} (prompts : list Prompt.t) (query : string)
    : list Prompt.t :=
  if negb (truthy query) then prompts
  else
    let q := toLowerCase query in
    List.filter (keywordMatch q) prompts.

Definition duplicatePrompt (prompt : Prompt.t) (generateId : unit -> string)
    (now : string) : Prompt.t :=
  {| Prompt.id := generateId tt;
     Prompt.title := "COPY " ++ or_else (Prompt.title prompt) "Untitled";
     Prompt.description := Prompt.description prompt;
     Prompt.prompt_text := Prompt.prompt_text prompt;
     Prompt.tags := Prompt.tags prompt;
     Prompt.status := "draft";
     Prompt.notes := Prompt.notes prompt;
     Prompt.category := Prompt.category prompt;
     Prompt.client := Prompt.client prompt;
     Prompt.date_created := now;
     Prompt.versions := [];
     Prompt.embedding := None |}.

Definition createVersion (prompt : Prompt.t) (now : string) : Version.t :=
  let lastVer :=
    match last (Prompt.versions prompt) with
    | Some v => Version.version_no v
    | None => 0%float
    end in
  {| Version.version_no := (lastVer + 1)%float;
     Version.prompt_text := Prompt.prompt_text prompt;
     Version.notes := Prompt.notes prompt;
     Version.date_created := now |}.

Definition findVersion (prompt : Prompt.t) (versionNo : float) : option Version.t :=
  List.find (fun v => (Version.version_no v =? versionNo)%float) (Prompt.versions prompt).

Definition extractCategories (prompts : list Prompt.t) : list string :=
  JS.sort defaultCompare (Set_of (List.filter truthy (List.map Prompt.category prompts))).

Definition extractClients (prompts : list Prompt.t) : list string :=
  JS.sort defaultCompare (Set_of (List.filter truthy (List.map Prompt.client prompts))).

Definition extractStatuses (prompts : list Prompt.t) : list string :=
  JS.sort defaultCompare (Set_of (List.filter truthy (List.map Prompt.status prompts))).

End PromptService.

(** ** src/core/TemplateService.js *)

Module TemplateService.

Definition createTemplate (generateId : unit -> string) : Template.t :=
  {| Template.id := generateId tt;
     Template.description := "New Template";
     Template.template_text := "";
     Template.notes := "";
     Template.is_favourite := false;
     Template.order := 0%Z |}.

Definition duplicateTemplate (template : Template.t) (generateId : unit -> string)
    : Template.t :=
  {| Template.id := generateId tt;
     Template.description := String.append (Template.description template) " (Copy)";
     Template.template_text := Template.template_text template;
     Template.notes := Template.notes template;
     Template.is_favourite := Template.is_favourite template;
     Template.order := Template.order template |}.

(** The text up to the first closing brace, and the text behind it. *)
Fixpoint splitBrace (s : string) : option (string * string) :=
  match s with
  | EmptyString => None
  | String c s' =>
      if Ascii.eqb c "}" then Some (EmptyString, s')
      else
        match splitBrace s' with
        | Some (n, r) => Some (String c n, r)
        | None => None
        end
  end.

(** A match of the pattern [\${([^}]+)}] at the start of [s]: the name
    in the braces and the text behind the match. *)
Definition placeholder (s : string) : option (string * string) :=
  match s with
  | String c1 (String c2 rest) =>
      if Ascii.eqb c1 "$" && Ascii.eqb c2 "{" then
        match splitBrace rest with
        | Some (n, r) => if truthy n then Some (n, r) else None
        | None => None
        end
      else None
  | _ => None
  end.

(** The loop of [extractVariables] over the matches from left to right;
    [fuel] bounds the number of positions tried. *)
Fixpoint extractFrom (fuel : nat) (s : string) (variables : list string) : list string :=
  match fuel with
  | O => variables
  | S fuel' =>
      match placeholder s with
      | Some (n, r) =>
          extractFrom fuel' r
            (if bool_decide (n ∈ variables) then variables else variables ++ [n])
      | None =>
          match s with
          | EmptyString => variables
          | String _ s' => extractFrom fuel' s' variables
          end
      end
  end.

Definition extractVariables (templateText : string) : list string :=
  extractFrom (String.length templateText) templateText [].

(** [values] gives what [values[varName]] holds, [None] for null or
    undefined. *)
Fixpoint substituteFrom (fuel : nat) (s : string) (values : string -> option string)
    : string :=
  match fuel with
  | O => s
  | S fuel' =>
      match placeholder s with
      | Some (n, r) =>
          let matched := String.append "${" (String.append n "}") in
          String.append
            (match values n with Some v => v | None => matched end)
            (substituteFrom fuel' r values)
      | None =>
          match s with
          | EmptyString => EmptyString
          | String c s' => String c (substituteFrom fuel' s' values)
          end
      end
  end.

Definition substituteVariables (templateText : string)
    (values : string -> option string) : string :=
  substituteFrom (String.length templateText) templateText values.

Definition filterTemplates `{Host} (templates : list Template.t) (query : string)
    : list Template.t :=
  if negb (truthy query) then templates
  else
    let q := toLowerCase query in
    List.filter
      (fun t => includes (toLowerCase (or_else (Template.description t) "")) q ||
                includes (toLowerCase (or_else (Template.template_text t) "")) q)
      templates.

Definition byFavouriteThenOrder (a b : Template.t) : comparison :=
  if negb (Bool.eqb (Template.is_favourite a) (Template.is_favourite b)) then
    if Template.is_favourite b then Gt else Lt
  else (Template.order a ?= Template.order b)%Z.

Definition sortTemplates (templates : list Template.t) : list Template.t :=
  JS.sort byFavouriteThenOrder templates.

End TemplateService.

(** ** src/data/DataMapper.js *)

Module DataMapper.

(** A prompt object of an import or export file: every key may be
    absent. *)
Record RawPrompt := mkRawPrompt {
  id : option string;
  prompt_id : option string;
  title : option string;
  prompt_title : option string;
  description : option string;
  prompt_desc : option string;
  prompt_text : option string;
  tags : option string;
  status : option string;
  prompt_status : option string;
  notes : option string;
  category : option string;
  client : option string;
  date_created : option string;
  versions : option (list Version.t);
  embedding : option (list float)
}.

Record RawTemplate := mkRawTemplate {
  t_template_id : option string;
  t_id : option string;
  t_template_desc : option string;
  t_description : option string;
  t_template_text : option string;
  t_template_notes : option string;
  t_notes : option string;
  t_isFavorite : option bool;
  t_order : option Z
}.

Definition promptToExport (p : Prompt.t) : RawPrompt :=
  {| id := Some (Prompt.id p);
     prompt_id := Some (Prompt.id p);
     title := None;
     prompt_title := Some (Prompt.title p);
     description := None;
     prompt_desc := Some (Prompt.description p);
     prompt_text := Some (Prompt.prompt_text p);
     tags := Some (Prompt.tags p);
     status := None;
     prompt_status := Some (Prompt.status p);
     notes := Some (Prompt.notes p);
     category := Some (or_else (Prompt.category p) "");
     client := Some (or_else (Prompt.client p) "");
     date_created := Some (Prompt.date_created p);
     versions := Some (Prompt.versions p);
     embedding := Prompt.embedding p |}.

(** [a || b], the second operand evaluated only when needed. *)
Definition first_of (a b : option string) : option string :=
  match a with
  | Some s => if truthy s then Some s else b
  | None => b
  end.

Definition promptFromImport (p : RawPrompt) (generateId : unit -> string)
    (now : string) : Prompt.t :=
  {| Prompt.id :=
       match first_of (id p) (prompt_id p) with
       | Some s => or_else s (generateId tt)
       | None => generateId tt
       end;
     Prompt.title := or_default (first_of (title p) (prompt_title p)) "Untitled";
     Prompt.description := or_default (first_of (description p) (prompt_desc p)) "";
     Prompt.prompt_text := or_default (prompt_text p) "";
     Prompt.tags := or_default (tags p) "";
     Prompt.status := or_default (first_of (status p) (prompt_status p)) "draft";
     Prompt.notes := or_default (notes p) "";
     Prompt.category := or_default (category p) "";
     Prompt.client := or_default (client p) "";
     Prompt.date_created := or_default (date_created p) now;
     Prompt.versions := default [] (versions p);
     Prompt.embedding := embedding p |}.

Definition templateToExport (t : Template.t) : RawTemplate :=
  {| t_template_id := Some (Template.id t);
     t_id := None;
     t_template_desc := Some (Template.description t);
     t_description := None;
     t_template_text := Some (Template.template_text t);
     t_template_notes := Some (or_else (Template.notes t) "");
     t_notes := None;
     t_isFavorite := Some (Template.is_favourite t);
     t_order := Some (Template.order t) |}.

Definition templateFromImport (t : RawTemplate) (generateId : unit -> string)
    : Template.t :=
  {| Template.id :=
       match first_of (t_template_id t) (t_id t) with
       | Some s => or_else s (generateId tt)
       | None => generateId tt
       end;
     Template.description :=
       or_default (first_of (t_template_desc t) (t_description t)) "No Description";
     Template.template_text := or_default (t_template_text t) "";
     Template.notes := or_default (first_of (t_template_notes t) (t_notes t)) "";
     Template.is_favourite := default false (t_isFavorite t);
     Template.order := default 0%Z (t_order t) |}.

End DataMapper.

(** ** src/core/SemanticSearch.js *)

Module SemanticSearch.

(** The feature-extraction pipeline: text to vector, or an exception. *)
Definition pipeline := string -> outcome (list float).

Record t := mk {
  pipe : option pipeline;
  isLoaded : bool;
  isLoading : bool;
  loadError : option string;
  minScore : float
}.

Definition new : t :=
  {| pipe := None; isLoaded := false; isLoading := false;
     loadError := None; minScore := 0.25%float |}.

(** [val] is the number [parseFloat] reads. *)
Definition setThreshold (this : t) (val : float) : t :=
  {| pipe := pipe this; isLoaded := isLoaded this; isLoading := isLoading this;
     loadError := loadError this; minScore := val |}.

(** [init]; [load] is the completion of the awaited model download. *)
Definition init (this : t) (load : outcome pipeline) : bool * t :=
  if isLoaded this then (true, this)
  else if isLoading this then (false, this)
  else
    match load with
    | Returned p =>
        (true, {| pipe := Some p; isLoaded := true; isLoading := false;
                  loadError := None; minScore := minScore this |})
    | Thrown e =>
        (false, {| pipe := pipe this; isLoaded := isLoaded this; isLoading := false;
                   loadError := Some e; minScore := minScore this |})
    end.

Definition isAvailable (this : t) : bool :=
  isLoaded this && negb (bool_decide (is_Some (loadError this))).

Definition embed (this : t) (text : string) : option (list float) :=
  match pipe this with
  | None => None
  | Some p =>
      if negb (truthy text) then None
      else try_catch (bind (p text) (fun v => Returned (Some v))) (fun _ => None)
  end.

(** The accumulation loop of [cosineSimilarity]: [dot] starts at 0 and
    takes the product of each pair of components in turn, every product
    and every sum rounded to a double. *)
Definition dot (vecA vecB : list float) : float :=
  fold_left (fun acc i => (acc + nth i vecA 0 * nth i vecB 0)%float)
            (seq 0 (length vecA)) 0%float.

Definition cosineSimilarity (vecA vecB : option (list float)) : float :=
  match vecA, vecB with
  | Some a, Some b =>
      if negb (length a =? length b)%nat then 0%float else dot a b
  | _, _ => 0%float
  end.

Record result := mkResult {
  id : string;
  score : float
}.

Definition defaultTopK : nat := 50.

Definition byScoreDesc (a b : result) : comparison :=
  sign (score b - score a)%float.

(** The array [scored] of [search], before it is sorted. *)
Definition scored (this : t) (queryVec : list float) (prompts : list Prompt.t)
    : list result :=
  List.filter (fun r => (minScore this <=? score r)%float)
    (List.map (fun p => {| id := Prompt.id p;
                           score := cosineSimilarity (Some queryVec) (Prompt.embedding p) |})
       (List.filter (fun p => bool_decide (is_Some (Prompt.embedding p))) prompts)).

Definition search (this : t) (query : string) (prompts : list Prompt.t)
    (topK : nat) : list result :=
  if negb (isLoaded this) then []
  else
    match embed this query with
    | None => []
    | Some queryVec => slice0 topK (sort byScoreDesc (scored this queryVec prompts))
    end.

Definition buildEmbeddingText (prompt : Prompt.t) : string :=
  or_else (Prompt.title prompt) "" ++ " " ++
  or_else (Prompt.description prompt) "" ++ " " ++
  or_else (Prompt.notes prompt) "" ++ " " ++
  or_else (Prompt.prompt_text prompt) "".

End SemanticSearch.

(** ** App.filterAndSortPrompts (app.js) *)

Module App.

Record Filter := mkFilter {
  search : string;
  category : string;
  client : string;
  status : string;
  sort : string
}.

Record State := mkState {
  prompts : list Prompt.t;
  filter : Filter;
  semanticMode : bool
}.

Record t := mk {
  semantic : SemanticSearch.t;
  state : State
}.

(** The three exact-match tests both branches repeat. *)
Definition matchesFilters (filter : Filter) (prompt : Prompt.t) : bool :=
  let matchesCat :=
    if truthy (category filter) then String.eqb (Prompt.category prompt) (category filter) else true in
  let matchesClient :=
    if truthy (client filter) then String.eqb (Prompt.client prompt) (client filter) else true in
  let matchesStatus :=
    if truthy (status filter) then String.eqb (Prompt.status prompt) (status filter) else true in
  matchesCat && matchesClient && matchesStatus.

(** [new Map(semanticResults.map(r => [r.id, r.score]))] *)
Definition scoreMapOf (semanticResults : list SemanticSearch.result)
    : gmap string float :=
  fold_left (fun m r => <[SemanticSearch.id r := SemanticSearch.score r]> m)
            semanticResults ∅.

(** [scoreMap.get(id) || 0] *)
Definition scoreOf (scoreMap : gmap string float) (id : string) : float :=
  match scoreMap !! id with
  | Some s => number_or s 0
  | None => 0%float
  end.

Definition byMapScoreDesc (scoreMap : gmap string float) (a b : Prompt.t)
    : comparison :=
  let scoreA := scoreOf scoreMap (Prompt.id a) in
  let scoreB := scoreOf scoreMap (Prompt.id b) in
  sign (scoreB - scoreA)%float.

(** [new Date(s || 0)]: the time value, [None] for an invalid date. *)
Definition dateOf `{Host} (s : string) : option Z :=
  if truthy s then Date_parse s else Some 0%Z.

(** [new Date(x) - new Date(y)], by sign; NaN compares as equal. *)
Definition dateDiff `{Host} (x y : string) : comparison :=
  match dateOf x, dateOf y with
  | Some tx, Some ty => (tx ?= ty)%Z
  | _, _ => Eq
  end.

Definition bySortMode `{Host} (sortMode : string) (a b : Prompt.t) : comparison :=
  if String.eqb sortMode "date-asc" then
    dateDiff (Prompt.date_created a) (Prompt.date_created b)
  else if String.eqb sortMode "date-desc" then
    dateDiff (Prompt.date_created b) (Prompt.date_created a)
  else if String.eqb sortMode "name-asc" then
    localeCompare (or_else (Prompt.title a) "") (or_else (Prompt.title b) "")
  else if String.eqb sortMode "cat-asc" then
    localeCompare (or_else (Prompt.category a) "") (or_else (Prompt.category b) "")
  else if String.eqb sortMode "client-asc" then
    localeCompare (or_else (Prompt.client a) "") (or_else (Prompt.client b) "")
  else Eq.

Definition matchesSearch `{Host} (filter : Filter) (prompt : Prompt.t) : bool :=
  let searchSource :=
    toLowerCase (Prompt.title prompt ++ Prompt.description prompt ++
                 Prompt.prompt_text prompt ++ or_else (Prompt.tags prompt) "") in
  includes searchSource (toLowerCase (search filter)).

Definition filterAndSortPrompts `{Host} (this : t) : outcome (list Prompt.t) :=
  let prompts := prompts (state this) in
  let filter := filter (state this) in
  let semanticMode := semanticMode (state this) in
  if truthy (search filter) && SemanticSearch.isLoaded (semantic this) && semanticMode then
    let semanticResults :=
      SemanticSearch.search (semantic this) (search filter) prompts
                            SemanticSearch.defaultTopK in
    let scoreMap := scoreMapOf semanticResults in
    let filtered := List.filter (matchesFilters filter) prompts in
    Returned (JS.sort (byMapScoreDesc scoreMap) filtered)
  else
    let filtered :=
      List.filter (fun prompt => matchesSearch filter prompt && matchesFilters filter prompt)
                  prompts in
    let sortMode := or_else (sort filter) "date-desc" in
    Returned (JS.sort (bySortMode sortMode) filtered).

End App.

(** ** src/repo/VaultRepo.js *)

Module VaultRepo.

(** What [JSON.parse] yields for the text of a file, as far as the
    repository looks at it: a prompt (it has [prompt_text]), a template
    (it has [template_text] only) or another object with an optional
    [id]. *)
Inductive Json :=
| JPrompt (p : Prompt.t)
| JTemplate (t : Template.t)
| JOther (id : option string).

Definition Json_id (j : Json) : option string :=
  match j with
  | JPrompt p => Some (Prompt.id p)
  | JTemplate t => Some (Template.id t)
  | JOther i => i
  end.

(** An entry of the granted directory; the content of a file is [None]
    when its text is not JSON. *)
Inductive Entry :=
| Subdirectory (empty : bool)
| File (content : option Json).

Definition is_file (e : Entry) : bool :=
  match e with
  | File _ => true
  | Subdirectory _ => false
  end.

Record t := mk {
  dirHandle : option (gmap string Entry);
  isConnected : bool;
  fileMap : gmap string string
}.

Definition new : t :=
  {| dirHandle := None; isConnected := false; fileMap := ∅ |}.

(** [dirHandle.removeEntry(name)] *)
Definition removeEntry (dir : gmap string Entry) (name : string)
    : outcome (gmap string Entry) :=
  match dir !! name with
  | None => Thrown "NotFoundError"
  | Some (Subdirectory false) => Thrown "InvalidModificationError"
  | Some _ => Returned (delete name dir)
  end.

(** [getFileHandle(name)], [getFile()], [text()], [JSON.parse(text)] *)
Definition readJson (dir : gmap string Entry) (name : string) : outcome Json :=
  match dir !! name with
  | None => Thrown "NotFoundError"
  | Some (Subdirectory _) => Thrown "TypeMismatchError"
  | Some (File None) => Thrown "SyntaxError"
  | Some (File (Some j)) => Returned j
  end.

Definition writeFile (dir : gmap string Entry) (fileName : string) (data : Json)
    : outcome (gmap string Entry) :=
  match dir !! fileName with
  | Some (Subdirectory _) => Thrown "TypeMismatchError"
  | _ => Returned (<[fileName := File (Some data)]> dir)
  end.

(** [picked] is the completion of [window.showDirectoryPicker()]. *)
Definition selectDirectory (this : t) (picked : outcome (gmap string Entry)) : bool * t :=
  match picked with
  | Returned dir =>
      (true, {| dirHandle := Some dir; isConnected := true; fileMap := fileMap this |})
  | Thrown _ => (false, this)
  end.

Definition jsonFiles (dir : gmap string Entry) : list (string * Entry) :=
  List.filter (fun ne => is_file ne.2 && endsWith ne.1 ".json") (map_to_list dir).

Record Loaded := mkLoaded {
  prompts : list Prompt.t;
  templates : list Template.t
}.

(** One file of the scan of [loadAll]. *)
Definition loadOne (dir : gmap string Entry)
    (acc : Loaded * gmap string string) (ne : string * Entry)
    : Loaded * gmap string string :=
  match readJson dir ne.1 with
  | Thrown _ => acc
  | Returned json =>
      let fm :=
        match Json_id json with
        | Some i => if truthy i then <[i := ne.1]> acc.2 else acc.2
        | None => acc.2
        end in
      match json with
      | JPrompt p =>
          ({| prompts := prompts acc.1 ++ [p]; templates := templates acc.1 |}, fm)
      | JTemplate t =>
          ({| prompts := prompts acc.1; templates := templates acc.1 ++ [t] |}, fm)
      | JOther _ => (acc.1, fm)
      end
  end.

Definition loadAll (this : t) : Loaded * t :=
  match dirHandle this with
  | None => ({| prompts := []; templates := [] |}, this)
  | Some dir =>
      let r := fold_left (loadOne dir) (jsonFiles dir)
                         ({| prompts := []; templates := [] |}, ∅) in
      (r.1, {| dirHandle := Some dir; isConnected := isConnected this; fileMap := r.2 |})
  end.

(** The shared body of [savePrompt] and [saveTemplate] after the new
    file name is known: the check for a rename, then the write. *)
Definition removeOld (this : t) (dir : gmap string Entry)
    (id newFileName : string) : gmap string Entry :=
  let oldFileName := fileMap this !! id in
  match oldFileName with
  | Some old =>
      if truthy old && negb (String.eqb old newFileName)
      then try_catch (removeEntry dir old) (fun _ => dir)
      else dir
  | None => dir
  end.

Definition renameAndWrite (this : t) (dir : gmap string Entry)
    (id newFileName : string) (data : Json) : outcome string * t :=
  let dir1 := removeOld this dir id newFileName in
  match writeFile dir1 newFileName data with
  | Thrown e =>
      (Thrown e, {| dirHandle := Some dir1; isConnected := isConnected this;
                    fileMap := fileMap this |})
  | Returned dir2 =>
      (Returned newFileName,
       {| dirHandle := Some dir2; isConnected := isConnected this;
          fileMap := <[id := newFileName]> (fileMap this) |})
  end.

Definition promptFileName (prompt : Prompt.t) : string :=
  let safeTitle := replace_non_alnum "_" (or_else (Prompt.title prompt) "Untitled") in
  safeTitle ++ "__" ++ Prompt.id prompt ++ ".json".

Definition templateFileName (template : Template.t) : string :=
  let safeDesc := replace_non_alnum "_" (or_else (Template.description template) "Template") in
  "TEMPLATE_" ++ safeDesc ++ "__" ++ Template.id template ++ ".json".

Definition savePrompt (this : t) (prompt : Prompt.t) : outcome string * t :=
  match dirHandle this with
  | None => (Thrown "Vault not connected", this)
  | Some dir =>
      renameAndWrite this dir (Prompt.id prompt) (promptFileName prompt) (JPrompt prompt)
  end.

Definition saveTemplate (this : t) (template : Template.t) : outcome unit * t :=
  match dirHandle this with
  | None => (Thrown "Vault not connected", this)
  | Some dir =>
      let r := renameAndWrite this dir (Template.id template)
                              (templateFileName template) (JTemplate template) in
      (bind r.1 (fun _ => Returned tt), r.2)
  end.

(** The slow path of [deleteFile]: the first JSON file whose parsed id
    is [id] is removed. *)
Fixpoint scanDelete (dir : gmap string Entry) (id : string)
    (entries : list (string * Entry)) : option (gmap string Entry) :=
  match entries with
  | [] => None
  | ne :: rest =>
      if is_file ne.2 && endsWith ne.1 ".json" then
        match readJson dir ne.1 with
        | Returned json =>
            if bool_decide (Json_id json = Some id) then
              match removeEntry dir ne.1 with
              | Returned dir' => Some dir'
              | Thrown _ => scanDelete dir id rest
              end
            else scanDelete dir id rest
        | Thrown _ => scanDelete dir id rest
        end
      else scanDelete dir id rest
  end.

Definition deleteFile (this : t) (id : string) : outcome unit * t :=
  match dirHandle this with
  | None => (Returned tt, this)
  | Some dir =>
      let slow :=
        match scanDelete dir id (map_to_list dir) with
        | Some dir' =>
            (Returned tt, {| dirHandle := Some dir'; isConnected := isConnected this;
                             fileMap := delete id (fileMap this) |})
        | None => (Returned tt, this)
        end in
      match fileMap this !! id with
      | Some cachedFileName =>
          if truthy cachedFileName then
            match removeEntry dir cachedFileName with
            | Returned dir' =>
                (Returned tt, {| dirHandle := Some dir'; isConnected := isConnected this;
                                 fileMap := delete id (fileMap this) |})
            | Thrown _ => slow
            end
          else slow
      | None => slow
      end
  end.

Definition getAllPrompts (this : t) : list Prompt.t * t :=
  let r := loadAll this in (prompts r.1, r.2).

Definition getAllTemplates (this : t) : list Template.t * t :=
  let r := loadAll this in (templates r.1, r.2).

Definition deletePrompt (this : t) (id : string) : outcome unit * t :=
  deleteFile this id.

Definition deleteTemplate (this : t) (id : string) : outcome unit * t :=
  deleteFile this id.

(** The file names under which a full scan finds a document with [id]. *)
Definition filesFor (dir : gmap string Entry) (id : string) : list string :=
  List.map fst
    (List.filter
       (fun ne => match readJson dir ne.1 with
                  | Returned json => bool_decide (Json_id json = Some id)
                  | Thrown _ => false
                  end)
       (jsonFiles dir)).

End VaultRepo.

(** ** src/repo/IndexedDBRepo.js: [init] *)

Module IndexedDBRepo.

Record ObjectStore := mkStore {
  name : string;
  keyPath : string;
  indexes : list string
}.

(** A database is the list of its object stores. *)
Definition contains (db : list ObjectStore) (n : string) : bool :=
  existsb (fun s => String.eqb (name s) n) db.

Inductive Promise (A : Type) : Type :=
| Pending
| Fulfilled (a : A)
| Rejected (reason : string).
Arguments Pending {A}.
Arguments Fulfilled {A} a.
Arguments Rejected {A} reason.

(** [resolve] and [reject] act on a pending promise only. *)
Definition settle {A} (p : Promise A) (v : Promise A) : Promise A :=
  match p with
  | Pending => v
  | _ => p
  end.

(** The events the open request delivers to the handlers [init] installs. *)
Inductive Event :=
| blocked
| upgradeneeded
| success
| error (e : string).

(** The promise [init] returns, the database of the open request, the
    [db] field of the repository and what the user has been shown. *)
Record Run := mkRun {
  promise : Promise (list ObjectStore);
  request_result : list ObjectStore;
  db : option (list ObjectStore);
  alerts : list string;
  console : list string
}.

Definition blockedText : string :=
  "Database Update Blocked: Please close all other tabs/windows of this app and refresh.".

Definition errorText : string :=
  "Database Error. Check console for details.".

Definition upgrade (d : list ObjectStore) : list ObjectStore :=
  let d1 :=
    if negb (contains d "prompts")
    then d ++ [{| name := "prompts"; keyPath := "id"; indexes := ["category"; "client"] |}]
    else d in
  let d2 :=
    if negb (contains d1 "templates")
    then d1 ++ [{| name := "templates"; keyPath := "id"; indexes := [] |}]
    else d1 in
  if negb (contains d2 "collections")
  then d2 ++ [{| name := "collections"; keyPath := "id"; indexes := [] |}]
  else d2.

(** [indexedDB.open(DB_NAME, DB_VERSION)] on a database with the stores
    [existing]: the promise is pending and nothing has been shown. *)
Definition init (existing : list ObjectStore) : Run :=
  {| promise := Pending; request_result := existing; db := None;
     alerts := []; console := [] |}.

Definition handle (r : Run) (ev : Event) : Run :=
  match ev with
  | blocked =>
      {| promise := promise r; request_result := request_result r; db := db r;
         alerts := alerts r ++ [blockedText]; console := console r |}
  | upgradeneeded =>
      {| promise := promise r; request_result := upgrade (request_result r); db := db r;
         alerts := alerts r; console := console r |}
  | success =>
      {| promise := settle (promise r) (Fulfilled (request_result r));
         request_result := request_result r; db := Some (request_result r);
         alerts := alerts r; console := console r |}
  | error e =>
      {| promise := settle (promise r) (Rejected "DB Error");
         request_result := request_result r; db := db r;
         alerts := alerts r ++ [errorText]; console := console r ++ [String.append "DB Error:" e] |}
  end.

Definition run (existing : list ObjectStore) (events : list Event) : Run :=
  fold_left handle events (init existing).

End IndexedDBRepo.

(** ** The storage helpers of the application (app.js) *)

Module Storage.

(** src/config.js *)
Definition STORAGE_MODE_LOCAL : string := "local".
Definition STORAGE_MODE_VAULT : string := "vault".

(** The prompt after [prompt.embedding = e]. *)
Definition setEmbedding (prompt : Prompt.t) (e : option (list float)) : Prompt.t :=
  {| Prompt.id := Prompt.id prompt; Prompt.title := Prompt.title prompt;
     Prompt.description := Prompt.description prompt;
     Prompt.prompt_text := Prompt.prompt_text prompt; Prompt.tags := Prompt.tags prompt;
     Prompt.status := Prompt.status prompt; Prompt.notes := Prompt.notes prompt;
     Prompt.category := Prompt.category prompt; Prompt.client := Prompt.client prompt;
     Prompt.date_created := Prompt.date_created prompt;
     Prompt.versions := Prompt.versions prompt;
     Prompt.embedding := e |}.

Definition textToEmbed (prompt : Prompt.t) : string :=
  trim (String.append (or_else (Prompt.title prompt) "")
          (String.append " "
             (String.append (or_else (Prompt.description prompt) "")
                (String.append " "
                   (String.append (or_else (Prompt.notes prompt) "")
                      (String.append " " (or_else (Prompt.prompt_text prompt) ""))))))).

(** What a storage helper leaves behind: the completion of the call, the
    prompt object as the call mutated it, the vault and the local
    store. *)
Record Persisted (S : Type) := mkPersisted {
  completion : outcome unit;
  persisted : Prompt.t;
  vaultAfter : VaultRepo.t;
  storeAfter : S
}.
Arguments mkPersisted {S} _ _ _ _.
Arguments completion {S} _.
Arguments persisted {S} _.
Arguments vaultAfter {S} _.
Arguments storeAfter {S} _.

(** [persistPrompt]; [put] is [this.store.put('prompts', _)] on the
    local store [store]. *)
Definition persistPrompt {S : Type} (put : Prompt.t -> S -> outcome unit * S)
    (semantic : SemanticSearch.t) (storageMode : string)
    (vault : VaultRepo.t) (store : S) (prompt : Prompt.t) : Persisted S :=
  let textToEmbed := textToEmbed prompt in
  let prompt1 :=
    if SemanticSearch.isLoaded semantic && truthy textToEmbed
    then setEmbedding prompt (SemanticSearch.embed semantic textToEmbed)
    else prompt in
  if String.eqb storageMode STORAGE_MODE_VAULT then
    let r := VaultRepo.savePrompt vault prompt1 in
    {| completion := bind r.1 (fun _ => Returned tt); persisted := prompt1;
       vaultAfter := r.2; storeAfter := store |}
  else
    let r := put prompt1 store in
    {| completion := r.1; persisted := prompt1; vaultAfter := vault; storeAfter := r.2 |}.

(** The loop of [reindexStalePrompts] over the prompts of the state: a
    prompt without embedding is persisted, which mutates it in place; an
    exception ends the loop. *)
Fixpoint reindexLoop {S : Type} (put : Prompt.t -> S -> outcome unit * S)
    (semantic : SemanticSearch.t) (storageMode : string)
    (vault : VaultRepo.t) (store : S) (prompts : list Prompt.t)
    : outcome unit * list Prompt.t * VaultRepo.t * S :=
  match prompts with
  | [] => (Returned tt, [], vault, store)
  | p :: rest =>
      if negb (bool_decide (is_Some (Prompt.embedding p))) then
        let r := persistPrompt put semantic storageMode vault store p in
        match completion r with
        | Thrown e => (Thrown e, persisted r :: rest, vaultAfter r, storeAfter r)
        | Returned _ =>
            let '(c, rest', v, s) :=
              reindexLoop put semantic storageMode (vaultAfter r) (storeAfter r) rest in
            (c, persisted r :: rest', v, s)
        end
      else
        let '(c, rest', v, s) := reindexLoop put semantic storageMode vault store rest in
        (c, p :: rest', v, s)
  end.

Definition reindexStalePrompts {S : Type} (put : Prompt.t -> S -> outcome unit * S)
    (semantic : SemanticSearch.t) (storageMode : string)
    (vault : VaultRepo.t) (store : S) (prompts : list Prompt.t)
    : outcome unit * list Prompt.t * VaultRepo.t * S :=
  if negb (SemanticSearch.isLoaded semantic) then (Returned tt, prompts, vault, store)
  else reindexLoop put semantic storageMode vault store prompts.

End Storage.

(** ** Vocabulary of the statements *)

(** A prompt satisfies the exact-match filters: each filter that is set
    equals the prompt's field. *)
Definition satisfiesFilters (f : App.Filter) (p : Prompt.t) : Prop :=
  (App.category f = "" \/ Prompt.category p = App.category f) /\
  (App.client f = "" \/ Prompt.client p = App.client f) /\
  (App.status f = "" \/ Prompt.status p = App.status f).

(** [q] occurs in [s] when case is ignored. *)
Definition containsIgnoringCase `{Host} (s q : string) : Prop :=
  includes (toLowerCase s) (toLowerCase q) = true.

(** The text the keyword branch of the application looks into: title,
    description, body text and tags, one after the other. *)
Definition searchedText (p : Prompt.t) : string :=
  Prompt.title p ++ Prompt.description p ++ Prompt.prompt_text p ++ Prompt.tags p.

(** The rational number a double stands for (0 for NaN and the
    infinities). *)
Definition exactValue (x : float) : Q :=
  match Prim2SF x with
  | S754_finite s m e => (inject_Z (if s then Zneg m else Zpos m) * Qpower 2 e)%Q
  | _ => 0%Q
  end.

(** Sum of the squares of the components: 1 for a unit vector. *)
Definition sumSquares (v : list Q) : Q :=
  fold_right (fun x acc => (x * x + acc)%Q) 0%Q v.

(** The sum of the products of the components of two vectors, pair by
    pair from the first, in double arithmetic. *)
Definition sumOfProducts (a b : list float) : float :=
  fold_left (fun acc xy => (acc + fst xy * snd xy)%float) (combine a b) 0%float.

(** The vector of length [n] with [x] at index [i] and 0 elsewhere. *)
Definition axisVector (n i : nat) (x : float) : list float :=
  repeat 0%float i ++ x :: repeat 0%float (n - S i).

(** The similarity of a prompt to the query vector [qv], and the entry
    the prompt gets in the result of [SemanticSearch.search]. *)
Definition similarityTo (qv : list float) (p : Prompt.t) : float :=
  SemanticSearch.cosineSimilarity (Some qv) (Prompt.embedding p).

Definition resultOf (qv : list float) (p : Prompt.t) : SemanticSearch.result :=
  {| SemanticSearch.id := Prompt.id p;
     SemanticSearch.score := similarityTo qv p |}.

(** The prompts the search ranks: those with an embedding whose
    similarity is at or above the threshold, in the order of the input. *)
Definition eligible (sem : SemanticSearch.t) (qv : list float)
    (prompts : list Prompt.t) : list Prompt.t :=
  List.filter
    (fun p => bool_decide (is_Some (Prompt.embedding p))
              && (SemanticSearch.minScore sem <=? similarityTo qv p)%float)
    prompts.

(** The score a list of search results gives a prompt: that of the last
    entry under the id of the prompt, 0 when there is none. *)
Definition searchScore (rs : list SemanticSearch.result) (p : Prompt.t) : float :=
  match List.find (fun r => String.eqb (SemanticSearch.id r) (Prompt.id p)) (rev rs) with
  | Some r => SemanticSearch.score r
  | None => 0%float
  end.

(** Descending order of a numeric key, and the elements of a list whose
    key equals [s], in list order. *)
Definition descending {A} (key : A -> float) (l : list A) : Prop :=
  StronglySorted (fun a b => (key b <=? key a)%float = true) l.

Definition withKey {A} (key : A -> float) (s : float) (l : list A) : list A :=
  List.filter (fun a => (key a =? s)%float) l.

(** An event of the open request that settles nothing. *)
Definition quiet (ev : IndexedDBRepo.Event) : Prop :=
  ev = IndexedDBRepo.blocked \/ ev = IndexedDBRepo.upgradeneeded.

(** Order of the template list: a favourite before a template that is
    none, and among templates of the same kind the smaller order first. *)
Definition favouritesFirst (a b : Template.t) : Prop :=
  (Template.is_favourite a = true /\ Template.is_favourite b = false) \/
  (Template.is_favourite a = Template.is_favourite b /\
   (Template.order a <= Template.order b)%Z).

(** The prompt after [prompt.versions.push(v)]. *)
Definition pushVersion (p : Prompt.t) (v : Version.t) : Prompt.t :=
  {| Prompt.id := Prompt.id p; Prompt.title := Prompt.title p;
     Prompt.description := Prompt.description p;
     Prompt.prompt_text := Prompt.prompt_text p; Prompt.tags := Prompt.tags p;
     Prompt.status := Prompt.status p; Prompt.notes := Prompt.notes p;
     Prompt.category := Prompt.category p; Prompt.client := Prompt.client p;
     Prompt.date_created := Prompt.date_created p;
     Prompt.versions := Prompt.versions p ++ [v];
     Prompt.embedding := Prompt.embedding p |}.

(** Version numbers that grow strictly along the list. *)
Definition increasingVersions (vs : list Version.t) : Prop :=
  StronglySorted (fun x y => (x <? y)%float = true) (List.map Version.version_no vs).

(** The double of a whole number (exact below 2^53). *)
Definition wholeNumber (n : Z) : float := of_uint63 (Uint63.of_Z n).

(** The number [createVersion] starts from: that of the last version, 0
    for a prompt without versions. *)
Definition lastNumber (p : Prompt.t) : float :=
  match last (Prompt.versions p) with
  | Some v => Version.version_no v
  | None => 0%float
  end.

(** Strings in strictly increasing code-unit order. *)
Definition strictlyAscending (l : list string) : Prop :=
  StronglySorted (fun x y => String.compare x y = Lt) l.

(** A call on the semantic search object that changes its state, and the
    object after a sequence of calls on a new one. *)
Inductive semanticCall :=
| CallInit (load : outcome SemanticSearch.pipeline)
| CallSetThreshold (val : float).

Definition semanticStep (this : SemanticSearch.t) (c : semanticCall)
    : SemanticSearch.t :=
  match c with
  | CallInit load => (SemanticSearch.init this load).2
  | CallSetThreshold val => SemanticSearch.setThreshold this val
  end.

Definition semanticAfter (calls : list semanticCall) : SemanticSearch.t :=
  fold_left semanticStep calls SemanticSearch.new.

(** The time value the date sort uses for a prompt. *)
Definition timeOf (H : Host) (p : Prompt.t) : option Z :=
  App.dateOf (Prompt.date_created p).

(** Both prompts have a valid date and the first is not later than the
    second. *)
Definition notLater (H : Host) (a b : Prompt.t) : Prop :=
  exists ta tb, timeOf H a = Some ta /\ timeOf H b = Some tb /\ (ta <= tb)%Z.

(** In a state that a sequence of calls reaches, a loaded object has a
    pipeline and no load error. *)
Definition wellLoaded (this : SemanticSearch.t) : Prop :=
  SemanticSearch.isLoaded this = true ->
  is_Some (SemanticSearch.pipe this) /\ SemanticSearch.loadError this = None.

(** The prompt as [persistPrompt] leaves it when the model is loaded:
    with the vector of its text, or as it was when the text is blank. *)
Definition refreshed (semantic : SemanticSearch.t) (p : Prompt.t) : Prompt.t :=
  if truthy (Storage.textToEmbed p)
  then Storage.setEmbedding p (SemanticSearch.embed semantic (Storage.textToEmbed p))
  else p.

(** ** Example data *)

Module Examples.

(** A host for evaluating examples: collation by code unit, and a date
    parser that accepts no string. *)
Definition host : Host :=
  {| localeCompare := String.compare; Date_parse := fun _ => None;
     toLowerCase := lowerAscii; toLowerCase_ascii := fun s _ => eq_refl |}.

Definition doc (id title category status notes : string)
    (embedding : option (list float)) : Prompt.t :=
  {| Prompt.id := id; Prompt.title := title; Prompt.description := "";
     Prompt.prompt_text := ""; Prompt.tags := ""; Prompt.status := status;
     Prompt.notes := notes; Prompt.category := category; Prompt.client := "";
     Prompt.date_created := ""; Prompt.versions := [];
     Prompt.embedding := embedding |}.

(** The model maps every query to the vector [1, 0]. *)
Definition model : SemanticSearch.pipeline := fun _ => Returned [1%float; 0%float].

Definition ready : SemanticSearch.t :=
  (SemanticSearch.init SemanticSearch.new (Returned model)).2.

(** The third document has the doubles nearest to 0.9 and 0.1. *)
Definition doc1 := doc "doc1" "one" "X" "live" "" (Some [1%float; 0%float]).
Definition doc2 := doc "doc2" "two" "Y" "live" "" (Some [0%float; 1%float]).
Definition doc3 :=
  doc "doc3" "three" "X" "draft" ""
      (Some [0x1.ccccccccccccdp-1%float; 0x1.999999999999ap-4%float]).

(** Five doubles, the integers 698843981, 815192366, 35245, 175 and 3
    over 2^30: their squares add up to exactly 1. *)
Definition unitVector : list float :=
  [0x29a7834dp-30%float; 0x3096d92ep-30%float; 0x89adp-30%float;
   0xafp-30%float; 0x3p-30%float].

Definition noFilter (search : string) : App.Filter :=
  {| App.search := search; App.category := ""; App.client := "";
     App.status := ""; App.sort := "" |}.

Definition semanticApp : App.t :=
  {| App.semantic := ready;
     App.state := {| App.prompts := [doc1; doc2; doc3];
                     App.filter := noFilter "query";
                     App.semanticMode := true |} |}.

(** Scenario of the filters: a, b, c with the category filter X. *)
Definition a := doc "a" "a" "X" "live" "" None.
Definition b := doc "b" "b" "Y" "live" "" None.
Definition c := doc "c" "c" "X" "draft" "" None.

Definition categoryX (search : string) : App.Filter :=
  {| App.search := search; App.category := "X"; App.client := "";
     App.status := ""; App.sort := "" |}.

(** A prompt whose notes alone hold the word of the query. *)
Definition noted := doc "n1" "Plan" "" "draft" "zebra crossing" None.

Definition keywordApp (query : string) (prompts : list Prompt.t) : App.t :=
  {| App.semantic := SemanticSearch.new;
     App.state := {| App.prompts := prompts;
                     App.filter := noFilter query;
                     App.semanticMode := false |} |}.

(** A prompt none of whose fields holds "unse", while the title followed
    by the description does. *)
Definition spanning : Prompt.t :=
  {| Prompt.id := "s1"; Prompt.title := "sun"; Prompt.description := "set";
     Prompt.prompt_text := ""; Prompt.tags := ""; Prompt.status := "draft";
     Prompt.notes := ""; Prompt.category := ""; Prompt.client := "";
     Prompt.date_created := ""; Prompt.versions := [];
     Prompt.embedding := None |}.

(** The vault scenario: "Draft" with id p1, renamed to "Final". *)
Definition draft := doc "p1" "Draft" "" "draft" "" None.
Definition final := doc "p1" "Final" "" "draft" "" None.

Definition connected : VaultRepo.t :=
  (VaultRepo.selectDirectory VaultRepo.new (Returned ∅)).2.

Definition afterDraft : VaultRepo.t := (VaultRepo.savePrompt connected draft).2.

(** The same directory picked again by a new repository object: the
    file map starts empty and [loadAll] has not run. *)
Definition restarted : VaultRepo.t :=
  (VaultRepo.selectDirectory VaultRepo.new
     (Returned (default ∅ (VaultRepo.dirHandle afterDraft)))).2.

Definition untitled := doc "p9" "" "" "live" "" None.

Definition tmpl (id : string) (fav : bool) (order : Z) : Template.t :=
  {| Template.id := id; Template.description := id; Template.template_text := "";
     Template.notes := ""; Template.is_favourite := fav; Template.order := order |}.

Definition versioned : Prompt.t :=
  pushVersion (doc "v1" "Versioned" "" "draft" "" None)
    (PromptService.createVersion (doc "v1" "Versioned" "" "draft" "" None) "t1").

(** A prompt whose only version has the number 2^53. *)
Definition worn : Prompt.t :=
  pushVersion (doc "w1" "Worn" "" "draft" "" None)
    {| Version.version_no := 9007199254740992%float; Version.prompt_text := "";
       Version.notes := ""; Version.date_created := "t0" |}.

(** A loaded object whose pipeline throws on every text. *)
Definition failing : SemanticSearch.t :=
  (SemanticSearch.init SemanticSearch.new (Returned (fun _ => Thrown "model error"))).2.

(** A host whose date parser knows three dates (time values in
    milliseconds), and three prompts created on them. *)
Definition calendar : Host :=
  {| localeCompare := String.compare;
     Date_parse := fun s =>
       if String.eqb s "2025-01-01T10:00:00Z" then Some 1735725600000%Z
       else if String.eqb s "2025-01-02T10:00:00Z" then Some 1735812000000%Z
       else if String.eqb s "2025-01-03T10:00:00Z" then Some 1735898400000%Z
       else None;
     toLowerCase := lowerAscii; toLowerCase_ascii := fun s _ => eq_refl |}.

Definition dated (id title date : string) : Prompt.t :=
  {| Prompt.id := id; Prompt.title := title; Prompt.description := "";
     Prompt.prompt_text := ""; Prompt.tags := ""; Prompt.status := "draft";
     Prompt.notes := ""; Prompt.category := ""; Prompt.client := "";
     Prompt.date_created := date; Prompt.versions := [];
     Prompt.embedding := None |}.

Definition alpha := dated "1" "Alpha" "2025-01-01T10:00:00Z".
Definition beta := dated "2" "Beta" "2025-01-02T10:00:00Z".
Definition gamma := dated "3" "Gamma" "2025-01-03T10:00:00Z".

(** A template saved as "Memo" and then renamed to "Letter". *)
Definition memo : Template.t :=
  {| Template.id := "t1"; Template.description := "Memo"; Template.template_text := "Dear";
     Template.notes := ""; Template.is_favourite := false; Template.order := 0%Z |}.

Definition letter : Template.t :=
  {| Template.id := "t1"; Template.description := "Letter"; Template.template_text := "Dear";
     Template.notes := ""; Template.is_favourite := false; Template.order := 0%Z |}.

Definition afterMemo : VaultRepo.t := (VaultRepo.saveTemplate afterDraft memo).2.

(** A local store that records what is put into it. *)
Definition record (p : Prompt.t) (store : list Prompt.t) : outcome unit * list Prompt.t :=
  (Returned tt, store ++ [p]).

End Examples.

(** ** Doubles

    The comparisons and the arithmetic of the doubles, through the
    specification of the primitive operations. *)

Section Doubles.
Local Open Scope Z_scope.

Lemma digits2_pos_bounds (p : positive) :
  2 ^ (Zpos (digits2_pos p) - 1) <= Zpos p < 2 ^ Zpos (digits2_pos p).
Proof.
  induction p as [p IH|p IH|]; cbn [digits2_pos].
  - rewrite Pos2Z.inj_succ.
    replace (Z.succ (Zpos (digits2_pos p)) - 1) with (Z.succ (Zpos (digits2_pos p) - 1)) by lia.
    rewrite !Z.pow_succ_r by lia. lia.
  - rewrite Pos2Z.inj_succ.
    replace (Z.succ (Zpos (digits2_pos p)) - 1) with (Z.succ (Zpos (digits2_pos p) - 1)) by lia.
    rewrite !Z.pow_succ_r by lia. lia.
  - cbn. lia.
Qed.

Lemma shr_1_m mrs : 0 <= shr_m mrs -> shr_m (shr_1 mrs) = Z.div2 (shr_m mrs).
Proof.
  destruct mrs as [m r s]. cbn [shr_m]. intros Hm.
  destruct m as [|[p|p|]|p]; try reflexivity; lia.
Qed.

Lemma iter_shr_1_m n mrs :
  0 <= shr_m mrs -> shr_m (SpecFloat.iter_pos shr_1 n mrs) = shr_m mrs / 2 ^ Zpos n.
Proof.
  revert mrs. induction n as [n IH|n IH|]; intros mrs Hm; cbn [SpecFloat.iter_pos].
  - assert (H1 : 0 <= shr_m (shr_1 mrs)).
    { rewrite shr_1_m by assumption. rewrite Z.div2_div. apply Z.div_pos; lia. }
    assert (H2 : 0 <= shr_m (SpecFloat.iter_pos shr_1 n (shr_1 mrs))).
    { rewrite IH by assumption. apply Z.div_pos; lia. }
    rewrite IH, IH, shr_1_m by assumption.
    rewrite Z.div2_div, !Z.div_div by lia.
    f_equal.
    replace (Zpos n~1) with (1 + Zpos n + Zpos n) by lia.
    rewrite !Z.pow_add_r by lia. rewrite Z.pow_1_r. ring.
  - assert (H2 : 0 <= shr_m (SpecFloat.iter_pos shr_1 n mrs)).
    { rewrite IH by assumption. apply Z.div_pos; lia. }
    rewrite IH, IH by assumption.
    rewrite !Z.div_div by lia.
    f_equal.
    replace (Zpos n~0) with (Zpos n + Zpos n) by lia.
    rewrite !Z.pow_add_r by lia. ring.
  - rewrite shr_1_m by assumption. rewrite Z.div2_div. reflexivity.
Qed.

Lemma fexp64 e : fexp prec emax e = Z.max (e - 53) (-1074).
Proof. reflexivity. Qed.

(** The right shift of the rounding keeps a mantissa above 0 when the
    exponent is not below the smallest one. *)
Lemma shr_fexp_pos m e l :
  -1074 <= e ->
  0 < shr_m (fst (shr_fexp prec emax (Zpos m) e l)) /\
  -1074 <= snd (shr_fexp prec emax (Zpos m) e l).
Proof.
  intros He. unfold shr_fexp. rewrite fexp64. cbn [Zdigits2].
  assert (Hm : shr_m (shr_record_of_loc (Zpos m) l) = Zpos m)
    by (destruct l as [|[]]; reflexivity).
  pose proof (digits2_pos_bounds m) as [Hlo _].
  unfold shr.
  destruct (Z.max (Zpos (digits2_pos m) + e - 53) (-1074) - e) as [|n|n] eqn:Hn;
    cbn [fst snd]; try (rewrite Hm; lia).
  rewrite iter_shr_1_m by (rewrite Hm; lia). rewrite Hm.
  split; [|lia].
  apply Z.div_str_pos. split; [apply Z.pow_pos_nonneg; lia|].
  eapply Z.le_trans; [|exact Hlo].
  apply Z.pow_le_mono_r; lia.
Qed.

Lemma round_nearest_even_pos m l : 0 < m -> 0 < round_nearest_even m l.
Proof.
  intros Hm. destruct l as [|[]]; cbn [round_nearest_even]; try lia.
  destruct (Z.even m); lia.
Qed.

(** A mantissa that is not 0 rounds to a finite double or to an
    infinity, of the sign given. *)
Lemma binary_round_aux_signed s m e l :
  -1074 <= e ->
  (exists m' e', binary_round_aux prec emax s (Zpos m) e l = S754_finite s m' e') \/
  binary_round_aux prec emax s (Zpos m) e l = S754_infinity s.
Proof.
  intros He. unfold binary_round_aux.
  pose proof (shr_fexp_pos m e l He) as [H1 H2].
  destruct (shr_fexp prec emax (Zpos m) e l) as [mrs1 e1]. cbn [fst snd] in H1, H2.
  pose proof (round_nearest_even_pos _ (loc_of_shr_record mrs1) H1) as H3.
  destruct (round_nearest_even (shr_m mrs1) (loc_of_shr_record mrs1)) as [|m2|m2];
    try lia.
  pose proof (shr_fexp_pos m2 e1 loc_Exact H2) as [H4 _].
  destruct (shr_fexp prec emax (Zpos m2) e1 loc_Exact) as [mrs2 e2]. cbn [fst] in H4.
  destruct (shr_m mrs2) as [|m3|m3]; try lia.
  destruct (e2 <=? emax - prec); [left; eauto | right; reflexivity].
Qed.

Lemma binary_round_signed s m e :
  -1074 <= e ->
  (exists m' e', binary_round prec emax s m e = S754_finite s m' e') \/
  binary_round prec emax s m e = S754_infinity s.
Proof.
  intros He. unfold binary_round, shl_align. rewrite fexp64.
  destruct (Z.max (Zpos (digits2_pos m) + e - 53) (-1074) - e) eqn:Hd;
    apply binary_round_aux_signed; lia.
Qed.

Lemma binary_normalize_positive D e :
  -1074 <= e ->
  SFltb (S754_zero false) (binary_normalize prec emax D e false) = (0 <? D).
Proof.
  intros He. destruct D as [|m|m]; cbn [binary_normalize]; [reflexivity| |].
  - destruct (binary_round_signed false m e He) as [(m' & e' & ->)| ->]; reflexivity.
  - destruct (binary_round_signed true m e He) as [(m' & e' & ->)| ->]; reflexivity.
Qed.

Lemma iter_xO m d : Zpos (Pos.iter xO m d) = Zpos m * 2 ^ Zpos d.
Proof.
  induction d as [|d IH] using Pos.peano_ind.
  - cbn. lia.
  - rewrite Pos.iter_succ, Pos2Z.inj_xO, IH, Pos2Z.inj_succ, Z.pow_succ_r by lia. ring.
Qed.

Lemma shl_align_value m e e' :
  e' <= e -> Zpos (fst (shl_align m e e')) = Zpos m * 2 ^ (e - e').
Proof.
  intros He. unfold shl_align.
  destruct (e' - e) as [|d|d] eqn:Hd; cbn [fst]; try lia.
  - replace (e - e') with 0 by lia. lia.
  - rewrite iter_xO. f_equal. f_equal. lia.
Qed.

Lemma bounded_inv m e :
  bounded prec emax m e = true ->
  -1074 <= e /\ Zpos (digits2_pos m) <= 53 /\
  (-1074 < e -> Zpos (digits2_pos m) = 53).
Proof.
  unfold bounded, canonical_mantissa. rewrite fexp64.
  intros H. apply andb_true_iff in H as [H _]. apply Z.eqb_eq in H. lia.
Qed.

(** On the mantissas and exponents of doubles the order by exponent,
    then by mantissa, is the order of the values. *)
Lemma aligned_compare mx ex my ey :
  bounded prec emax mx ex = true -> bounded prec emax my ey = true ->
  (Zpos (fst (shl_align mx ex (Z.min ex ey))) ?= Zpos (fst (shl_align my ey (Z.min ex ey))))
  = match ex ?= ey with
    | Lt => Lt
    | Gt => Gt
    | Eq => Pos.compare_cont Eq mx my
    end.
Proof.
  intros Hx Hy.
  apply bounded_inv in Hx as (Hex & Hdx & Hnx), Hy as (Hey & Hdy & Hny).
  pose proof (digits2_pos_bounds mx) as [Hlx Hux].
  pose proof (digits2_pos_bounds my) as [Hly Huy].
  rewrite !shl_align_value by lia.
  destruct (Z.compare_spec ex ey) as [->|Hlt|Hgt].
  - rewrite Z.min_id, Z.sub_diag, !Z.mul_1_r. reflexivity.
  - rewrite Z.min_l by lia. rewrite Z.sub_diag, Z.mul_1_r.
    apply Z.compare_lt_iff.
    rewrite (Hny ltac:(lia)) in Hly.
    assert (H2 : 2 ^ 1 <= 2 ^ (ey - ex)) by (apply Z.pow_le_mono_r; lia).
    assert (H3 : 2 ^ Zpos (digits2_pos mx) <= 2 ^ 53) by (apply Z.pow_le_mono_r; lia).
    change (2 ^ (53 - 1)) with 4503599627370496 in Hly.
    change (2 ^ 53) with 9007199254740992 in H3.
    change (2 ^ 1) with 2 in H2. nia.
  - rewrite Z.min_r by lia. rewrite Z.sub_diag, Z.mul_1_r.
    apply Z.compare_gt_iff.
    rewrite (Hnx ltac:(lia)) in Hlx.
    assert (H2 : 2 ^ 1 <= 2 ^ (ex - ey)) by (apply Z.pow_le_mono_r; lia).
    assert (H3 : 2 ^ Zpos (digits2_pos my) <= 2 ^ 53) by (apply Z.pow_le_mono_r; lia).
    change (2 ^ (53 - 1)) with 4503599627370496 in Hlx.
    change (2 ^ 53) with 9007199254740992 in H3.
    change (2 ^ 1) with 2 in H2. nia.
Qed.

(** A difference is above 0 exactly when its second operand is below
    its first: no difference of two doubles rounds to 0. *)
Lemma SFsub_positive x y :
  valid_binary x = true -> valid_binary y = true ->
  SFltb (S754_zero false) (SF64sub y x) = SFltb x y.
Proof.
  intros Hx Hy.
  destruct x as [sx|sx| |sx mx ex], y as [sy|sy| |sy my ey];
    try reflexivity;
    try (destruct sx; reflexivity); try (destruct sy; reflexivity);
    try (destruct sx, sy; reflexivity).
  cbn [SpecFloat.valid_binary] in Hx, Hy.
  unfold SF64sub, SFsub.
  pose proof (bounded_inv _ _ Hx) as (Hex & _).
  pose proof (bounded_inv _ _ Hy) as (Hey & _).
  rewrite binary_normalize_positive by lia.
  pose proof (aligned_compare my ey mx ex Hy Hx) as Hc.
  set (Y := Zpos (fst (shl_align my ey (Z.min ey ex)))) in *.
  set (X := Zpos (fst (shl_align mx ex (Z.min ey ex)))) in *.
  assert (HY : 0 < Y) by (subst Y; lia).
  assert (HX : 0 < X) by (subst X; lia).
  pose proof (Pos.compare_cont_antisym my mx Eq) as Hanti. cbn [CompOpp] in Hanti.
  unfold SFltb, SFcompare. rewrite (Z.compare_antisym ey ex), <- Hanti. clear Hanti.
  pose proof (Z.compare_spec Y X) as Hs. rewrite Hc in Hs. clear Hc.
  destruct sx, sy; cbn [cond_Zopp];
    destruct (ey ?= ex); cbn [CompOpp] in *;
    try destruct (Pos.compare_cont Eq my mx); cbn [CompOpp] in *;
    inversion Hs;
    first [apply Z.ltb_lt; lia | apply Z.ltb_ge; lia].
Qed.

Ltac compare_cases :=
  repeat match goal with
  | H : context [Z.compare ?a ?b] |- _ => destruct (Z.compare_spec a b)
  | |- context [Z.compare ?a ?b] => destruct (Z.compare_spec a b)
  | H : context [Pos.compare_cont Eq ?a ?b] |- _ =>
      change (Pos.compare_cont Eq a b) with (Pos.compare a b) in *;
      destruct (Pos.compare_spec a b)
  | |- context [Pos.compare_cont Eq ?a ?b] =>
      change (Pos.compare_cont Eq a b) with (Pos.compare a b) in *;
      destruct (Pos.compare_spec a b)
  end.

Ltac order64 :=
  unfold SFleb, SFltb, SFeqb, SFcompare in *;
  repeat match goal with
  | x : spec_float |- _ => destruct x as [[]|[]| |[] ? ?]
  end;
  try discriminate; try reflexivity;
  compare_cases; subst; cbn [CompOpp] in *;
  try discriminate; try reflexivity; try lia.

Lemma SFleb_trans x y z : SFleb x y = true -> SFleb y z = true -> SFleb x z = true.
Proof. intros Hxy Hyz. order64. Qed.

Lemma SFltb_leb x y : SFltb x y = true -> SFleb x y = true.
Proof. intros Hxy. order64. Qed.

Lemma SFltb_leb_trans x y z : SFltb x y = true -> SFleb y z = true -> SFltb x z = true.
Proof. intros Hxy Hyz. order64. Qed.

Lemma SFleb_total x y :
  SFeqb x x = true -> SFeqb y y = true -> SFltb x y = false -> SFleb y x = true.
Proof. intros Hx Hy Hxy. order64. Qed.

Lemma SFleb_number x y : SFleb x y = true -> SFeqb x x = true /\ SFeqb y y = true.
Proof. intros Hxy. split; order64. Qed.

Lemma SFltb_number x y : SFltb x y = true -> SFeqb x x = true /\ SFeqb y y = true.
Proof. intros Hxy. split; order64. Qed.

Lemma SFeqb_not_ltb x y s :
  SFeqb x s = true -> SFeqb y s = true -> SFltb x y = false.
Proof. intros Hx Hy. order64. Qed.

Lemma SFeqb_sym x y : SFeqb x y = true -> SFeqb y x = true.
Proof. intros Hxy. order64. Qed.

Lemma SFeqb_eqb x y s : SFeqb x y = true -> SFeqb x s = SFeqb y s.
Proof. intros Hxy. order64. Qed.

Lemma SFeqb_ltb x x' y y' :
  SFeqb x x' = true -> SFeqb y y' = true -> SFltb x y = SFltb x' y'.
Proof. intros Hx Hy. order64. Qed.

Lemma SFeqb_leb x x' y y' :
  SFeqb x x' = true -> SFeqb y y' = true -> SFleb x y = SFleb x' y'.
Proof. intros Hx Hy. order64. Qed.

Lemma SFmul_comm x y : SF64mul x y = SF64mul y x.
Proof.
  destruct x as [sx|sx| |sx mx ex], y as [sy|sy| |sy my ey]; cbn;
    rewrite ?(xorb_comm sx sy); try reflexivity.
  now rewrite (Pos.mul_comm mx my), (Z.add_comm ex ey).
Qed.

(** The square of a double, and the sum of two doubles that are not
    below 0, is not below 0. *)
Lemma SFmul_square x : SFltb (SF64mul x x) (S754_zero false) = false.
Proof.
  destruct x as [s|s| |s m e]; try reflexivity; try (destruct s; reflexivity).
  unfold SF64mul, SFmul. rewrite xorb_nilpotent.
  unfold binary_round_aux.
  destruct (shr_fexp _ _ _ _ _) as [mrs1 e1].
  destruct (shr_fexp _ _ _ _ _) as [mrs2 e2].
  destruct (shr_m mrs2); try reflexivity.
  destruct (e2 <=? emax - prec); reflexivity.
Qed.

Lemma SFadd_not_negative x y :
  SFltb x (S754_zero false) = false -> SFltb y (S754_zero false) = false ->
  SFltb (SF64add x y) (S754_zero false) = false.
Proof.
  destruct x as [[]|[]| |[] mx ex], y as [[]|[]| |[] my ey];
    try reflexivity; try discriminate; intros _ _.
  unfold SF64add, SFadd. cbn [cond_Zopp].
  set (e := Z.min ex ey).
  change (Zpos (fst (shl_align mx ex e)) + Zpos (fst (shl_align my ey e)))
    with (Zpos (fst (shl_align mx ex e) + fst (shl_align my ey e))).
  cbn [binary_normalize]. unfold binary_round.
  destruct (shl_align _ _ _) as [mz ez].
  unfold binary_round_aux.
  destruct (shr_fexp _ _ _ _ _) as [mrs1 e1].
  destruct (shr_fexp _ _ _ _ _) as [mrs2 e2].
  destruct (shr_m mrs2); try reflexivity.
  destruct (e2 <=? emax - prec); reflexivity.
Qed.

Lemma digits2_pos_unique (p : positive) (k : Z) :
  2 ^ (k - 1) <= Zpos p < 2 ^ k -> Zpos (digits2_pos p) = k.
Proof.
  intros [Hlo Hhi]. pose proof (digits2_pos_bounds p) as [Hlo' Hhi'].
  assert (Hk : 0 < k).
  { destruct (Z.ltb_spec 0 k) as [|Hle]; [assumption|]. exfalso.
    destruct (Z.eq_dec k 0) as [->|Hne]; [cbn in Hhi; lia|].
    rewrite Z.pow_neg_r in Hhi by lia. lia. }
  assert (H1 : Zpos (digits2_pos p) - 1 < k).
  { apply (Z.pow_lt_mono_r_iff 2); lia. }
  assert (H2 : k - 1 < Zpos (digits2_pos p)).
  { apply (Z.pow_lt_mono_r_iff 2); lia. }
  lia.
Qed.

(** Shifting out bits that are all 0 loses nothing. *)
Lemma shr_1_even (z : Z) :
  0 < z ->
  shr_1 {| shr_m := 2 * z; shr_r := false; shr_s := false |}
  = {| shr_m := z; shr_r := false; shr_s := false |}.
Proof. destruct z as [|p|p]; intros Hz; try lia. reflexivity. Qed.

Lemma iter_shr_1_exact (n : positive) (z : Z) :
  0 < z ->
  SpecFloat.iter_pos shr_1 n {| shr_m := z * 2 ^ Zpos n; shr_r := false; shr_s := false |}
  = {| shr_m := z; shr_r := false; shr_s := false |}.
Proof.
  revert z. induction n as [n IH|n IH|]; intros z Hz; cbn [SpecFloat.iter_pos].
  - replace (z * 2 ^ Zpos n~1) with (2 * (z * 2 ^ Zpos n * 2 ^ Zpos n)).
    + assert (Hp : 0 < 2 ^ Zpos n) by (apply Z.pow_pos_nonneg; lia).
      rewrite shr_1_even by nia. rewrite IH by nia. apply IH, Hz.
    + replace (Zpos n~1) with (1 + Zpos n + Zpos n) by lia.
      rewrite !Z.pow_add_r by lia. rewrite Z.pow_1_r. ring.
  - replace (z * 2 ^ Zpos n~0) with (z * 2 ^ Zpos n * 2 ^ Zpos n).
    + assert (Hp : 0 < 2 ^ Zpos n) by (apply Z.pow_pos_nonneg; lia).
      rewrite IH by nia. apply IH, Hz.
    + replace (Zpos n~0) with (Zpos n + Zpos n) by lia.
      rewrite !Z.pow_add_r by lia. ring.
  - rewrite Z.pow_1_r, (Z.mul_comm z 2). apply shr_1_even, Hz.
Qed.

(** A mantissa of 53 bits followed by [k] bits 0 rounds to itself. *)
Lemma binary_round_aux_exact (a : positive) (k e : Z) (S : positive) :
  Zpos (digits2_pos a) = 53 -> 0 <= k -> Zpos S = Zpos a * 2 ^ k ->
  -1074 <= e + k <= 971 ->
  binary_round_aux prec emax false (Zpos S) e loc_Exact = S754_finite false a (e + k).
Proof.
  intros Ha Hk HS He.
  pose proof (digits2_pos_bounds a) as [Hlo Hhi]. rewrite Ha in Hlo, Hhi.
  assert (Hp : 0 < 2 ^ k) by (apply Z.pow_pos_nonneg; lia).
  assert (HdS : Zpos (digits2_pos S) = 53 + k).
  { apply digits2_pos_unique. rewrite HS.
    replace (53 + k - 1) with (53 - 1 + k) by lia.
    rewrite !Z.pow_add_r by lia. nia. }
  assert (Hsecond : forall m : positive, Zpos (digits2_pos m) = 53 ->
            shr_fexp prec emax (Zpos m) (e + k) loc_Exact
            = ({| shr_m := Zpos m; shr_r := false; shr_s := false |}, e + k)).
  { intros m Hm. unfold shr_fexp. rewrite fexp64. cbn [Zdigits2 shr_record_of_loc].
    rewrite Hm. replace (Z.max (53 + (e + k) - 53) (-1074) - (e + k)) with 0 by lia.
    reflexivity. }
  unfold binary_round_aux.
  assert (Hfirst : shr_fexp prec emax (Zpos S) e loc_Exact
                   = ({| shr_m := Zpos a; shr_r := false; shr_s := false |}, e + k)).
  { destruct (Z.eq_dec k 0) as [->|Hk0].
    - assert (S = a) by (rewrite Z.mul_1_r in HS; congruence). subst S.
      rewrite Z.add_0_r in *. apply (Hsecond a Ha).
    - unfold shr_fexp. rewrite fexp64. cbn [Zdigits2 shr_record_of_loc].
      rewrite HdS. replace (Z.max (53 + k + e - 53) (-1074) - e) with k by lia.
      destruct k as [|k|k]; try lia.
      cbn [shr]. rewrite HS, iter_shr_1_exact by lia. reflexivity. }
  rewrite Hfirst. cbn [shr_m loc_of_shr_record round_nearest_even].
  rewrite (Hsecond a Ha). cbn [shr_m].
  replace (e + k <=? emax - prec) with true; [reflexivity|].
  symmetry. apply Z.leb_le. change (emax - prec) with 971. lia.
Qed.

Lemma shl_align_exponent m e e' : e' <= e -> snd (shl_align m e e') = e'.
Proof.
  intros He. unfold shl_align.
  destruct (e' - e) as [|d|d] eqn:Hd; cbn [snd]; lia.
Qed.

(** The double of a whole number from 1 to 2^53 - 1: its 53-bit mantissa
    and its exponent. *)
Lemma whole_normal (n : positive) :
  Zpos n < 2 ^ 53 ->
  exists a : positive,
    Zpos a = Zpos n * 2 ^ (53 - Zpos (digits2_pos n)) /\
    Zpos (digits2_pos a) = 53 /\
    binary_normalize prec emax (Zpos n) 0 false
    = S754_finite false a (Zpos (digits2_pos n) - 53).
Proof.
  intros Hn. pose proof (digits2_pos_bounds n) as [Hlo Hhi].
  set (d := Zpos (digits2_pos n)) in *.
  assert (Hd : 1 <= d <= 53).
  { split; [subst d; lia|].
    destruct (Z.leb_spec d 53) as [|Hgt]; [assumption|]. exfalso.
    assert (2 ^ 53 <= 2 ^ (d - 1)) by (apply Z.pow_le_mono_r; lia). lia. }
  cbn [binary_normalize]. unfold binary_round. rewrite fexp64.
  fold d. replace (Z.max (d + 0 - 53) (-1074)) with (d - 53) by lia.
  pose proof (shl_align_value n 0 (d - 53) ltac:(lia)) as Hv.
  pose proof (shl_align_exponent n 0 (d - 53) ltac:(lia)) as He.
  destruct (shl_align n 0 (d - 53)) as [a e]. cbn [fst snd] in Hv, He. subst e.
  replace (0 - (d - 53)) with (53 - d) in Hv by lia.
  assert (Ha : Zpos (digits2_pos a) = 53).
  { apply digits2_pos_unique. rewrite Hv.
    assert (Hp : 0 < 2 ^ (53 - d)) by (apply Z.pow_pos_nonneg; lia).
    split.
    - replace (53 - 1) with (d - 1 + (53 - d)) by lia.
      rewrite Z.pow_add_r by lia. nia.
    - replace 53 with (d + (53 - d)) at 2 by lia.
      rewrite Z.pow_add_r by lia. nia. }
  exists a. split; [exact Hv|]. split; [exact Ha|].
  rewrite <- (Z.add_0_r (d - 53)) at 2.
  apply binary_round_aux_exact; first [exact Ha | lia].
Qed.

(** Adding 1 to a whole number below 2^53 - 1 is exact. *)
Lemma whole_successor_spec (n : Z) :
  0 <= n -> n + 1 < 2 ^ 53 ->
  SF64add (binary_normalize prec emax n 0 false) (S754_finite false 4503599627370496 (-52))
  = binary_normalize prec emax (n + 1) 0 false.
Proof.
  intros Hn0 Hn.
  destruct n as [|n|n]; [reflexivity| |lia].
  destruct (whole_normal n ltac:(lia)) as (a & Hv & Ha & ->).
  assert (Hn1 : Zpos n + 1 = Zpos (n + 1)) by lia. rewrite Hn1.
  destruct (whole_normal (n + 1) ltac:(lia)) as (a' & Hv' & Ha' & ->).
  pose proof (digits2_pos_bounds n) as [Hlo Hhi].
  pose proof (digits2_pos_bounds (n + 1)) as [Hlo' Hhi'].
  set (d := Zpos (digits2_pos n)) in *.
  set (d' := Zpos (digits2_pos (n + 1))) in *.
  assert (Hd : 1 <= d) by (subst d; lia).
  assert (Hd' : 1 <= d' <= 53).
  { split; [subst d'; lia|].
    destruct (Z.leb_spec d' 53) as [|Hgt]; [assumption|]. exfalso.
    assert (2 ^ 53 <= 2 ^ (d' - 1)) by (apply Z.pow_le_mono_r; lia). lia. }
  assert (Hdd : d <= d').
  { assert (d - 1 < d'); [|lia]. apply (Z.pow_lt_mono_r_iff 2); lia. }
  unfold SF64add, SFadd. cbn [cond_Zopp].
  replace (Z.min (d - 53) (-52)) with (-52) by lia.
  pose proof (shl_align_value a (d - 53) (-52) ltac:(lia)) as Hx.
  pose proof (shl_align_value 4503599627370496 (-52) (-52) ltac:(lia)) as Hy.
  set (x := fst (shl_align a (d - 53) (-52))) in *.
  set (y := fst (shl_align 4503599627370496 (-52) (-52))) in *.
  change (Zpos x + Zpos y) with (Zpos (x + y)).
  cbn [binary_normalize]. unfold binary_round.
  assert (HS : Zpos (x + y) = Zpos a' * 2 ^ (d' - 1)).
  { rewrite Pos2Z.inj_add, Hx, Hy, Hv, Hv'.
    replace (d - 53 - -52) with (d - 1) by lia.
    rewrite Z.sub_diag, Z.mul_1_r, <- !Z.mul_assoc, <- !Z.pow_add_r by lia.
    replace (53 - d + (d - 1)) with 52 by lia.
    replace (53 - d' + (d' - 1)) with 52 by lia.
    change (2 ^ 52) with 4503599627370496. lia. }
  assert (HdS : Zpos (digits2_pos (x + y)) = 53 + (d' - 1)).
  { pose proof (digits2_pos_bounds a') as [Hla Hha]. rewrite Ha' in Hla, Hha.
    assert (Hp : 0 < 2 ^ (d' - 1)) by (apply Z.pow_pos_nonneg; lia).
    apply digits2_pos_unique. rewrite HS.
    replace (53 + (d' - 1) - 1) with (53 - 1 + (d' - 1)) by lia.
    rewrite !Z.pow_add_r by lia. nia. }
  rewrite HdS, fexp64.
  replace (Z.max (53 + (d' - 1) + -52 - 53) (-1074)) with (d' - 53) by lia.
  unfold shl_align.
  destruct (d' - 53 - -52) eqn:Hshift; try lia;
    (replace (d' - 53) with (-52 + (d' - 1)) by lia;
     apply binary_round_aux_exact; [exact Ha' | lia | exact HS | lia]).
Qed.

Lemma whole_increasing (n : Z) :
  0 <= n -> n + 1 < 2 ^ 53 ->
  SFltb (binary_normalize prec emax n 0 false)
        (binary_normalize prec emax (n + 1) 0 false) = true.
Proof.
  intros Hn0 Hn.
  destruct n as [|n|n]; [reflexivity| |lia].
  destruct (whole_normal n ltac:(lia)) as (a & Hv & Ha & ->).
  assert (Hn1 : Zpos n + 1 = Zpos (n + 1)) by lia. rewrite Hn1.
  destruct (whole_normal (n + 1) ltac:(lia)) as (a' & Hv' & Ha' & ->).
  pose proof (digits2_pos_bounds n) as [Hlo Hhi].
  pose proof (digits2_pos_bounds (n + 1)) as [Hlo' Hhi'].
  set (d := Zpos (digits2_pos n)) in *.
  set (d' := Zpos (digits2_pos (n + 1))) in *.
  assert (Hd : 1 <= d <= 53).
  { split; [subst d; lia|].
    destruct (Z.leb_spec d 53) as [|Hgt]; [assumption|]. exfalso.
    assert (2 ^ 53 <= 2 ^ (d - 1)) by (apply Z.pow_le_mono_r; lia). lia. }
  assert (Hd' : 1 <= d') by (subst d'; lia).
  assert (Hdd : d <= d').
  { assert (d - 1 < d'); [|lia]. apply (Z.pow_lt_mono_r_iff 2); lia. }
  unfold SFltb, SFcompare.
  destruct (Z.compare_spec (d - 53) (d' - 53)) as [Heq|Hlt|Hgt]; [|reflexivity|lia].
  assert (d = d') by lia.
  change (Pos.compare_cont Eq a a') with (Pos.compare a a').
  replace (a ?= a')%positive with Lt; [reflexivity|].
  symmetry. apply Pos.compare_lt_iff.
  assert (Hp : 0 < 2 ^ (53 - d)) by (apply Z.pow_pos_nonneg; lia).
  assert (Zpos a < Zpos a'); [|lia]. rewrite Hv, Hv'. replace d' with d by lia. nia.
Qed.

End Doubles.

Section DoubleOrder.
Local Open Scope float_scope.
Implicit Types x y z s : float.

Lemma isNaN_false x : isNaN x = false <-> (x =? x) = true.
Proof. unfold isNaN. apply negb_false_iff. Qed.

Lemma leb64_trans x y z : (x <=? y) = true -> (y <=? z) = true -> (x <=? z) = true.
Proof. rewrite !FloatAxioms.leb_spec. apply SFleb_trans. Qed.

Lemma ltb64_leb x y : (x <? y) = true -> (x <=? y) = true.
Proof. rewrite FloatAxioms.ltb_spec, FloatAxioms.leb_spec. apply SFltb_leb. Qed.

Lemma ltb64_leb_trans x y z : (x <? y) = true -> (y <=? z) = true -> (x <? z) = true.
Proof. rewrite !FloatAxioms.ltb_spec, FloatAxioms.leb_spec. apply SFltb_leb_trans. Qed.

Lemma leb64_total x y :
  isNaN x = false -> isNaN y = false -> (x <? y) = false -> (y <=? x) = true.
Proof.
  intros Hx Hy. apply isNaN_false in Hx, Hy. rewrite FloatAxioms.eqb_spec in Hx, Hy.
  rewrite FloatAxioms.ltb_spec, FloatAxioms.leb_spec. now apply SFleb_total.
Qed.

Lemma leb64_number x y : (x <=? y) = true -> isNaN x = false /\ isNaN y = false.
Proof.
  rewrite FloatAxioms.leb_spec. intros Hxy. apply SFleb_number in Hxy as [Hx Hy].
  split; apply isNaN_false; rewrite FloatAxioms.eqb_spec; assumption.
Qed.

Lemma ltb64_number x y : (x <? y) = true -> isNaN x = false /\ isNaN y = false.
Proof.
  rewrite FloatAxioms.ltb_spec. intros Hxy. apply SFltb_number in Hxy as [Hx Hy].
  split; apply isNaN_false; rewrite FloatAxioms.eqb_spec; assumption.
Qed.

Lemma eqb64_not_ltb x y s : (x =? s) = true -> (y =? s) = true -> (x <? y) = false.
Proof. rewrite !FloatAxioms.eqb_spec, FloatAxioms.ltb_spec. apply SFeqb_not_ltb. Qed.

Lemma eqb64_sym x y : (x =? y) = true -> (y =? x) = true.
Proof. rewrite !FloatAxioms.eqb_spec. apply SFeqb_sym. Qed.

Lemma eqb64_eqb x y s : (x =? y) = true -> (x =? s) = (y =? s).
Proof. rewrite !FloatAxioms.eqb_spec. apply SFeqb_eqb. Qed.

Lemma eqb64_ltb x x' y y' :
  (x =? x') = true -> (y =? y') = true -> (x <? y) = (x' <? y').
Proof. rewrite !FloatAxioms.eqb_spec, !FloatAxioms.ltb_spec. apply SFeqb_ltb. Qed.

Lemma eqb64_leb x x' y y' :
  (x =? x') = true -> (y =? y') = true -> (x <=? y) = (x' <=? y').
Proof. rewrite !FloatAxioms.eqb_spec, !FloatAxioms.leb_spec. apply SFeqb_leb. Qed.

Lemma mul64_comm x y : x * y = y * x.
Proof. apply Prim2SF_inj. rewrite !FloatAxioms.mul_spec. apply SFmul_comm. Qed.

(** [y - x] is above 0 exactly when [x < y]. *)
Lemma sub64_positive x y : (0 <? y - x) = (x <? y).
Proof.
  rewrite !FloatAxioms.ltb_spec, FloatAxioms.sub_spec.
  change (Prim2SF 0) with (S754_zero false).
  apply SFsub_positive; apply Prim2SF_valid.
Qed.

Lemma sign_sub x y : sign (y - x) = Gt <-> (x <? y) = true.
Proof.
  unfold sign. rewrite sub64_positive.
  destruct (x <? y); [tauto|].
  destruct (y - x <? 0); split; discriminate.
Qed.

Lemma number_or_eqb x : isNaN x = false -> (number_or x 0 =? x) = true.
Proof.
  intros Hx. unfold number_or. rewrite Hx, orb_false_r.
  destruct (x =? 0) eqn:H0; [apply eqb64_sym, H0 | apply isNaN_false, Hx].
Qed.

Lemma square64_not_negative x : (x * x <? 0) = false.
Proof.
  rewrite FloatAxioms.ltb_spec, FloatAxioms.mul_spec. change (Prim2SF 0) with (S754_zero false).
  apply SFmul_square.
Qed.

Lemma add64_not_negative x y :
  (x <? 0) = false -> (y <? 0) = false -> (x + y <? 0) = false.
Proof.
  rewrite !FloatAxioms.ltb_spec, FloatAxioms.add_spec. change (Prim2SF 0) with (S754_zero false).
  apply SFadd_not_negative.
Qed.

Lemma wholeNumber_spec (n : Z) :
  (0 <= n < 2 ^ 63)%Z ->
  Prim2SF (wholeNumber n) = binary_normalize prec emax n 0 false.
Proof.
  intros Hn. unfold wholeNumber. rewrite FloatAxioms.of_uint63_spec.
  f_equal. rewrite Uint63.of_Z_spec. apply Z.mod_small. exact Hn.
Qed.

Lemma whole_successor (n : Z) :
  (0 <= n)%Z -> (n + 1 < 2 ^ 53)%Z ->
  wholeNumber n + 1 = wholeNumber (n + 1) /\
  (wholeNumber n <? wholeNumber n + 1) = true.
Proof.
  intros Hn0 Hn.
  assert (H63 : (2 ^ 53 < 2 ^ 63)%Z) by reflexivity.
  assert (Hsum : wholeNumber n + 1 = wholeNumber (n + 1)).
  { apply Prim2SF_inj. rewrite FloatAxioms.add_spec, !wholeNumber_spec by lia.
    apply whole_successor_spec; assumption. }
  split; [exact Hsum|].
  rewrite Hsum, FloatAxioms.ltb_spec, !wholeNumber_spec by lia.
  apply whole_increasing; assumption.
Qed.

End DoubleOrder.

(** ** The stable sort *)

Section Sorting.
Context {A : Type}.
Implicit Types (cmp : A -> A -> comparison) (l : list A).

Lemma insert_Permutation cmp x l : Permutation (JS.insert cmp x l) (x :: l).
Proof.
  induction l as [|y l IH]; simpl; [reflexivity|].
  destruct (cmp x y); try reflexivity.
  rewrite IH. apply perm_swap.
Qed.

Lemma sort_Permutation cmp l : Permutation (JS.sort cmp l) l.
Proof.
  induction l as [|x l IH]; simpl; [reflexivity|].
  rewrite insert_Permutation. now constructor.
Qed.

Lemma sort_In cmp l x : In x (JS.sort cmp l) <-> In x l.
Proof.
  split; apply Permutation_in;
    [apply sort_Permutation | symmetry; apply sort_Permutation].
Qed.

Lemma sort_length cmp l : length (JS.sort cmp l) = length l.
Proof. apply Permutation_length, sort_Permutation. Qed.

End Sorting.

Section SortingBy.
Context {A : Type} (cmp : A -> A -> comparison) (le : A -> A -> Prop).
Hypothesis le_trans : forall x y z, le x y -> le y z -> le x z.

Lemma insert_sorted_by x l :
  (forall y, In y l -> cmp x y <> Gt -> le x y) ->
  (forall y, In y l -> cmp x y = Gt -> le y x) ->
  StronglySorted le l -> StronglySorted le (JS.insert cmp x l).
Proof.
  induction l as [|y l IH]; intros Hle Hgt Hs; cbn [JS.insert].
  - constructor; constructor.
  - inversion Hs as [|? ? Hs' Hall]; subst.
    rewrite List.Forall_forall in Hall.
    destruct (cmp x y) eqn:Hc.
    1,2: constructor; [exact Hs|];
         assert (Hxy : le x y) by (apply Hle; [now left | congruence]);
         apply List.Forall_forall; intros z [<-|Hz]; [exact Hxy|];
         eapply le_trans; [exact Hxy | apply Hall, Hz].
    constructor.
    + apply IH; [intros z Hz; apply Hle; now right
                |intros z Hz; apply Hgt; now right | exact Hs'].
    + apply List.Forall_forall. intros z Hz.
      apply (Permutation_in _ (insert_Permutation cmp x l)) in Hz.
      destruct Hz as [<-|Hz]; [apply Hgt; [now left | exact Hc] | apply Hall, Hz].
Qed.

Lemma sort_sorted_by l :
  (forall x y, In x l -> In y l -> cmp x y <> Gt -> le x y) ->
  (forall x y, In x l -> In y l -> cmp x y = Gt -> le y x) ->
  StronglySorted le (JS.sort cmp l).
Proof.
  induction l as [|x l IH]; intros Hle Hgt; cbn [JS.sort foldr].
  - constructor.
  - fold (JS.sort cmp l). apply insert_sorted_by.
    + intros y Hy. apply sort_In in Hy. apply Hle; [now left | now right].
    + intros y Hy. apply sort_In in Hy. apply Hgt; [now left | now right].
    + apply IH; intros a b Ha Hb; [apply Hle | apply Hgt]; now right.
Qed.

End SortingBy.

Lemma sort_all_equal {A} (cmp : A -> A -> comparison) (l : list A) :
  (forall x y, cmp x y <> Gt) -> JS.sort cmp l = l.
Proof.
  intros Hc. induction l as [|x l IH]; [reflexivity|].
  cbn [JS.sort foldr]. fold (JS.sort cmp l). rewrite IH.
  destruct l as [|y l]; [reflexivity|]. cbn [JS.insert].
  destruct (cmp x y) eqn:Hxy; try reflexivity. exfalso. exact (Hc x y Hxy).
Qed.

(** Comparators that move [a] behind [b] exactly when the key of [a] is
    below the key of [b], as [(a, b) => key(b) - key(a)] does. *)
Section SortingByKey.
Context {A : Type} (key : A -> float) (cmp : A -> A -> comparison).
Hypothesis cmp_Gt : forall a b, cmp a b = Gt <-> (key a <? key b)%float = true.

Lemma sort_descending l :
  (forall a, In a l -> isNaN (key a) = false) ->
  descending key (JS.sort cmp l).
Proof.
  intros Hnum. unfold descending. apply sort_sorted_by.
  - intros x y z Hxy Hyz. eapply leb64_trans; eassumption.
  - intros x y Hx Hy Hc. apply leb64_total; auto.
    destruct (key x <? key y)%float eqn:Hlt; [|reflexivity].
    exfalso. apply Hc, cmp_Gt, Hlt.
  - intros x y _ _ Hc. apply ltb64_leb, cmp_Gt, Hc.
Qed.

Lemma insert_stable s x l :
  withKey key s (JS.insert cmp x l) = withKey key s (x :: l).
Proof.
  unfold withKey.
  induction l as [|y l IH]; [reflexivity|].
  cbn [JS.insert]. destruct (cmp x y) eqn:Hc; try reflexivity.
  cbn [List.filter] in *. rewrite IH.
  destruct (key y =? s)%float eqn:Hy, (key x =? s)%float eqn:Hx; try reflexivity.
  exfalso. apply cmp_Gt in Hc.
  rewrite (eqb64_not_ltb _ _ _ Hx Hy) in Hc. discriminate.
Qed.

Lemma sort_stable s l : withKey key s (JS.sort cmp l) = withKey key s l.
Proof.
  induction l as [|x l IH]; [reflexivity|].
  cbn [JS.sort foldr]. fold (JS.sort cmp l).
  rewrite insert_stable. unfold withKey in *. cbn [List.filter].
  now rewrite IH.
Qed.

End SortingByKey.

(** ** The similarity function *)

Section Similarity.
Import SemanticSearch.
Local Open Scope float_scope.

Lemma dot_loop_shift x a y b n k acc :
  fold_left (fun acc i => acc + nth i (x :: a) 0 * nth i (y :: b) 0)
            (seq (S k) n) acc
  = fold_left (fun acc i => acc + nth i a 0 * nth i b 0) (seq k n) acc.
Proof.
  revert k acc. induction n as [|n IH]; intros k acc; [reflexivity|].
  cbn [seq fold_left]. rewrite IH. reflexivity.
Qed.

(** The loop over the indices is the sum of the products pair by pair. *)
Lemma dot_loop_pairs a b acc :
  length a = length b ->
  fold_left (fun acc i => acc + nth i a 0 * nth i b 0) (seq 0 (length a)) acc
  = fold_left (fun acc xy => acc + fst xy * snd xy) (combine a b) acc.
Proof.
  revert b acc. induction a as [|x a IH]; intros [|y b] acc Hlen;
    try discriminate; [reflexivity|].
  cbn [length seq fold_left combine fst snd].
  rewrite dot_loop_shift. cbn [nth]. apply IH. now injection Hlen.
Qed.

Lemma dot_pairs a b : length a = length b -> dot a b = sumOfProducts a b.
Proof. apply dot_loop_pairs. Qed.

Lemma cosineSimilarity_same_length a b :
  length a = length b -> cosineSimilarity (Some a) (Some b) = dot a b.
Proof.
  intros Hlen. unfold cosineSimilarity.
  rewrite Hlen, Nat.eqb_refl. reflexivity.
Qed.

Lemma squares_not_negative v acc :
  (acc <? 0) = false ->
  (fold_left (fun acc xy => acc + fst xy * snd xy) (combine v v) acc <? 0) = false.
Proof.
  revert acc. induction v as [|x v IH]; intros acc Hacc; [exact Hacc|].
  cbn [combine fold_left fst snd]. apply IH.
  apply add64_not_negative; [exact Hacc | apply square64_not_negative].
Qed.

Lemma pairs_app (a b : list float) acc :
  fold_left (fun acc xy => acc + fst xy * snd xy) (combine (a ++ b) (a ++ b)) acc
  = fold_left (fun acc xy => acc + fst xy * snd xy) (combine b b)
      (fold_left (fun acc xy => acc + fst xy * snd xy) (combine a a) acc).
Proof.
  revert acc. induction a as [|x a IH]; intros acc; [reflexivity|].
  cbn [app combine fold_left]. apply IH.
Qed.

Lemma pairs_zeros n acc :
  acc + 0 * 0 = acc ->
  fold_left (fun acc xy => acc + fst xy * snd xy)
    (combine (repeat 0 n) (repeat 0 n)) acc = acc.
Proof.
  intros Hacc. induction n as [|n IH]; [reflexivity|].
  cbn [repeat combine fold_left fst snd]. rewrite Hacc. exact IH.
Qed.

Lemma axisVector_length n i x : (i < n)%nat -> length (axisVector n i x) = n.
Proof.
  intros Hi. unfold axisVector.
  rewrite length_app, repeat_length. cbn [length]. rewrite repeat_length. lia.
Qed.

Lemma axisVector_similarity n i x :
  (i < n)%nat -> 0 + x * x = 1 ->
  cosineSimilarity (Some (axisVector n i x)) (Some (axisVector n i x)) = 1.
Proof.
  intros Hi Hx.
  rewrite cosineSimilarity_same_length, dot_pairs by reflexivity.
  unfold sumOfProducts, axisVector.
  rewrite pairs_app, pairs_zeros by reflexivity.
  cbn [combine fold_left fst snd]. rewrite Hx.
  apply pairs_zeros. reflexivity.
Qed.

End Similarity.

(** C7, as stated, fails: the sum is taken in doubles.  The five
    components below are doubles whose squares add up to exactly 1; the
    loop of [cosineSimilarity] returns the next double above 1,
    1.0000000000000002. *)
Lemma similarity_rounding_counterexample :
  (sumSquares (List.map exactValue Examples.unitVector) == 1)%Q /\
  SemanticSearch.cosineSimilarity (Some Examples.unitVector) (Some Examples.unitVector)
  = 0x1.0000000000001p0%float /\
  (SemanticSearch.cosineSimilarity (Some Examples.unitVector) (Some Examples.unitVector)
   =? 1)%float = false.
Proof.
  split; [vm_compute; reflexivity|]. split; vm_compute; reflexivity.
Qed.

(** C7, amended.  Vectors of different lengths have similarity 0, and
    when either argument is absent the function returns 0 (it is total:
    no path throws).  For vectors of the same length the similarity is
    the sum of the products of their components, taken pair by pair from
    the first in double arithmetic.  The similarity of a vector with
    itself is never below 0, and it is exactly 1 for a vector with one
    component 1 or -1 and the others 0. *)
Theorem similarity_contract :
  (forall v w : list float,
     length v <> length w ->
     SemanticSearch.cosineSimilarity (Some v) (Some w) = 0%float) /\
  (forall w : option (list float),
     SemanticSearch.cosineSimilarity None w = 0%float /\
     SemanticSearch.cosineSimilarity w None = 0%float) /\
  (forall v w : list float,
     length v = length w ->
     SemanticSearch.cosineSimilarity (Some v) (Some w) = sumOfProducts v w) /\
  (forall v : list float,
     (SemanticSearch.cosineSimilarity (Some v) (Some v) <? 0)%float = false) /\
  (forall n i : nat,
     i < n ->
     SemanticSearch.cosineSimilarity (Some (axisVector n i 1)) (Some (axisVector n i 1))
     = 1%float /\
     SemanticSearch.cosineSimilarity (Some (axisVector n i (-1)))
                                     (Some (axisVector n i (-1)))
     = 1%float).
Proof.
  split; [|split; [|split; [|split]]].
  - intros v w Hlen. unfold SemanticSearch.cosineSimilarity.
    destruct (Nat.eqb_spec (length v) (length w)); [contradiction|reflexivity].
  - intros w. split; [reflexivity|]. destruct w; reflexivity.
  - intros v w Hlen. rewrite cosineSimilarity_same_length by exact Hlen.
    apply dot_pairs, Hlen.
  - intros v. rewrite cosineSimilarity_same_length, dot_pairs by reflexivity.
    apply squares_not_negative. reflexivity.
  - intros n i Hi. split; apply axisVector_similarity; try exact Hi; reflexivity.
Qed.

Lemma similarity_contract_witness :
  SemanticSearch.cosineSimilarity (Some [1%float]) (Some [1%float; 2%float]) = 0%float /\
  SemanticSearch.cosineSimilarity (Some Examples.unitVector) (Some Examples.unitVector)
  = sumOfProducts Examples.unitVector Examples.unitVector /\
  SemanticSearch.cosineSimilarity (Some (axisVector 3 1 1)) (Some (axisVector 3 1 1))
  = 1%float.
Proof.
  split; [|split].
  - apply (proj1 similarity_contract [1%float] [1%float; 2%float]). simpl. lia.
  - apply (proj1 (proj2 (proj2 similarity_contract))
             Examples.unitVector Examples.unitVector). reflexivity.
  - apply (proj2 (proj2 (proj2 (proj2 similarity_contract))) 3 1). lia.
Defined.

(** ** The threshold *)

Lemma filter_length_mono {A} (f g : A -> bool) (l : list A) :
  (forall x, f x = true -> g x = true) ->
  length (List.filter f l) <= length (List.filter g l).
Proof.
  intros Hfg. induction l as [|x l IH]; [reflexivity|].
  cbn [List.filter]. destruct (f x) eqn:Hf.
  - rewrite (Hfg x Hf). simpl. lia.
  - destruct (g x); simpl; lia.
Qed.

Lemma embed_setThreshold this t text :
  SemanticSearch.embed (SemanticSearch.setThreshold this t) text
  = SemanticSearch.embed this text.
Proof. reflexivity. Qed.

(** C8.  For a fixed query and document set, raising the threshold from
    [t1] to [t2 > t1] never increases the number of results of the
    semantic search. *)
Theorem threshold_monotone (this : SemanticSearch.t) (query : string)
    (prompts : list Prompt.t) (topK : nat) (t1 t2 : float) :
  (t1 <? t2)%float = true ->
  length (SemanticSearch.search (SemanticSearch.setThreshold this t2) query prompts topK)
  <= length (SemanticSearch.search (SemanticSearch.setThreshold this t1) query prompts topK).
Proof.
  intros Hlt. unfold SemanticSearch.search.
  rewrite !embed_setThreshold. cbn [SemanticSearch.setThreshold SemanticSearch.isLoaded
                                   SemanticSearch.minScore].
  destruct (negb (SemanticSearch.isLoaded this)); [reflexivity|].
  destruct (SemanticSearch.embed this query) as [queryVec|]; [|reflexivity].
  unfold slice0. rewrite !length_take, !sort_length.
  apply Nat.min_le_compat_l, filter_length_mono.
  intros r Hr. eapply leb64_trans; [apply ltb64_leb, Hlt | exact Hr].
Qed.

Lemma threshold_monotone_witness :
  length (SemanticSearch.search (SemanticSearch.setThreshold Examples.ready 0.9375%float)
            "query" [Examples.doc1; Examples.doc2; Examples.doc3] 50)
  <= length (SemanticSearch.search (SemanticSearch.setThreshold Examples.ready 0.25%float)
               "query" [Examples.doc1; Examples.doc2; Examples.doc3] 50).
Proof.
  apply threshold_monotone. reflexivity.
Defined.

(** ** Semantic ranking *)

Lemma In_take {A} (k : nat) (l : list A) (x : A) : In x (take k l) -> In x l.
Proof.
  revert k. induction l as [|y l IH]; intros [|k]; cbn [take]; try contradiction.
  intros [->|Hx]; [now left | right; eauto].
Qed.

Lemma descending_take {A} (key : A -> float) (k : nat) (l : list A) :
  descending key l -> descending key (take k l).
Proof.
  unfold descending. intros Hs. revert k.
  induction Hs as [|x l Hs IH Hall]; intros [|k]; cbn [take]; try constructor.
  - apply IH.
  - rewrite List.Forall_forall in *. intros y Hy.
    apply Hall. eapply In_take, Hy.
Qed.

Lemma truthy_false s : truthy s = false <-> s = "".
Proof. destruct s; simpl; split; congruence. Qed.

Lemma filter_clause (c x : string) :
  (if truthy c then String.eqb x c else true) = true <-> (c = "" \/ x = c).
Proof.
  destruct (truthy c) eqn:Hc.
  - rewrite String.eqb_eq. split; [now right|].
    intros [->|Hx]; [discriminate Hc | exact Hx].
  - apply truthy_false in Hc. split; [now left | reflexivity].
Qed.

Lemma matchesFilters_spec f p :
  App.matchesFilters f p = true <-> satisfiesFilters f p.
Proof.
  unfold App.matchesFilters, satisfiesFilters.
  rewrite !andb_true_iff, !filter_clause. tauto.
Qed.

Lemma embed_Some_truthy this text v :
  SemanticSearch.embed this text = Some v -> truthy text = true.
Proof.
  unfold SemanticSearch.embed. destruct (SemanticSearch.pipe this); [|discriminate].
  destruct (truthy text); [reflexivity | discriminate].
Qed.

(** The array [scored] holds the entries of the eligible prompts, in the
    order of the input. *)
Lemma scored_eligible this qv prompts :
  SemanticSearch.scored this qv prompts = List.map (resultOf qv) (eligible this qv prompts).
Proof.
  unfold SemanticSearch.scored, eligible.
  induction prompts as [|p prompts IH]; [reflexivity|].
  cbn [List.filter].
  destruct (bool_decide (is_Some (Prompt.embedding p))); cbn [andb List.map List.filter].
  - cbn [SemanticSearch.score]. fold (similarityTo qv p).
    destruct (SemanticSearch.minScore this <=? similarityTo qv p)%float;
      cbn [List.map]; rewrite IH; reflexivity.
  - exact IH.
Qed.

Lemma scored_In this qv prompts r :
  In r (SemanticSearch.scored this qv prompts) <->
  (exists p, In p prompts /\ is_Some (Prompt.embedding p) /\ r = resultOf qv p) /\
  (SemanticSearch.minScore this <=? SemanticSearch.score r)%float = true.
Proof.
  unfold SemanticSearch.scored.
  rewrite filter_In, in_map_iff.
  split; intros [(p & Hp1 & Hp2) Hle]; (split; [|exact Hle]); exists p.
  - apply filter_In in Hp2 as [Hin He]. apply bool_decide_eq_true in He. auto.
  - destruct Hp2 as [He ->]. split; [reflexivity|].
    apply filter_In. split; [assumption|]. apply bool_decide_eq_true. assumption.
Qed.

Lemma search_ready this query prompts topK qv :
  SemanticSearch.isLoaded this = true ->
  SemanticSearch.embed this query = Some qv ->
  SemanticSearch.search this query prompts topK
  = take topK (JS.sort SemanticSearch.byScoreDesc (SemanticSearch.scored this qv prompts)).
Proof.
  intros Hl He. unfold SemanticSearch.search. rewrite Hl, He. reflexivity.
Qed.

Lemma byScoreDesc_Gt (a b : SemanticSearch.result) :
  SemanticSearch.byScoreDesc a b = Gt
  <-> (SemanticSearch.score a <? SemanticSearch.score b)%float = true.
Proof. apply sign_sub. Qed.

(** What the search returns, when it gets as far as scoring. *)
Lemma search_In this query prompts topK qv r :
  SemanticSearch.isLoaded this = true ->
  SemanticSearch.embed this query = Some qv ->
  In r (SemanticSearch.search this query prompts topK) ->
  (exists p, In p prompts /\ is_Some (Prompt.embedding p) /\ r = resultOf qv p) /\
  (SemanticSearch.minScore this <=? SemanticSearch.score r)%float = true.
Proof.
  intros Hl He Hr. rewrite (search_ready _ _ _ _ _ Hl He) in Hr.
  apply In_take, sort_In, scored_In in Hr. exact Hr.
Qed.

(** The score map holds, for an id, the score of the last entry with
    that id. *)
Lemma scoreMapOf_lookup (rs : list SemanticSearch.result) (i : string) :
  App.scoreMapOf rs !! i
  = SemanticSearch.score
      <$> List.find (fun r => String.eqb (SemanticSearch.id r) i) (rev rs).
Proof.
  unfold App.scoreMapOf.
  induction rs as [|r rs IH] using rev_ind; [reflexivity|].
  rewrite fold_left_app, rev_unit. cbn [fold_left List.find].
  destruct (String.eqb_spec (SemanticSearch.id r) i) as [<-|Hne].
  - apply lookup_insert_eq.
  - rewrite lookup_insert_ne by exact Hne. exact IH.
Qed.

Lemma searchScore_number (rs : list SemanticSearch.result) (p : Prompt.t) :
  (forall r, In r rs -> isNaN (SemanticSearch.score r) = false) ->
  isNaN (searchScore rs p) = false.
Proof.
  intros Hnum. unfold searchScore.
  destruct (List.find _ (rev rs)) as [r|] eqn:Hfind; [|reflexivity].
  apply find_some in Hfind as [Hr _]. apply Hnum, in_rev, Hr.
Qed.

(** The key of the re-ranking is the score the search gave. *)
Lemma scoreOf_searchScore (rs : list SemanticSearch.result) (p : Prompt.t) :
  (forall r, In r rs -> isNaN (SemanticSearch.score r) = false) ->
  (App.scoreOf (App.scoreMapOf rs) (Prompt.id p) =? searchScore rs p)%float = true.
Proof.
  intros Hnum. unfold App.scoreOf, searchScore. rewrite scoreMapOf_lookup.
  destruct (List.find _ (rev rs)) as [r|] eqn:Hfind; cbn [fmap option_fmap option_map].
  - apply number_or_eqb. apply find_some in Hfind as [Hr _]. apply Hnum, in_rev, Hr.
  - reflexivity.
Qed.

Lemma byMapScoreDesc_Gt (rs : list SemanticSearch.result) (a b : Prompt.t) :
  (forall r, In r rs -> isNaN (SemanticSearch.score r) = false) ->
  App.byMapScoreDesc (App.scoreMapOf rs) a b = Gt
  <-> (searchScore rs a <? searchScore rs b)%float = true.
Proof.
  intros Hnum. unfold App.byMapScoreDesc. rewrite sign_sub.
  rewrite (eqb64_ltb _ _ _ _ (scoreOf_searchScore rs a Hnum) (scoreOf_searchScore rs b Hnum)).
  reflexivity.
Qed.

Lemma NoDup_map_eq {A B} (f : A -> B) (l : list A) (x y : A) :
  List.NoDup (List.map f l) -> In x l -> In y l -> f x = f y -> x = y.
Proof.
  induction l as [|a l IH]; intros Hnd Hx Hy Hf; [contradiction|].
  cbn [List.map] in Hnd. apply List.NoDup_cons_iff in Hnd as [Hna Hnd].
  destruct Hx as [->|Hx], Hy as [->|Hy]; auto.
  - exfalso. apply Hna. rewrite Hf. apply in_map, Hy.
  - exfalso. apply Hna. rewrite <- Hf. apply in_map, Hx.
Qed.

(** With distinct ids, the score of a prompt is that of its own entry,
    and 0 when it has none. *)
Lemma searchScore_distinct (rs : list SemanticSearch.result) (qv : list float)
    (prompts : list Prompt.t) (p : Prompt.t) :
  List.NoDup (List.map Prompt.id prompts) ->
  (forall r, In r rs -> exists q, In q prompts /\ r = resultOf qv q) ->
  In p prompts ->
  (In (resultOf qv p) rs -> searchScore rs p = similarityTo qv p) /\
  (~ In (resultOf qv p) rs -> searchScore rs p = 0%float).
Proof.
  intros Hnd Hrs Hp.
  assert (Hown : forall r, In r rs -> SemanticSearch.id r = Prompt.id p ->
                           r = resultOf qv p).
  { intros r Hr Hid. destruct (Hrs r Hr) as (q & Hq & ->).
    f_equal. apply (NoDup_map_eq Prompt.id prompts q p Hnd Hq Hp Hid). }
  unfold searchScore. split; intros Hin.
  - destruct (List.find _ (rev rs)) as [r|] eqn:Hfind.
    + apply find_some in Hfind as [Hr Hid]. apply String.eqb_eq in Hid.
      rewrite (Hown r (proj2 (in_rev rs r) Hr) Hid). reflexivity.
    + exfalso. apply in_rev in Hin.
      pose proof (find_none _ _ Hfind _ Hin) as Hno.
      cbn [resultOf SemanticSearch.id] in Hno. rewrite String.eqb_refl in Hno.
      discriminate.
  - destruct (List.find _ (rev rs)) as [r|] eqn:Hfind; [|reflexivity].
    exfalso. apply find_some in Hfind as [Hr Hid]. apply String.eqb_eq in Hid.
    apply in_rev in Hr. apply Hin. rewrite <- (Hown r Hr Hid). exact Hr.
Qed.

(** C1, as stated, fails for the list the application shows.  With the
    threshold 0.25, the query vector [1, 0] and the three documents of
    the scenario, doc2 scores 0, which is below the threshold, and is
    still returned, in the last place. *)
Lemma semantic_exclusion_counterexample :
  (similarityTo [1%float; 0%float] Examples.doc2
   <? SemanticSearch.minScore (App.semantic Examples.semanticApp))%float = true /\
  @App.filterAndSortPrompts Examples.host Examples.semanticApp
  = Returned [Examples.doc1; Examples.doc3; Examples.doc2] /\
  @App.filterAndSortPrompts Examples.host Examples.semanticApp
  <> Returned [Examples.doc1; Examples.doc3].
Proof.
  split; [reflexivity|]. split; [vm_compute; reflexivity|].
  vm_compute. intros Heq. discriminate Heq.
Qed.

(** C1, amended.  When the model is loaded and the query has the vector
    [qv]:
    - the search returns the first [topK] entries of a list [full] that
      holds the entries of the eligible documents (those with an
      embedding whose similarity to [qv] is at or above the threshold),
      in descending order of score, entries of equal score in the order
      of the input; so every entry returned belongs to a document with an
      embedding and has a score at or above the threshold;
    - the list of the application, in semantic mode, holds exactly the
      documents that satisfy the exact filters, whatever their score, in
      descending order of the score the search result gives them (that
      of the last entry with the id of the document, 0 without one),
      documents of equal score in the order of the input;
    - when the ids of the documents are distinct, that score is the
      similarity of the document to [qv] if its entry is among the first
      50 of the search, and 0 otherwise. *)
Theorem semantic_ranking (H : Host) (sem : SemanticSearch.t)
    (prompts : list Prompt.t) (f : App.Filter) (qv : list float) (topK : nat) :
  SemanticSearch.isLoaded sem = true ->
  SemanticSearch.embed sem (App.search f) = Some qv ->
  ((exists full,
      SemanticSearch.search sem (App.search f) prompts topK = take topK full /\
      Permutation full (List.map (resultOf qv) (eligible sem qv prompts)) /\
      descending SemanticSearch.score full /\
      forall s, withKey SemanticSearch.score s full
                = withKey SemanticSearch.score s
                    (List.map (resultOf qv) (eligible sem qv prompts))) /\
   descending SemanticSearch.score (SemanticSearch.search sem (App.search f) prompts topK) /\
   (forall r,
      In r (SemanticSearch.search sem (App.search f) prompts topK) ->
      (exists p, In p prompts /\ is_Some (Prompt.embedding p) /\ r = resultOf qv p) /\
      (SemanticSearch.minScore sem <=? SemanticSearch.score r)%float = true)) /\
  (exists l,
     App.filterAndSortPrompts
       {| App.semantic := sem;
          App.state := {| App.prompts := prompts; App.filter := f;
                          App.semanticMode := true |} |} = Returned l /\
     (forall p, In p l <-> In p prompts /\ satisfiesFilters f p) /\
     Permutation l (List.filter (App.matchesFilters f) prompts) /\
     descending
       (searchScore (SemanticSearch.search sem (App.search f) prompts
                                           SemanticSearch.defaultTopK)) l /\
     (forall s,
        withKey
          (searchScore (SemanticSearch.search sem (App.search f) prompts
                                              SemanticSearch.defaultTopK)) s l
        = withKey
            (searchScore (SemanticSearch.search sem (App.search f) prompts
                                                SemanticSearch.defaultTopK)) s
            (List.filter (App.matchesFilters f) prompts)) /\
     (List.NoDup (List.map Prompt.id prompts) ->
      forall p,
        In p prompts ->
        (In (resultOf qv p)
            (SemanticSearch.search sem (App.search f) prompts SemanticSearch.defaultTopK) ->
         searchScore (SemanticSearch.search sem (App.search f) prompts
                                            SemanticSearch.defaultTopK) p
         = similarityTo qv p) /\
        (~ In (resultOf qv p)
              (SemanticSearch.search sem (App.search f) prompts SemanticSearch.defaultTopK) ->
         searchScore (SemanticSearch.search sem (App.search f) prompts
                                            SemanticSearch.defaultTopK) p
         = 0%float))).
Proof.
  intros Hloaded Hembed.
  assert (Hscored : forall r, In r (SemanticSearch.scored sem qv prompts) ->
                              isNaN (SemanticSearch.score r) = false).
  { intros r Hr. apply scored_In in Hr as [_ Hle].
    apply (leb64_number _ _ Hle). }
  split.
  - rewrite !(search_ready sem (App.search f) prompts topK qv Hloaded Hembed).
    split; [|split].
    + eexists. split; [reflexivity|].
      rewrite <- scored_eligible.
      split; [apply sort_Permutation|].
      split; [apply (sort_descending _ _ byScoreDesc_Gt), Hscored|].
      intros s. apply (sort_stable _ _ byScoreDesc_Gt).
    + apply descending_take, (sort_descending _ _ byScoreDesc_Gt), Hscored.
    + intros r Hr. apply In_take, sort_In, scored_In in Hr. exact Hr.
  - unfold App.filterAndSortPrompts. cbn [App.state App.semantic App.prompts
                                          App.filter App.semanticMode].
    rewrite (embed_Some_truthy _ _ _ Hembed), Hloaded. cbn [andb].
    eexists. split; [reflexivity|].
    set (rs := SemanticSearch.search sem (App.search f) prompts
                                     SemanticSearch.defaultTopK).
    assert (Hrs : forall r, In r rs ->
                    (exists p, In p prompts /\ is_Some (Prompt.embedding p)
                               /\ r = resultOf qv p) /\
                    (SemanticSearch.minScore sem <=? SemanticSearch.score r)%float = true).
    { intros r Hr. apply (search_In sem (App.search f) prompts _ qv r Hloaded Hembed Hr). }
    assert (Hnum : forall r, In r rs -> isNaN (SemanticSearch.score r) = false).
    { intros r Hr. apply (leb64_number _ _ (proj2 (Hrs r Hr))). }
    split; [|split; [|split; [|split]]].
    + intros p. rewrite sort_In, filter_In, matchesFilters_spec. reflexivity.
    + apply sort_Permutation.
    + apply (sort_descending (searchScore rs) _ (fun a b => byMapScoreDesc_Gt rs a b Hnum)).
      intros p _. apply searchScore_number, Hnum.
    + intros s.
      apply (sort_stable (searchScore rs) _ (fun a b => byMapScoreDesc_Gt rs a b Hnum)).
    + intros Hnd p Hp. apply (searchScore_distinct rs qv prompts p Hnd); [|exact Hp].
      intros r Hr. destruct (Hrs r Hr) as [(q & Hq & _ & ->) _]. eauto.
Qed.

Lemma semantic_ranking_witness :
  SemanticSearch.isLoaded Examples.ready = true /\
  SemanticSearch.embed Examples.ready "query" = Some [1%float; 0%float] /\
  descending SemanticSearch.score
    (SemanticSearch.search Examples.ready "query"
       [Examples.doc1; Examples.doc2; Examples.doc3] 50) /\
  exists l,
    @App.filterAndSortPrompts Examples.host Examples.semanticApp = Returned l /\
    descending
      (searchScore
         (SemanticSearch.search Examples.ready "query"
            [Examples.doc1; Examples.doc2; Examples.doc3] SemanticSearch.defaultTopK))
      l.
Proof.
  split; [reflexivity|]. split; [reflexivity|].
  destruct (semantic_ranking Examples.host Examples.ready
              [Examples.doc1; Examples.doc2; Examples.doc3]
              (Examples.noFilter "query") [1%float; 0%float] 50 eq_refl eq_refl)
    as [(_ & Hsearch & _) (l & Hl & _ & _ & Hdesc & _)].
  split; [exact Hsearch|].
  exists l. split; [exact Hl | exact Hdesc].
Defined.

(** The scenario of the threshold: the search itself returns doc1 then
    doc3. *)
Example search_scenario :
  List.map SemanticSearch.id
    (SemanticSearch.search Examples.ready "query"
       [Examples.doc1; Examples.doc2; Examples.doc3] SemanticSearch.defaultTopK)
  = ["doc1"; "doc3"].
Proof. vm_compute. reflexivity. Qed.

(** ** Exact filters and the keyword path *)

Lemma includes_empty s : includes s "" = true.
Proof. destruct s; reflexivity. Qed.

Lemma toLowerCase_empty (H : Host) : toLowerCase "" = "".
Proof. apply (toLowerCase_ascii ""). reflexivity. Qed.

Lemma matchesSearch_empty (H : Host) f p :
  App.search f = "" -> App.matchesSearch f p = true.
Proof.
  intros Hs. unfold App.matchesSearch. rewrite Hs, toLowerCase_empty.
  apply includes_empty.
Qed.

Lemma or_else_empty s : or_else s "" = s.
Proof. destruct s; reflexivity. Qed.

(** The test of the keyword branch: the query occurs, case ignored, in
    the searched text. *)
Lemma matchesSearch_spec (H : Host) f p :
  App.matchesSearch f p = true <-> containsIgnoringCase (searchedText p) (App.search f).
Proof.
  unfold App.matchesSearch, containsIgnoringCase, searchedText.
  rewrite or_else_empty. reflexivity.
Qed.

Lemma keyword_branch (H : Host) (this : App.t) :
  truthy (App.search (App.filter (App.state this)))
  && SemanticSearch.isLoaded (App.semantic this)
  && App.semanticMode (App.state this) = false ->
  App.filterAndSortPrompts this
  = Returned
      (JS.sort (App.bySortMode (or_else (App.sort (App.filter (App.state this))) "date-desc"))
         (List.filter
            (fun prompt => App.matchesSearch (App.filter (App.state this)) prompt
                           && App.matchesFilters (App.filter (App.state this)) prompt)
            (App.prompts (App.state this)))).
Proof.
  intros Hc. unfold App.filterAndSortPrompts. rewrite Hc. reflexivity.
Qed.

Lemma returned_satisfy_filters (H : Host) (this : App.t) :
  exists l,
    App.filterAndSortPrompts this = Returned l /\
    forall p, In p l ->
              In p (App.prompts (App.state this)) /\
              satisfiesFilters (App.filter (App.state this)) p.
Proof.
  unfold App.filterAndSortPrompts.
  destruct (_ && _ && _); eexists; (split; [reflexivity|]); intros p Hp;
    apply sort_In, filter_In in Hp as [Hin Hm]; (split; [exact Hin|]).
  - apply matchesFilters_spec, Hm.
  - apply andb_true_iff in Hm as [_ Hm]. apply matchesFilters_spec, Hm.
Qed.

(** C2.  In both ranking modes every returned document satisfies all the
    active exact-match filters (a document that fails one is excluded);
    and with an empty query the returned documents are exactly the
    documents that satisfy the filters, whatever the ranking mode, the
    state of the model and the sort key. *)
Theorem exact_filters_hold (H : Host) (this : App.t) :
  exists l,
    App.filterAndSortPrompts this = Returned l /\
    (forall p, In p l ->
               In p (App.prompts (App.state this)) /\
               satisfiesFilters (App.filter (App.state this)) p) /\
    (App.search (App.filter (App.state this)) = "" ->
     (forall p, In p l <->
                In p (App.prompts (App.state this)) /\
                satisfiesFilters (App.filter (App.state this)) p) /\
     Permutation l
       (List.filter (App.matchesFilters (App.filter (App.state this)))
                    (App.prompts (App.state this)))).
Proof.
  destruct (returned_satisfy_filters H this) as (l & Hl & Hsat).
  exists l. split; [exact Hl|]. split; [exact Hsat|].
  intros Hempty.
  rewrite keyword_branch in Hl by (rewrite Hempty; reflexivity).
  injection Hl as <-.
  assert (Hf : List.filter
                 (fun prompt => App.matchesSearch (App.filter (App.state this)) prompt
                                && App.matchesFilters (App.filter (App.state this)) prompt)
                 (App.prompts (App.state this))
               = List.filter (App.matchesFilters (App.filter (App.state this)))
                             (App.prompts (App.state this))).
  { apply filter_ext. intros p. now rewrite matchesSearch_empty. }
  rewrite Hf. split; [|apply sort_Permutation].
  intros p. rewrite sort_In, filter_In, matchesFilters_spec. reflexivity.
Qed.

Lemma exact_filters_hold_witness :
  App.search (Examples.categoryX "") = "" /\
  exists l,
    @App.filterAndSortPrompts Examples.host
      {| App.semantic := Examples.ready;
         App.state := {| App.prompts := [Examples.a; Examples.b; Examples.c];
                         App.filter := Examples.categoryX "";
                         App.semanticMode := true |} |} = Returned l /\
    Permutation l [Examples.a; Examples.c].
Proof.
  split; [reflexivity|].
  destruct (exact_filters_hold Examples.host
              {| App.semantic := Examples.ready;
                 App.state := {| App.prompts := [Examples.a; Examples.b; Examples.c];
                                 App.filter := Examples.categoryX "";
                                 App.semanticMode := true |} |})
    as (l & Hl & _ & Hempty).
  exists l. split; [exact Hl|].
  exact (proj2 (Hempty eq_refl)).
Defined.

(** The scenario of the filters, in both modes, with a query present. *)
Example filter_scenario_both_modes :
  (exists l, @App.filterAndSortPrompts Examples.host
               {| App.semantic := Examples.ready;
                  App.state := {| App.prompts := [Examples.a; Examples.b; Examples.c];
                                  App.filter := Examples.categoryX "a";
                                  App.semanticMode := true |} |} = Returned l /\
             Permutation l [Examples.a; Examples.c]) /\
  @App.filterAndSortPrompts Examples.host
    {| App.semantic := Examples.ready;
       App.state := {| App.prompts := [Examples.a; Examples.b; Examples.c];
                       App.filter := Examples.categoryX "";
                       App.semanticMode := false |} |}
  = Returned [Examples.a; Examples.c].
Proof.
  split; [|vm_compute; reflexivity].
  eexists. split; [vm_compute; reflexivity|]. reflexivity.
Qed.

(** *** The order by date *)

Lemma notLater_trans (H : Host) a b c :
  notLater H a b -> notLater H b c -> notLater H a c.
Proof.
  intros (ta & tb & Ha & Hb & Hab) (tb' & tc & Hb' & Hc & Hbc).
  exists ta, tc. split; [exact Ha|]. split; [exact Hc|].
  rewrite Hb in Hb'. injection Hb' as <-. lia.
Qed.

Lemma dateDiff_not_Gt (H : Host) (a b : Prompt.t) :
  is_Some (timeOf H a) -> is_Some (timeOf H b) ->
  App.dateDiff (Prompt.date_created a) (Prompt.date_created b) <> Gt ->
  notLater H a b.
Proof.
  unfold timeOf, App.dateDiff. intros [ta Ha] [tb Hb]. rewrite Ha, Hb. intros Hc.
  exists ta, tb. split; [exact Ha|]. split; [exact Hb|]. now apply Z.compare_le_iff.
Qed.

Lemma dateDiff_Gt (H : Host) (a b : Prompt.t) :
  is_Some (timeOf H a) -> is_Some (timeOf H b) ->
  App.dateDiff (Prompt.date_created a) (Prompt.date_created b) = Gt ->
  notLater H b a.
Proof.
  unfold timeOf, App.dateDiff. intros [ta Ha] [tb Hb]. rewrite Ha, Hb. intros Hc.
  exists tb, ta. split; [exact Hb|]. split; [exact Ha|].
  apply Z.compare_gt_iff in Hc. lia.
Qed.

Lemma sort_newest_first (H : Host) (l : list Prompt.t) :
  (forall p, In p l -> is_Some (timeOf H p)) ->
  StronglySorted (fun a b => notLater H b a) (JS.sort (App.bySortMode "date-desc") l).
Proof.
  intros Hvalid. apply sort_sorted_by.
  - intros x y z Hxy Hyz. eapply notLater_trans; eassumption.
  - intros x y Hx Hy Hc. apply (dateDiff_not_Gt H y x); auto.
  - intros x y Hx Hy Hc. apply (dateDiff_Gt H y x); auto.
Qed.

Lemma sort_oldest_first (H : Host) (l : list Prompt.t) :
  (forall p, In p l -> is_Some (timeOf H p)) ->
  StronglySorted (notLater H) (JS.sort (App.bySortMode "date-asc") l).
Proof.
  intros Hvalid. apply sort_sorted_by.
  - apply notLater_trans.
  - intros x y Hx Hy Hc. apply (dateDiff_not_Gt H x y); auto.
  - intros x y Hx Hy Hc. apply (dateDiff_Gt H x y); auto.
Qed.

(** C3.  When semantic mode is requested and the model is not loaded,
    the call returns a list, not an exception.  The list holds exactly
    the documents that satisfy the exact filters and hold the query,
    case ignored, in the text the keyword branch searches, each as often
    as the input holds it; it is in the order of the sort key (newest
    first for [date-desc] and for no key, oldest first for [date-asc],
    when every document has a valid date); and it is the list keyword
    mode gives for the same documents and filter, whatever the state of
    the model there.  The semantic search itself returns the empty list
    in that state. *)
Theorem fallback_when_not_ready (H : Host) (sem sem' : SemanticSearch.t)
    (st : App.State) :
  SemanticSearch.isLoaded sem = false ->
  (exists l,
     App.filterAndSortPrompts {| App.semantic := sem; App.state := st |} = Returned l /\
     (forall p, In p l <->
                In p (App.prompts st) /\ satisfiesFilters (App.filter st) p /\
                containsIgnoringCase (searchedText p) (App.search (App.filter st))) /\
     Permutation l
       (List.filter
          (fun p => App.matchesSearch (App.filter st) p
                    && App.matchesFilters (App.filter st) p)
          (App.prompts st)) /\
     ((forall p, In p (App.prompts st) -> is_Some (timeOf H p)) ->
      (App.sort (App.filter st) = "" \/ App.sort (App.filter st) = "date-desc" ->
       StronglySorted (fun a b => notLater H b a) l) /\
      (App.sort (App.filter st) = "date-asc" -> StronglySorted (notLater H) l)) /\
     App.filterAndSortPrompts
       {| App.semantic := sem';
          App.state := {| App.prompts := App.prompts st; App.filter := App.filter st;
                          App.semanticMode := false |} |} = Returned l) /\
  (forall query prompts topK, SemanticSearch.search sem query prompts topK = []).
Proof.
  intros Hnot.
  assert (Hk : App.filterAndSortPrompts {| App.semantic := sem; App.state := st |}
               = Returned
                   (JS.sort (App.bySortMode (or_else (App.sort (App.filter st)) "date-desc"))
                      (List.filter
                         (fun prompt => App.matchesSearch (App.filter st) prompt
                                        && App.matchesFilters (App.filter st) prompt)
                         (App.prompts st)))).
  { apply (keyword_branch H {| App.semantic := sem; App.state := st |}).
    cbn [App.semantic App.state]. rewrite Hnot.
    now rewrite andb_false_r. }
  split.
  - eexists. split; [exact Hk|].
    set (kept := List.filter _ _).
    split; [|split; [|split]].
    + intros p. unfold kept.
      rewrite sort_In, filter_In, andb_true_iff, matchesFilters_spec, matchesSearch_spec.
      tauto.
    + apply sort_Permutation.
    + intros Hvalid.
      assert (Hkept : forall p, In p kept -> is_Some (timeOf H p)).
      { intros p Hp. apply filter_In in Hp. apply Hvalid, Hp. }
      split.
      * intros Hsort.
        assert (Hmode : or_else (App.sort (App.filter st)) "date-desc" = "date-desc")
          by (destruct Hsort as [-> | ->]; reflexivity).
        rewrite Hmode. apply sort_newest_first, Hkept.
      * intros Hsort. rewrite Hsort. apply sort_oldest_first, Hkept.
    + apply (keyword_branch H
               {| App.semantic := sem';
                  App.state := {| App.prompts := App.prompts st;
                                  App.filter := App.filter st;
                                  App.semanticMode := false |} |}).
      cbn [App.semantic App.state App.semanticMode]. apply andb_false_r.
  - intros query prompts topK. unfold SemanticSearch.search. rewrite Hnot. reflexivity.
Qed.

Lemma fallback_when_not_ready_witness :
  SemanticSearch.isLoaded SemanticSearch.new = false /\
  exists l,
    @App.filterAndSortPrompts Examples.host
      {| App.semantic := SemanticSearch.new;
         App.state := {| App.prompts := [Examples.a; Examples.b; Examples.c];
                         App.filter := Examples.categoryX "a";
                         App.semanticMode := true |} |} = Returned l /\
    @App.filterAndSortPrompts Examples.host
      {| App.semantic := Examples.ready;
         App.state := {| App.prompts := [Examples.a; Examples.b; Examples.c];
                         App.filter := Examples.categoryX "a";
                         App.semanticMode := false |} |} = Returned l.
Proof.
  split; [reflexivity|].
  destruct (fallback_when_not_ready Examples.host SemanticSearch.new Examples.ready
              {| App.prompts := [Examples.a; Examples.b; Examples.c];
                 App.filter := Examples.categoryX "a";
                 App.semanticMode := true |} eq_refl)
    as [(l & Hl & _ & _ & _ & Hkeyword) _].
  exists l. split; [exact Hl | exact Hkeyword].
Defined.

(** The fallback on the scenario of the filters: with the query "a" and
    the category filter X only [a] is returned, and no error. *)
Example fallback_scenario :
  @App.filterAndSortPrompts Examples.host
    {| App.semantic := SemanticSearch.new;
       App.state := {| App.prompts := [Examples.a; Examples.b; Examples.c];
                       App.filter := Examples.categoryX "a";
                       App.semanticMode := true |} |}
  = Returned [Examples.a].
Proof. vm_compute. reflexivity. Qed.

(** [PromptService.keywordSearch] does what C4 says: for a non-empty
    query, a prompt is kept exactly when the query occurs, case ignored,
    in its title, description, body text, tags or notes. *)
Lemma keywordSearch_spec (H : Host) (prompts : list Prompt.t) (query : string)
    (p : Prompt.t) :
  query <> "" ->
  (In p (PromptService.keywordSearch prompts query) <->
   In p prompts /\
   (containsIgnoringCase (Prompt.title p) query \/
    containsIgnoringCase (Prompt.description p) query \/
    containsIgnoringCase (Prompt.prompt_text p) query \/
    containsIgnoringCase (Prompt.tags p) query \/
    containsIgnoringCase (Prompt.notes p) query)).
Proof.
  intros Hq. unfold PromptService.keywordSearch.
  destruct (truthy query) eqn:Ht; [|apply truthy_false in Ht; contradiction].
  cbn [negb]. rewrite filter_In. unfold PromptService.keywordMatch.
  rewrite !orb_true_iff, !or_else_empty. unfold containsIgnoringCase. tauto.
Qed.

(** C4 on the two inputs where the keyword branch of
    [App.filterAndSortPrompts] departs from it.  The word "zebra" occurs
    in the notes of [noted]: [keywordSearch] keeps the prompt, the
    application returns the empty list.  The text "unse" occurs in no
    field of [spanning]: [keywordSearch] drops the prompt, the
    application returns it, because it looks in the concatenation of
    title, description, body text and tags. *)
Theorem keyword_branch_departs (H : Host) :
  (containsIgnoringCase (Prompt.notes Examples.noted) "zebra" /\
   PromptService.keywordSearch [Examples.noted] "zebra" = [Examples.noted] /\
   App.filterAndSortPrompts
     (Examples.keywordApp "zebra" [Examples.noted]) = Returned []) /\
  (~ containsIgnoringCase (Prompt.title Examples.spanning) "unse" /\
   ~ containsIgnoringCase (Prompt.description Examples.spanning) "unse" /\
   ~ containsIgnoringCase (Prompt.prompt_text Examples.spanning) "unse" /\
   ~ containsIgnoringCase (Prompt.tags Examples.spanning) "unse" /\
   ~ containsIgnoringCase (Prompt.notes Examples.spanning) "unse" /\
   PromptService.keywordSearch [Examples.spanning] "unse" = [] /\
   App.filterAndSortPrompts
     (Examples.keywordApp "unse" [Examples.spanning]) = Returned [Examples.spanning]).
Proof.
  unfold containsIgnoringCase, PromptService.keywordSearch, PromptService.keywordMatch,
    App.filterAndSortPrompts, App.matchesSearch.
  cbn [List.filter Examples.keywordApp App.state App.filter App.prompts App.semantic
       App.semanticMode App.search Examples.noFilter].
  rewrite !toLowerCase_ascii by reflexivity.
  repeat split; try (vm_compute; reflexivity); vm_compute; discriminate.
Qed.

(** ** The vault *)

Section Vault.
Import VaultRepo.
Implicit Types (dir : gmap string Entry) (this : t).

Lemma disconnected_save this prompt :
  dirHandle this = None ->
  savePrompt this prompt = (Thrown "Vault not connected", this).
Proof. intros Hd. unfold savePrompt. rewrite Hd. reflexivity. Qed.

Lemma disconnected_saveTemplate this template :
  dirHandle this = None ->
  saveTemplate this template = (Thrown "Vault not connected", this).
Proof. intros Hd. unfold saveTemplate. rewrite Hd. reflexivity. Qed.

Lemma disconnected_delete this id :
  dirHandle this = None -> deleteFile this id = (Returned tt, this).
Proof. intros Hd. unfold deleteFile. rewrite Hd. reflexivity. Qed.

Lemma disconnected_load this :
  dirHandle this = None ->
  loadAll this = ({| prompts := []; templates := [] |}, this).
Proof. intros Hd. unfold loadAll. rewrite Hd. reflexivity. Qed.

End Vault.

(** C5, as stated, fails for the two delete operations: with no directory
    selected [deletePrompt] and [deleteTemplate] return normally and
    change nothing. *)
Lemma delete_without_directory_counterexample :
  VaultRepo.dirHandle VaultRepo.new = None /\
  VaultRepo.deletePrompt VaultRepo.new "p1" = (Returned tt, VaultRepo.new) /\
  VaultRepo.deleteTemplate VaultRepo.new "t1" = (Returned tt, VaultRepo.new) /\
  (forall e, fst (VaultRepo.deletePrompt VaultRepo.new "p1") <> Thrown e).
Proof.
  repeat split. intros e. vm_compute. discriminate.
Qed.

(** C5, amended.  With no directory selected, [savePrompt] and
    [saveTemplate] fail at once with the error "Vault not connected" and
    change nothing; [deletePrompt] and [deleteTemplate] return normally
    and change nothing; the read-only [loadAll], [getAllPrompts] and
    [getAllTemplates] return empty. *)
Theorem without_directory (this : VaultRepo.t) (prompt : Prompt.t)
    (template : Template.t) (id : string) :
  VaultRepo.dirHandle this = None ->
  VaultRepo.savePrompt this prompt = (Thrown "Vault not connected", this) /\
  VaultRepo.saveTemplate this template = (Thrown "Vault not connected", this) /\
  VaultRepo.deletePrompt this id = (Returned tt, this) /\
  VaultRepo.deleteTemplate this id = (Returned tt, this) /\
  VaultRepo.loadAll this
  = ({| VaultRepo.prompts := []; VaultRepo.templates := [] |}, this) /\
  VaultRepo.getAllPrompts this = ([], this) /\
  VaultRepo.getAllTemplates this = ([], this).
Proof.
  intros Hd.
  split; [apply disconnected_save, Hd|].
  split; [apply disconnected_saveTemplate, Hd|].
  split; [apply disconnected_delete, Hd|].
  split; [apply disconnected_delete, Hd|].
  split; [apply disconnected_load, Hd|].
  unfold VaultRepo.getAllPrompts, VaultRepo.getAllTemplates.
  rewrite disconnected_load by exact Hd. split; reflexivity.
Qed.

Lemma without_directory_witness :
  VaultRepo.dirHandle VaultRepo.new = None /\
  VaultRepo.savePrompt VaultRepo.new Examples.draft
  = (Thrown "Vault not connected", VaultRepo.new).
Proof.
  split; [reflexivity|].
  apply (without_directory VaultRepo.new Examples.draft
           (Template.mk "t1" "" "" "" false 0%Z) "p1").
  reflexivity.
Defined.

(** *** File names *)

Lemma substring_whole t : String.substring 0 (String.length t) t = t.
Proof. induction t as [|c t IH]; simpl; [reflexivity | now rewrite IH]. Qed.

Lemma endsWith_refl t : endsWith t t = true.
Proof.
  unfold endsWith. rewrite Nat.leb_refl, Nat.sub_diag, substring_whole.
  apply String.eqb_refl.
Qed.

Lemma endsWith_cons c s t : endsWith s t = true -> endsWith (String c s) t = true.
Proof.
  unfold endsWith. cbn [String.length]. intros Hs.
  apply andb_true_iff in Hs as [Hle Heq]. apply Nat.leb_le in Hle.
  apply andb_true_iff. split; [apply Nat.leb_le; lia|].
  replace (S (String.length s) - String.length t)
    with (S (String.length s - String.length t)) by lia.
  exact Heq.
Qed.

Lemma endsWith_append a s t : endsWith s t = true -> endsWith (a ++ s) t = true.
Proof.
  intros Hs. induction a as [|c a IH]; [exact Hs|].
  cbn [String.append]. apply endsWith_cons, IH.
Qed.

Lemma promptFileName_json prompt :
  endsWith (VaultRepo.promptFileName prompt) ".json" = true.
Proof.
  unfold VaultRepo.promptFileName.
  do 3 apply endsWith_append. apply endsWith_refl.
Qed.

Lemma endsWith_json_truthy name : endsWith name ".json" = true -> truthy name = true.
Proof. destruct name; [discriminate | reflexivity]. Qed.

(** *** The files of a document *)

Section VaultFiles.
Import VaultRepo.
Implicit Types (dir : gmap string Entry) (this : t).

Lemma In_map_to_list dir (ne : string * Entry) :
  In ne (map_to_list dir) <-> dir !! ne.1 = Some ne.2.
Proof.
  rewrite <- list_elem_of_In. destruct ne as [n e]. apply elem_of_map_to_list.
Qed.

Lemma filesFor_In dir id name :
  In name (filesFor dir id) <->
  endsWith name ".json" = true /\
  exists j, dir !! name = Some (File (Some j)) /\ Json_id j = Some id.
Proof.
  unfold filesFor, jsonFiles. rewrite in_map_iff. split.
  - intros ([n e] & <- & Hin). cbn [fst].
    apply filter_In in Hin as [Hin Hid].
    apply filter_In in Hin as [Hin Hjson].
    apply In_map_to_list in Hin. cbn [fst snd] in *.
    apply andb_true_iff in Hjson as [_ Hends]. split; [exact Hends|].
    unfold readJson in Hid. rewrite Hin in Hid.
    destruct e as [?|[j|]]; try discriminate.
    exists j. split; [exact Hin|]. apply bool_decide_eq_true in Hid. exact Hid.
  - intros (Hends & j & Hl & Hid).
    exists (name, File (Some j)). split; [reflexivity|].
    apply filter_In. split.
    + apply filter_In. split; [apply In_map_to_list; exact Hl|].
      cbn [fst snd is_file]. rewrite Hends. reflexivity.
    + cbn [fst]. unfold readJson. rewrite Hl.
      apply bool_decide_eq_true. exact Hid.
Qed.

Lemma NoDup_fst_filter {A B} (f : A * B -> bool) (l : list (A * B)) :
  List.NoDup (List.map fst l) -> List.NoDup (List.map fst (List.filter f l)).
Proof.
  induction l as [|x l IH]; cbn [List.map List.filter]; intros Hnd; [constructor|].
  inversion Hnd as [|? ? Hnot Hnd']; subst.
  destruct (f x); [|apply IH, Hnd'].
  cbn [List.map]. constructor; [|apply IH, Hnd'].
  intros Hin. apply Hnot.
  apply in_map_iff in Hin as (y & Hy & Hin). apply in_map_iff.
  exists y. split; [exact Hy|]. apply filter_In in Hin. apply Hin.
Qed.

Lemma filesFor_NoDup dir id : List.NoDup (filesFor dir id).
Proof.
  unfold filesFor, jsonFiles. do 2 apply NoDup_fst_filter.
  apply NoDup_ListNoDup. exact (NoDup_fst_map_to_list dir).
Qed.

Lemma NoDup_only {A} (l : list A) (a : A) :
  List.NoDup l -> (forall x, In x l <-> x = a) -> l = [a].
Proof.
  intros Hnd Hin. destruct l as [|x l].
  - exfalso. apply (proj2 (Hin a) eq_refl).
  - assert (x = a) as -> by (apply Hin; now left).
    destruct l as [|y l]; [reflexivity|].
    exfalso. inversion Hnd as [|? ? Hnot _]; subst.
    assert (y = a) as -> by (apply Hin; right; now left).
    apply Hnot. now left.
Qed.

Lemma removeOld_sub this dir id new name e :
  removeOld this dir id new !! name = Some e -> dir !! name = Some e.
Proof.
  unfold removeOld. destruct (fileMap this !! id) as [old|]; [|auto].
  destruct (truthy old && negb (String.eqb old new)); [|auto].
  unfold removeEntry. destruct (dir !! old) as [[[|]|c]|]; cbn [try_catch]; auto;
    intros Hl; apply lookup_delete_Some in Hl; apply Hl.
Qed.

Lemma removeOld_removes this dir id new name j :
  fileMap this !! id = Some name ->
  name <> new ->
  truthy name = true ->
  dir !! name = Some (File j) ->
  removeOld this dir id new !! name = None.
Proof.
  intros Hmap Hne Ht Hl. unfold removeOld. rewrite Hmap, Ht.
  destruct (String.eqb_spec name new) as [|_]; [contradiction|].
  cbn [negb andb]. unfold removeEntry. rewrite Hl. cbn [try_catch].
  apply lookup_delete_eq.
Qed.

End VaultFiles.

(** C6, as stated, fails in the state it names: a repository object whose
    file map is empty (the directory picked again, [loadAll] not run)
    does not scan when it writes.  Saving the document p1 under its new
    title leaves both [Draft__p1.json] and [Final__p1.json], and a full
    scan finds two files for the id. *)
Lemma rename_after_restart_counterexample :
  VaultRepo.fileMap Examples.restarted = ∅ /\
  VaultRepo.filesFor (default ∅ (VaultRepo.dirHandle Examples.restarted)) "p1"
  = ["Draft__p1.json"] /\
  fst (VaultRepo.savePrompt Examples.restarted Examples.final)
  = Returned "Final__p1.json" /\
  length (VaultRepo.filesFor
            (default ∅ (VaultRepo.dirHandle
                          (snd (VaultRepo.savePrompt Examples.restarted Examples.final))))
            "p1") = 2 /\
  In "Draft__p1.json"
     (VaultRepo.filesFor
        (default ∅ (VaultRepo.dirHandle
                      (snd (VaultRepo.savePrompt Examples.restarted Examples.final))))
        "p1").
Proof.
  split; [reflexivity|].
  split; [vm_compute; reflexivity|].
  split; [vm_compute; reflexivity|].
  split; [vm_compute; reflexivity|].
  vm_compute. tauto.
Qed.

(** C6, amended.  Let the file map record, for the id of the document,
    the name of every file of the directory that holds this id (as it
    does after [loadAll] or after an earlier save by the same object),
    and let the new file name not be taken by a subdirectory.  Then
    [savePrompt] succeeds, returns the file name made from the current
    title, and afterwards a full scan finds exactly one file for the id:
    the file of that name, holding the saved document.  A file under an
    older name has been removed by the same call.  Nothing is claimed
    when the map has no entry for a file that exists: the write does not
    scan. *)
Theorem rename_keeps_one_file (this : VaultRepo.t)
    (dir : gmap string VaultRepo.Entry) (prompt : Prompt.t) :
  VaultRepo.dirHandle this = Some dir ->
  (forall name,
     In name (VaultRepo.filesFor dir (Prompt.id prompt)) ->
     VaultRepo.fileMap this !! Prompt.id prompt = Some name) ->
  (forall e,
     dir !! VaultRepo.promptFileName prompt <> Some (VaultRepo.Subdirectory e)) ->
  exists dir',
    VaultRepo.savePrompt this prompt
    = (Returned (VaultRepo.promptFileName prompt),
       {| VaultRepo.dirHandle := Some dir';
          VaultRepo.isConnected := VaultRepo.isConnected this;
          VaultRepo.fileMap :=
            <[Prompt.id prompt := VaultRepo.promptFileName prompt]>
              (VaultRepo.fileMap this) |}) /\
    VaultRepo.filesFor dir' (Prompt.id prompt) = [VaultRepo.promptFileName prompt] /\
    VaultRepo.readJson dir' (VaultRepo.promptFileName prompt)
    = Returned (VaultRepo.JPrompt prompt).
Proof.
  intros Hd Hidx Hnodir.
  unfold VaultRepo.savePrompt. rewrite Hd. unfold VaultRepo.renameAndWrite.
  set (new := VaultRepo.promptFileName prompt) in *.
  set (id := Prompt.id prompt) in *.
  set (dir1 := VaultRepo.removeOld this dir id new).
  assert (Hw : VaultRepo.writeFile dir1 new (VaultRepo.JPrompt prompt)
               = Returned (<[new := VaultRepo.File (Some (VaultRepo.JPrompt prompt))]> dir1)).
  { unfold VaultRepo.writeFile.
    destruct (dir1 !! new) as [[e|c]|] eqn:Hl; try reflexivity.
    exfalso. apply removeOld_sub in Hl. exact (Hnodir e Hl). }
  rewrite Hw. eexists. split; [reflexivity|]. split.
  - apply NoDup_only; [apply filesFor_NoDup|].
    intros name. rewrite filesFor_In. split.
    + intros (Hends & j & Hl & Hid).
      destruct (decide (name = new)) as [|Hne]; [assumption|]. exfalso.
      rewrite lookup_insert_ne in Hl by congruence.
      pose proof (removeOld_sub _ _ _ _ _ _ Hl) as Hdir.
      assert (Hin : In name (VaultRepo.filesFor dir id))
        by (apply filesFor_In; eauto).
      apply Hidx in Hin.
      pose proof (removeOld_removes this dir id new name (Some j) Hin Hne
                    (endsWith_json_truthy _ Hends) Hdir) as Hgone.
      fold dir1 in Hgone. congruence.
    + intros ->. split; [apply promptFileName_json|].
      exists (VaultRepo.JPrompt prompt).
      split; [apply lookup_insert_eq | reflexivity].
  - unfold VaultRepo.readJson. rewrite lookup_insert_eq. reflexivity.
Qed.

Lemma rename_keeps_one_file_witness :
  VaultRepo.filesFor (default ∅ (VaultRepo.dirHandle Examples.afterDraft)) "p1"
  = ["Draft__p1.json"] /\
  exists dir',
    VaultRepo.dirHandle (snd (VaultRepo.savePrompt Examples.afterDraft Examples.final))
    = Some dir' /\
    VaultRepo.filesFor dir' "p1" = ["Final__p1.json"].
Proof.
  split; [vm_compute; reflexivity|].
  destruct (rename_keeps_one_file Examples.afterDraft
              (default ∅ (VaultRepo.dirHandle Examples.afterDraft)) Examples.final)
    as (dir' & Hsave & Hfiles & _).
  - vm_compute. reflexivity.
  - intros name Hin.
    replace (VaultRepo.filesFor _ _) with ["Draft__p1.json"] in Hin
      by (vm_compute; reflexivity).
    destruct Hin as [<-|[]]. vm_compute. reflexivity.
  - intros e. vm_compute. discriminate.
  - exists dir'. rewrite Hsave. split; [reflexivity | exact Hfiles].
Defined.

(** ** The local database: [init] *)

Section OpenRequest.
Import IndexedDBRepo.

Lemma handle_quiet r ev : quiet ev -> promise (handle r ev) = promise r.
Proof. intros [->| ->]; reflexivity. Qed.

Lemma fold_quiet events r :
  Forall quiet events -> promise (fold_left handle events r) = promise r.
Proof.
  revert r. induction events as [|ev events IH]; intros r Hq; [reflexivity|].
  inversion Hq as [|? ? Hev Hrest]; subst. cbn [fold_left].
  rewrite IH by assumption. apply handle_quiet, Hev.
Qed.

End OpenRequest.

(** C9, as stated, fails: when the open request is blocked the promise of
    [init] is not rejected at all, it stays pending, and it is fulfilled
    if the request later goes through; the only rejection [init] makes is
    the one of the error handler. *)
Lemma blocked_counterexample :
  IndexedDBRepo.promise (IndexedDBRepo.run [] [IndexedDBRepo.blocked])
  = IndexedDBRepo.Pending /\
  (forall reason,
     IndexedDBRepo.promise (IndexedDBRepo.run [] [IndexedDBRepo.blocked])
     <> IndexedDBRepo.Rejected reason) /\
  IndexedDBRepo.promise
    (IndexedDBRepo.run [] [IndexedDBRepo.blocked; IndexedDBRepo.upgradeneeded;
                           IndexedDBRepo.success])
  = IndexedDBRepo.Fulfilled (IndexedDBRepo.upgrade []) /\
  IndexedDBRepo.promise (IndexedDBRepo.run [] [IndexedDBRepo.error "x"])
  = IndexedDBRepo.Rejected "DB Error".
Proof.
  split; [reflexivity|]. split; [intros reason; discriminate|].
  split; reflexivity.
Qed.

(** C9, amended.  A blocked open request makes [init] show the alert that
    asks to close the other tabs, and changes neither the promise nor the
    [db] field; as long as only blocked and upgrade events arrive the
    promise stays pending, so the caller receives no failure.  A failed
    request makes [init] show a different alert and reject the pending
    promise with the string "DB Error".  The two conditions differ in the
    text shown to the user. *)
Theorem blocked_is_shown_not_raised :
  (forall r,
     IndexedDBRepo.promise (IndexedDBRepo.handle r IndexedDBRepo.blocked)
     = IndexedDBRepo.promise r /\
     IndexedDBRepo.db (IndexedDBRepo.handle r IndexedDBRepo.blocked)
     = IndexedDBRepo.db r /\
     IndexedDBRepo.alerts (IndexedDBRepo.handle r IndexedDBRepo.blocked)
     = IndexedDBRepo.alerts r ++ [IndexedDBRepo.blockedText]) /\
  (forall existing events,
     Forall quiet events ->
     IndexedDBRepo.promise (IndexedDBRepo.run existing events) = IndexedDBRepo.Pending) /\
  (forall r e,
     IndexedDBRepo.promise r = IndexedDBRepo.Pending ->
     IndexedDBRepo.promise (IndexedDBRepo.handle r (IndexedDBRepo.error e))
     = IndexedDBRepo.Rejected "DB Error" /\
     IndexedDBRepo.alerts (IndexedDBRepo.handle r (IndexedDBRepo.error e))
     = IndexedDBRepo.alerts r ++ [IndexedDBRepo.errorText]) /\
  IndexedDBRepo.blockedText <> IndexedDBRepo.errorText.
Proof.
  split; [|split; [|split]].
  - intros r. repeat split.
  - intros existing events Hq. unfold IndexedDBRepo.run.
    rewrite fold_quiet by assumption. reflexivity.
  - intros r e Hp.
    cbn [IndexedDBRepo.handle IndexedDBRepo.promise IndexedDBRepo.alerts].
    rewrite Hp. split; reflexivity.
  - discriminate.
Qed.

Lemma blocked_is_shown_not_raised_witness :
  Forall quiet [IndexedDBRepo.blocked; IndexedDBRepo.upgradeneeded; IndexedDBRepo.blocked] /\
  IndexedDBRepo.promise
    (IndexedDBRepo.run [] [IndexedDBRepo.blocked; IndexedDBRepo.upgradeneeded;
                           IndexedDBRepo.blocked])
  = IndexedDBRepo.Pending /\
  IndexedDBRepo.promise
    (IndexedDBRepo.handle (IndexedDBRepo.init []) (IndexedDBRepo.error "x"))
  = IndexedDBRepo.Rejected "DB Error".
Proof.
  assert (Hq : Forall quiet [IndexedDBRepo.blocked; IndexedDBRepo.upgradeneeded;
                             IndexedDBRepo.blocked]).
  { constructor; [left; reflexivity|].
    constructor; [right; reflexivity|].
    constructor; [left; reflexivity|]. constructor. }
  split; [exact Hq|]. split.
  - apply (proj1 (proj2 blocked_is_shown_not_raised) [] _ Hq).
  - apply (proj1 (proj2 (proj2 blocked_is_shown_not_raised))
             (IndexedDBRepo.init []) "x" eq_refl).
Defined.

(** ** Duplicating a prompt *)

(** C10, as stated, fails for a prompt whose title is empty: the copy is
    titled "COPY Untitled", not "COPY " followed by the empty title. *)
Lemma duplicate_title_counterexample :
  Prompt.title Examples.untitled = "" /\
  Prompt.title (PromptService.duplicatePrompt Examples.untitled (fun _ => "fresh") "now")
  = "COPY Untitled" /\
  Prompt.title (PromptService.duplicatePrompt Examples.untitled (fun _ => "fresh") "now")
  <> String.append "COPY " (Prompt.title Examples.untitled).
Proof.
  split; [reflexivity|]. split; [reflexivity|]. discriminate.
Qed.

(** C10, amended.  The copy has the id the generator returns, no
    versions, no embedding (so the search gives it no entry), the status
    draft and the given creation time; its title is "COPY " followed by
    the title of the original, or "COPY Untitled" when that title is
    empty; description, body text, tags, notes, category and client are
    those of the original. *)
Theorem duplicatePrompt_spec (prompt : Prompt.t) (generateId : unit -> string)
    (now : string) :
  Prompt.id (PromptService.duplicatePrompt prompt generateId now) = generateId tt /\
  Prompt.versions (PromptService.duplicatePrompt prompt generateId now) = [] /\
  Prompt.embedding (PromptService.duplicatePrompt prompt generateId now) = None /\
  (forall sem qv,
     SemanticSearch.scored sem qv [PromptService.duplicatePrompt prompt generateId now]
     = []) /\
  Prompt.status (PromptService.duplicatePrompt prompt generateId now) = "draft" /\
  Prompt.date_created (PromptService.duplicatePrompt prompt generateId now) = now /\
  Prompt.title (PromptService.duplicatePrompt prompt generateId now)
  = (if decide (Prompt.title prompt = "") then "COPY Untitled"
     else String.append "COPY " (Prompt.title prompt)) /\
  Prompt.description (PromptService.duplicatePrompt prompt generateId now)
  = Prompt.description prompt /\
  Prompt.prompt_text (PromptService.duplicatePrompt prompt generateId now)
  = Prompt.prompt_text prompt /\
  Prompt.tags (PromptService.duplicatePrompt prompt generateId now) = Prompt.tags prompt /\
  Prompt.notes (PromptService.duplicatePrompt prompt generateId now) = Prompt.notes prompt /\
  Prompt.category (PromptService.duplicatePrompt prompt generateId now)
  = Prompt.category prompt /\
  Prompt.client (PromptService.duplicatePrompt prompt generateId now)
  = Prompt.client prompt.
Proof.
  repeat split.
  cbn [PromptService.duplicatePrompt Prompt.title].
  destruct (decide (Prompt.title prompt = "")) as [->|Hne]; [reflexivity|].
  destruct (Prompt.title prompt); [contradiction | reflexivity].
Qed.

(** [PromptService.filterPrompts] keeps exactly the prompts that satisfy
    the filters that are set. *)
Lemma filterPrompts_spec (prompts : list Prompt.t) (f : PromptService.Filter)
    (p : Prompt.t) :
  In p (PromptService.filterPrompts prompts f) <->
  In p prompts /\
  (PromptService.category f = "" \/ Prompt.category p = PromptService.category f) /\
  (PromptService.client f = "" \/ Prompt.client p = PromptService.client f) /\
  (PromptService.status f = "" \/ Prompt.status p = PromptService.status f).
Proof.
  unfold PromptService.filterPrompts, PromptService.matches.
  rewrite filter_In, !andb_true_iff, !filter_clause. tauto.
Qed.

(** ** Further properties of the services *)

Lemma favouritesFirst_trans a b c :
  favouritesFirst a b -> favouritesFirst b c -> favouritesFirst a c.
Proof.
  unfold favouritesFirst.
  intros [[Ha Hb]|[Hab Hle1]] [[Hb' Hc]|[Hbc Hle2]].
  - congruence.
  - left. split; congruence.
  - left. split; congruence.
  - right. split; [congruence | lia].
Qed.

Lemma byFavouriteThenOrder_le a b :
  TemplateService.byFavouriteThenOrder a b <> Gt -> favouritesFirst a b.
Proof.
  unfold TemplateService.byFavouriteThenOrder, favouritesFirst.
  destruct (Template.is_favourite a), (Template.is_favourite b); cbn; intros Hc.
  - right. split; [reflexivity|]. now apply Z.compare_le_iff.
  - left. split; reflexivity.
  - congruence.
  - right. split; [reflexivity|]. now apply Z.compare_le_iff.
Qed.

Lemma byFavouriteThenOrder_gt a b :
  TemplateService.byFavouriteThenOrder a b = Gt -> favouritesFirst b a.
Proof.
  unfold TemplateService.byFavouriteThenOrder, favouritesFirst.
  destruct (Template.is_favourite a), (Template.is_favourite b); cbn; intros Hc.
  - right. split; [reflexivity|]. apply Z.compare_gt_iff in Hc. lia.
  - discriminate.
  - left. split; reflexivity.
  - right. split; [reflexivity|]. apply Z.compare_gt_iff in Hc. lia.
Qed.

(** X1.  [sortTemplates] returns the same templates, every favourite
    before every template that is none and, within each of the two
    groups, in ascending order of the [order] field. *)
Theorem sortTemplates_favourites_first (templates : list Template.t) :
  Permutation (TemplateService.sortTemplates templates) templates /\
  StronglySorted favouritesFirst (TemplateService.sortTemplates templates).
Proof.
  split; [apply sort_Permutation|].
  apply sort_sorted_by.
  - apply favouritesFirst_trans.
  - intros x y _ _. apply byFavouriteThenOrder_le.
  - intros x y _ _. apply byFavouriteThenOrder_gt.
Qed.

(** *** Code-unit order of strings *)

Lemma ascii_compare_refl a : Ascii.compare a a = Eq.
Proof. unfold Ascii.compare. apply N.compare_refl. Qed.

Lemma ascii_compare_lt_trans a b c :
  Ascii.compare a b = Lt -> Ascii.compare b c = Lt -> Ascii.compare a c = Lt.
Proof.
  unfold Ascii.compare. rewrite !N.compare_lt_iff. lia.
Qed.

Lemma string_compare_refl s : String.compare s s = Eq.
Proof.
  induction s as [|c s IH]; [reflexivity|].
  cbn [String.compare]. rewrite ascii_compare_refl. exact IH.
Qed.

Lemma string_compare_lt_trans a b c :
  String.compare a b = Lt -> String.compare b c = Lt -> String.compare a c = Lt.
Proof.
  revert b c. induction a as [|x a IH]; intros [|y b] [|z c]; cbn [String.compare];
    try discriminate; try reflexivity.
  destruct (Ascii.compare x y) eqn:Hxy; try discriminate;
    destruct (Ascii.compare y z) eqn:Hyz; try discriminate; intros Hab Hbc.
  - apply Ascii.compare_eq_iff in Hxy, Hyz. subst.
    rewrite ascii_compare_refl. eapply IH; eassumption.
  - apply Ascii.compare_eq_iff in Hxy. subst. rewrite Hyz. reflexivity.
  - apply Ascii.compare_eq_iff in Hyz. subst. rewrite Hxy. reflexivity.
  - rewrite (ascii_compare_lt_trans _ _ _ Hxy Hyz). reflexivity.
Qed.

Lemma string_compare_not_Gt a b :
  String.compare a b <> Gt <-> a = b \/ String.compare a b = Lt.
Proof.
  split.
  - destruct (String.compare a b) eqn:Hc; intros Hn;
      [left; apply String.compare_eq_iff, Hc | now right | contradiction].
  - intros [->|Hlt]; [rewrite string_compare_refl|rewrite Hlt]; discriminate.
Qed.

Lemma string_compare_le_trans a b c :
  String.compare a b <> Gt -> String.compare b c <> Gt -> String.compare a c <> Gt.
Proof.
  rewrite !string_compare_not_Gt.
  intros [->|Hab] [->|Hbc]; auto.
  right. eapply string_compare_lt_trans; eassumption.
Qed.

Lemma string_compare_Gt_flip a b :
  String.compare a b = Gt -> String.compare b a <> Gt.
Proof.
  intros Hc. rewrite String.compare_antisym, Hc. discriminate.
Qed.

(** *** The values of a field *)

Lemma Set_of_fold_In (l acc : list string) x :
  In x (fold_left (fun acc x => if bool_decide (x ∈ acc) then acc else acc ++ [x]) l acc)
  <-> In x acc \/ In x l.
Proof.
  revert acc. induction l as [|y l IH]; intros acc; cbn [fold_left].
  - cbn [In]. tauto.
  - rewrite IH. cbn [In]. case_bool_decide as Hy.
    + apply list_elem_of_In in Hy. split; [tauto|].
      intros [Ha|[<-|Hl]]; auto.
    + rewrite in_app_iff. cbn [In]. tauto.
Qed.

Lemma Set_of_fold_NoDup (l acc : list string) :
  List.NoDup acc ->
  List.NoDup (fold_left (fun acc x => if bool_decide (x ∈ acc) then acc else acc ++ [x]) l acc).
Proof.
  revert acc. induction l as [|y l IH]; intros acc Hnd; cbn [fold_left]; [exact Hnd|].
  apply IH. case_bool_decide as Hy; [exact Hnd|].
  apply NoDup_ListNoDup. apply NoDup_app.
  split; [apply NoDup_ListNoDup, Hnd|].
  split; [|apply NoDup_singleton].
  intros z Hz Hz'. apply list_elem_of_singleton in Hz'. subst. contradiction.
Qed.

Lemma Set_of_In l x : In x (Set_of l) <-> In x l.
Proof. unfold Set_of. rewrite Set_of_fold_In. cbn [In]. tauto. Qed.

Lemma Set_of_NoDup l : List.NoDup (Set_of l).
Proof. apply Set_of_fold_NoDup. constructor. Qed.

Lemma sorted_NoDup_strict (l : list string) :
  StronglySorted (fun x y => String.compare x y <> Gt) l ->
  List.NoDup l -> strictlyAscending l.
Proof.
  unfold strictlyAscending.
  induction 1 as [|x l Hs IH Hall]; intros Hnd; constructor.
  - apply IH. now inversion Hnd.
  - inversion Hnd as [|? ? Hnot _]; subst.
    rewrite List.Forall_forall in *. intros y Hy.
    destruct (proj1 (string_compare_not_Gt x y) (Hall y Hy)) as [->|Hlt];
      [contradiction | exact Hlt].
Qed.

Lemma distinct_values_spec (field : Prompt.t -> string) (prompts : list Prompt.t) :
  strictlyAscending
    (JS.sort defaultCompare (Set_of (List.filter truthy (List.map field prompts)))) /\
  forall v,
    In v (JS.sort defaultCompare (Set_of (List.filter truthy (List.map field prompts))))
    <-> v <> "" /\ exists p, In p prompts /\ field p = v.
Proof.
  split.
  - apply sorted_NoDup_strict.
    + apply sort_sorted_by.
      * apply string_compare_le_trans.
      * intros x y _ _ Hc. exact Hc.
      * intros x y _ _ Hc. apply string_compare_Gt_flip, Hc.
    + eapply Permutation_NoDup; [symmetry; apply sort_Permutation|].
      apply Set_of_NoDup.
  - intros v. rewrite sort_In, Set_of_In, filter_In, in_map_iff.
    split.
    + intros [(p & <- & Hp) Ht]. split; [|eauto].
      intros Hv. rewrite Hv in Ht. discriminate.
    + intros [Hv (p & Hp & <-)]. split; [eauto|].
      destruct (field p); [contradiction | reflexivity].
Qed.

(** X2.  [extractCategories], [extractClients] and [extractStatuses]
    return the non-empty values of the field that occur among the
    prompts, each once, in strictly ascending code-unit order. *)
Theorem extract_values_spec (prompts : list Prompt.t) :
  (strictlyAscending (PromptService.extractCategories prompts) /\
   forall v, In v (PromptService.extractCategories prompts)
             <-> v <> "" /\ exists p, In p prompts /\ Prompt.category p = v) /\
  (strictlyAscending (PromptService.extractClients prompts) /\
   forall v, In v (PromptService.extractClients prompts)
             <-> v <> "" /\ exists p, In p prompts /\ Prompt.client p = v) /\
  (strictlyAscending (PromptService.extractStatuses prompts) /\
   forall v, In v (PromptService.extractStatuses prompts)
             <-> v <> "" /\ exists p, In p prompts /\ Prompt.status p = v).
Proof.
  split; [|split]; apply distinct_values_spec.
Qed.

(** *** Version numbers *)

Lemma last_is_greatest (vs : list Version.t) (v : Version.t) :
  increasingVersions vs -> last vs = Some v ->
  forall w, In w vs ->
            w = v \/ (Version.version_no w <? Version.version_no v)%float = true.
Proof.
  unfold increasingVersions.
  induction vs as [|x vs IH]; intros Hs Hlast w Hw; [contradiction|].
  cbn [List.map] in Hs. inversion Hs as [|? ? Hs' Hall]; subst.
  destruct vs as [|y vs].
  - cbn in Hlast. injection Hlast as <-. destruct Hw as [<-|[]]. now left.
  - assert (Hlast' : last (y :: vs) = Some v) by exact Hlast.
    destruct Hw as [<-|Hw]; [|apply IH; assumption].
    rewrite List.Forall_forall in Hall.
    assert (Hv : In v (y :: vs)).
    { apply list_elem_of_In. eapply last_Some_elem_of. exact Hlast'. }
    right. apply Hall, in_map, Hv.
Qed.

Lemma find_snoc {A} (f : A -> bool) (l : list A) (a : A) :
  List.find f (l ++ [a])
  = match List.find f l with
    | Some x => Some x
    | None => if f a then Some a else None
    end.
Proof.
  induction l as [|x l IH]; cbn [List.find app]; [reflexivity|].
  destruct (f x); [reflexivity | exact IH].
Qed.

Lemma sorted_snoc {A} (R : A -> A -> Prop) (l : list A) (a : A) :
  StronglySorted R l -> Forall (fun x => R x a) l -> StronglySorted R (l ++ [a]).
Proof.
  induction 1 as [|x l Hs IH Hall]; intros Ha; cbn [app].
  - constructor; constructor.
  - inversion Ha as [|? ? Hxa Ha']; subst.
    constructor; [apply IH, Ha'|].
    apply Forall_app. split; [exact Hall|]. constructor; [exact Hxa | constructor].
Qed.

Lemma createVersion_number (p : Prompt.t) (now : string) :
  Version.version_no (PromptService.createVersion p now) = (lastNumber p + 1)%float.
Proof. reflexivity. Qed.

Lemma createVersion_above (p : Prompt.t) (now : string) :
  increasingVersions (Prompt.versions p) ->
  (lastNumber p <? lastNumber p + 1)%float = true ->
  forall w, In w (Prompt.versions p) ->
            (Version.version_no w
             <? Version.version_no (PromptService.createVersion p now))%float = true.
Proof.
  intros Hinc Hstep w Hw. rewrite createVersion_number.
  unfold lastNumber in *.
  destruct (last (Prompt.versions p)) as [v|] eqn:Hlast.
  - destruct (last_is_greatest _ _ Hinc Hlast w Hw) as [->|Hlt]; [exact Hstep|].
    eapply ltb64_leb_trans; [exact Hlt | apply ltb64_leb, Hstep].
  - apply last_None in Hlast. rewrite Hlast in Hw. contradiction.
Qed.

(** X3.  When the version numbers of a prompt grow strictly along its
    list and the last of them is a whole number [n] from 0 to 2^53 - 2
    (0 stands for a prompt without versions), the version
    [createVersion] makes has the number [n + 1], which is above all of
    them; after it is pushed the numbers still grow strictly,
    [findVersion] finds the new version under its number, and finds what
    it found before under every older number.  The version holds the
    body text and the notes of the prompt.  (From 2^53 on the sum with 1
    rounds, and the bound is needed.) *)
Theorem createVersion_fresh (p : Prompt.t) (now : string) (n : Z) :
  increasingVersions (Prompt.versions p) ->
  lastNumber p = wholeNumber n ->
  (0 <= n)%Z -> (n + 1 < 2 ^ 53)%Z ->
  Version.version_no (PromptService.createVersion p now) = wholeNumber (n + 1) /\
  (Prompt.versions p = [] ->
   Version.version_no (PromptService.createVersion p now) = 1%float) /\
  (forall w, In w (Prompt.versions p) ->
             (Version.version_no w
              <? Version.version_no (PromptService.createVersion p now))%float = true) /\
  increasingVersions
    (Prompt.versions (pushVersion p (PromptService.createVersion p now))) /\
  PromptService.findVersion (pushVersion p (PromptService.createVersion p now))
    (Version.version_no (PromptService.createVersion p now))
  = Some (PromptService.createVersion p now) /\
  (forall w, In w (Prompt.versions p) ->
     PromptService.findVersion (pushVersion p (PromptService.createVersion p now))
       (Version.version_no w)
     = PromptService.findVersion p (Version.version_no w)) /\
  Version.prompt_text (PromptService.createVersion p now) = Prompt.prompt_text p /\
  Version.notes (PromptService.createVersion p now) = Prompt.notes p.
Proof.
  intros Hinc Hlast Hn0 Hn.
  destruct (whole_successor n Hn0 Hn) as [Hsum Hstep].
  rewrite <- Hlast in Hsum, Hstep.
  pose proof (createVersion_above p now Hinc Hstep) as Habove.
  assert (Hnew : (Version.version_no (PromptService.createVersion p now)
                  =? Version.version_no (PromptService.createVersion p now))%float = true).
  { rewrite createVersion_number. apply isNaN_false.
    apply (ltb64_number _ _ Hstep). }
  split; [rewrite createVersion_number; exact Hsum|].
  split; [intros Hnil; unfold PromptService.createVersion; rewrite Hnil; reflexivity|].
  split; [exact Habove|].
  split; [|split; [|split; [|split; reflexivity]]].
  - unfold increasingVersions. cbn [pushVersion Prompt.versions].
    rewrite map_app. apply sorted_snoc; [exact Hinc|].
    apply List.Forall_forall. intros k Hk.
    apply in_map_iff in Hk as (w & <- & Hw). apply Habove, Hw.
  - unfold PromptService.findVersion. cbn [pushVersion Prompt.versions].
    rewrite find_snoc.
    destruct (List.find _ (Prompt.versions p)) as [w|] eqn:Hfind.
    + apply find_some in Hfind as [Hw Heq].
      specialize (Habove w Hw).
      rewrite (eqb64_not_ltb _ _ _ Heq Hnew) in Habove. discriminate.
    + rewrite Hnew. reflexivity.
  - intros w Hw. unfold PromptService.findVersion. cbn [pushVersion Prompt.versions].
    rewrite find_snoc.
    destruct (List.find _ (Prompt.versions p)) as [x|] eqn:Hfind; [reflexivity|].
    destruct (Version.version_no (PromptService.createVersion p now)
              =? Version.version_no w)%float eqn:Heq; [|reflexivity].
    exfalso. specialize (Habove w Hw).
    rewrite (eqb64_not_ltb _ _ _ (eqb64_sym _ _ Heq) Hnew) in Habove. discriminate.
Qed.

Lemma createVersion_fresh_witness :
  increasingVersions (Prompt.versions Examples.versioned) /\
  lastNumber Examples.versioned = wholeNumber 1 /\
  Version.version_no (PromptService.createVersion Examples.versioned "t2") = wholeNumber 2 /\
  increasingVersions
    (Prompt.versions
       (pushVersion Examples.versioned
          (PromptService.createVersion Examples.versioned "t2"))).
Proof.
  assert (Hinc : increasingVersions (Prompt.versions Examples.versioned)).
  { unfold increasingVersions. cbn. repeat constructor. }
  split; [exact Hinc|]. split; [reflexivity|].
  destruct (createVersion_fresh Examples.versioned "t2" 1 Hinc eq_refl) as (Hno & _ & _ & Hpush & _);
    [lia | reflexivity | ].
  split; [exact Hno | exact Hpush].
Defined.

(** At 2^53 the sum with 1 rounds back: the version made for a prompt
    whose last version has the number 9007199254740992 gets the same
    number. *)
Example createVersion_at_limit :
  Version.version_no (PromptService.createVersion Examples.worn "t") = 9007199254740992%float /\
  (lastNumber Examples.worn <? lastNumber Examples.worn + 1)%float = false.
Proof. split; reflexivity. Qed.

(** *** The similarity function and the search, continued *)

Lemma pairs_comm (a b : list float) (acc : float) :
  fold_left (fun acc xy => (acc + fst xy * snd xy)%float) (combine a b) acc
  = fold_left (fun acc xy => (acc + fst xy * snd xy)%float) (combine b a) acc.
Proof.
  revert b acc. induction a as [|x a IH]; intros [|y b] acc; try reflexivity.
  cbn [combine fold_left fst snd]. rewrite (mul64_comm x y). apply IH.
Qed.

Lemma dot_comm (a b : list float) :
  length a = length b -> SemanticSearch.dot a b = SemanticSearch.dot b a.
Proof.
  intros Hlen. rewrite !dot_pairs by congruence. apply pairs_comm.
Qed.

(** X4.  The similarity is symmetric in its two arguments, present or
    absent, of equal length or not: the two calls return the same
    double. *)
Theorem cosineSimilarity_symmetric (vecA vecB : option (list float)) :
  SemanticSearch.cosineSimilarity vecA vecB
  = SemanticSearch.cosineSimilarity vecB vecA.
Proof.
  destruct vecA as [a|], vecB as [b|]; try reflexivity.
  unfold SemanticSearch.cosineSimilarity.
  destruct (Nat.eqb_spec (length a) (length b)) as [Hlen|Hne].
  - rewrite <- Hlen, Nat.eqb_refl. cbn [negb]. apply dot_comm, Hlen.
  - destruct (Nat.eqb_spec (length b) (length a)); [congruence | reflexivity].
Qed.

Lemma embed_None_search this query prompts topK :
  SemanticSearch.embed this query = None ->
  SemanticSearch.search this query prompts topK = [].
Proof.
  intros He. unfold SemanticSearch.search. rewrite He.
  destruct (negb (SemanticSearch.isLoaded this)); reflexivity.
Qed.

(** X5.  The semantic search returns the empty list, whatever the
    prompts, when the model is not loaded, when the query is empty, when
    the object has no pipeline, and when the pipeline throws on the
    query. *)
Theorem search_returns_nothing (this : SemanticSearch.t) (query : string)
    (prompts : list Prompt.t) (topK : nat) :
  SemanticSearch.isLoaded this = false \/
  query = "" \/
  SemanticSearch.pipe this = None \/
  (exists p e, SemanticSearch.pipe this = Some p /\ p query = Thrown e) ->
  SemanticSearch.search this query prompts topK = [].
Proof.
  intros [Hl|[->|[Hp|(p & e & Hp & Ht)]]].
  - unfold SemanticSearch.search. rewrite Hl. reflexivity.
  - apply embed_None_search. unfold SemanticSearch.embed.
    destruct (SemanticSearch.pipe this); reflexivity.
  - apply embed_None_search. unfold SemanticSearch.embed. rewrite Hp. reflexivity.
  - apply embed_None_search. unfold SemanticSearch.embed. rewrite Hp, Ht.
    destruct (negb (truthy query)); reflexivity.
Qed.

Lemma search_returns_nothing_witness :
  SemanticSearch.search
    (SemanticSearch.init SemanticSearch.new (Returned (fun _ => Thrown "model error"))).2
    "query" [Examples.doc1; Examples.doc2] 50 = [].
Proof.
  apply search_returns_nothing. right. right. right.
  exists (fun _ => Thrown "model error"), "model error". split; reflexivity.
Defined.

Lemma NoDup_map_filter {A B} (g : A -> B) (f : A -> bool) (l : list A) :
  List.NoDup (List.map g l) -> List.NoDup (List.map g (List.filter f l)).
Proof.
  induction l as [|x l IH]; cbn [List.map List.filter]; intros Hnd; [constructor|].
  inversion Hnd as [|? ? Hnot Hnd']; subst.
  destruct (f x); [|apply IH, Hnd'].
  cbn [List.map]. constructor; [|apply IH, Hnd'].
  intros Hin. apply Hnot.
  apply in_map_iff in Hin as (y & Hy & Hin). apply in_map_iff.
  exists y. split; [exact Hy|]. apply filter_In in Hin. apply Hin.
Qed.

Lemma NoDup_take {A} (k : nat) (l : list A) : List.NoDup l -> List.NoDup (take k l).
Proof.
  revert k. induction l as [|x l IH]; intros [|k] Hnd; cbn [take]; try constructor.
  - inversion Hnd as [|? ? Hnot _]; subst. intros Hin. apply Hnot. eapply In_take, Hin.
  - apply IH. now inversion Hnd.
Qed.

Lemma scored_ids this qv prompts :
  List.map SemanticSearch.id (SemanticSearch.scored this qv prompts)
  = List.map Prompt.id
      (List.filter
         (fun p => (SemanticSearch.minScore this
                    <=? SemanticSearch.cosineSimilarity (Some qv) (Prompt.embedding p))%float)
         (List.filter (fun p => bool_decide (is_Some (Prompt.embedding p))) prompts)).
Proof.
  unfold SemanticSearch.scored.
  induction (List.filter _ prompts) as [|p l IH]; [reflexivity|].
  cbn [List.map List.filter SemanticSearch.score].
  destruct (_ <=? _)%float; cbn [List.map SemanticSearch.id]; now rewrite IH.
Qed.

(** X6.  The semantic search returns at most [topK] entries and at most
    one entry per prompt that has an embedding; when the ids of the
    prompts are distinct, so are the ids of the entries. *)
Theorem search_bounds (this : SemanticSearch.t) (query : string)
    (prompts : list Prompt.t) (topK : nat) :
  length (SemanticSearch.search this query prompts topK) <= topK /\
  length (SemanticSearch.search this query prompts topK)
  <= length (List.filter (fun p => bool_decide (is_Some (Prompt.embedding p))) prompts) /\
  (List.NoDup (List.map Prompt.id prompts) ->
   List.NoDup (List.map SemanticSearch.id
                 (SemanticSearch.search this query prompts topK))).
Proof.
  unfold SemanticSearch.search.
  destruct (negb (SemanticSearch.isLoaded this));
    [cbn; repeat split; try lia; constructor|].
  destruct (SemanticSearch.embed this query) as [qv|];
    [|cbn; repeat split; try lia; constructor].
  unfold slice0. rewrite length_take, sort_length.
  split; [lia|]. split.
  - etransitivity; [apply Nat.le_min_r|].
    unfold SemanticSearch.scored.
    etransitivity; [apply List.filter_length_le|].
    rewrite length_map. reflexivity.
  - intros Hnd. rewrite <- firstn_map. apply NoDup_take.
    eapply Permutation_NoDup.
    + symmetry. apply Permutation_map, sort_Permutation.
    + rewrite scored_ids. do 2 apply NoDup_map_filter. exact Hnd.
Qed.

Lemma search_bounds_witness :
  List.NoDup (List.map Prompt.id [Examples.doc1; Examples.doc2; Examples.doc3]) /\
  List.NoDup
    (List.map SemanticSearch.id
       (SemanticSearch.search Examples.ready "query"
          [Examples.doc1; Examples.doc2; Examples.doc3] 1)).
Proof.
  assert (Hnd : List.NoDup
                  (List.map Prompt.id [Examples.doc1; Examples.doc2; Examples.doc3])).
  { cbn. repeat constructor; cbn; intuition discriminate. }
  split; [exact Hnd|].
  apply (search_bounds Examples.ready "query"
           [Examples.doc1; Examples.doc2; Examples.doc3] 1), Hnd.
Defined.

(** *** The semantic search object over its life *)

Lemma wellLoaded_step this c : wellLoaded this -> wellLoaded (semanticStep this c).
Proof.
  unfold wellLoaded. intros Hw. destruct c as [load|val]; cbn [semanticStep].
  - unfold SemanticSearch.init.
    destruct (SemanticSearch.isLoaded this) eqn:Hl; cbn [snd];
      [intros _; exact (Hw eq_refl)|].
    destruct (SemanticSearch.isLoading this); cbn [snd]; [congruence|].
    destruct load as [p|e]; cbn [snd SemanticSearch.isLoaded SemanticSearch.pipe
                                   SemanticSearch.loadError].
    + intros _. split; [eexists; reflexivity | reflexivity].
    + congruence.
  - exact Hw.
Qed.

Lemma wellLoaded_fold calls this :
  wellLoaded this -> wellLoaded (fold_left semanticStep calls this).
Proof.
  revert this. induction calls as [|c calls IH]; intros this Hw; [exact Hw|].
  cbn [fold_left]. apply IH, wellLoaded_step, Hw.
Qed.

(** X7.  After any sequence of [init] and [setThreshold] calls on a new
    object: if the object is loaded it has a pipeline and no load error,
    so [isAvailable] agrees with [isLoaded]; and on a loaded object a
    further [init] returns true and changes nothing, whatever the loader
    would do. *)
Theorem semantic_object_loads_once (calls : list semanticCall) :
  wellLoaded (semanticAfter calls) /\
  SemanticSearch.isAvailable (semanticAfter calls)
  = SemanticSearch.isLoaded (semanticAfter calls) /\
  (SemanticSearch.isLoaded (semanticAfter calls) = true ->
   forall load,
     SemanticSearch.init (semanticAfter calls) load = (true, semanticAfter calls)).
Proof.
  assert (Hw : wellLoaded (semanticAfter calls)).
  { apply wellLoaded_fold. unfold wellLoaded. cbn. discriminate. }
  split; [exact Hw|]. split.
  - unfold SemanticSearch.isAvailable.
    destruct (SemanticSearch.isLoaded (semanticAfter calls)) eqn:Hl; [|reflexivity].
    destruct (Hw Hl) as [_ ->]. cbn [andb negb].
    rewrite bool_decide_eq_false_2; [reflexivity|]. intros [x Hx]. discriminate.
  - intros Hl load. unfold SemanticSearch.init. rewrite Hl. reflexivity.
Qed.

Lemma semantic_object_loads_once_witness :
  SemanticSearch.isLoaded
    (semanticAfter [CallInit (Thrown "offline"); CallInit (Returned Examples.model);
                    CallSetThreshold 0.5%float]) = true /\
  SemanticSearch.init
    (semanticAfter [CallInit (Thrown "offline"); CallInit (Returned Examples.model);
                    CallSetThreshold 0.5%float]) (Thrown "again")
  = (true, semanticAfter [CallInit (Thrown "offline"); CallInit (Returned Examples.model);
                          CallSetThreshold 0.5%float]).
Proof.
  split; [reflexivity|].
  apply (semantic_object_loads_once
           [CallInit (Thrown "offline"); CallInit (Returned Examples.model);
            CallSetThreshold 0.5%float]).
  reflexivity.
Defined.

(** *** The keyword branch and the order of its result *)

Lemma lowerAscii_app a b :
  lowerAscii (a ++ b) = String.append (lowerAscii a) (lowerAscii b).
Proof.
  induction a as [|c a IH]; [reflexivity|].
  simpl. now rewrite IH.
Qed.

Lemma isAscii_app a b : isAscii (a ++ b) = isAscii a && isAscii b.
Proof.
  induction a as [|c a IH]; [reflexivity|].
  change (isAscii (String c (String.append a b))
          = isAscii (String c a) && isAscii b).
  cbn [isAscii]. rewrite IH. apply andb_assoc.
Qed.

Lemma prefix_app q a b :
  String.prefix q a = true -> String.prefix q (a ++ b) = true.
Proof.
  revert a. induction q as [|c q IH]; intros a Hp;
    [destruct (String.append a b); reflexivity|].
  destruct a as [|d a]; [discriminate|].
  simpl in *.
  destruct (ascii_dec c d); [apply IH, Hp | discriminate].
Qed.

Lemma prefix_nil q : String.prefix q "" = true -> q = "".
Proof. destruct q; [reflexivity | discriminate]. Qed.

Lemma includes_app_l a b q : includes a q = true -> includes (a ++ b) q = true.
Proof.
  induction a as [|c a IH]; intros Hi.
  - cbn [includes] in Hi. rewrite orb_false_r in Hi.
    apply prefix_nil in Hi. subst. apply includes_empty.
  - change (includes (String c (String.append a b)) q = true).
    cbn [includes] in *.
    apply orb_true_iff in Hi as [Hp|Hi]; apply orb_true_iff.
    + left. apply (prefix_app q (String c a) b Hp).
    + right. apply IH, Hi.
Qed.

Lemma includes_app_r a b q : includes b q = true -> includes (a ++ b) q = true.
Proof.
  intros Hi. induction a as [|c a IH]; [exact Hi|].
  change (includes (String c (String.append a b)) q = true).
  cbn [includes]. rewrite IH. apply orb_true_r.
Qed.

(** X8.  In the keyword branch (no query, model not loaded, or semantic
    mode off), for a query and a prompt whose title, description, body
    text and tags are ASCII text, a prompt that satisfies the exact
    filters and holds the query, case ignored, in its title,
    description, body text or tags is in the returned list.  (Outside
    ASCII the case mapping of the whole text need not be that of its
    parts, and the theorem says nothing.) *)
Theorem keyword_branch_finds (H : Host) (this : App.t) (p : Prompt.t) :
  truthy (App.search (App.filter (App.state this)))
  && SemanticSearch.isLoaded (App.semantic this)
  && App.semanticMode (App.state this) = false ->
  In p (App.prompts (App.state this)) ->
  satisfiesFilters (App.filter (App.state this)) p ->
  isAscii (searchedText p) = true ->
  isAscii (App.search (App.filter (App.state this))) = true ->
  containsIgnoringCase (Prompt.title p) (App.search (App.filter (App.state this))) \/
  containsIgnoringCase (Prompt.description p) (App.search (App.filter (App.state this))) \/
  containsIgnoringCase (Prompt.prompt_text p) (App.search (App.filter (App.state this))) \/
  containsIgnoringCase (Prompt.tags p) (App.search (App.filter (App.state this))) ->
  exists l, App.filterAndSortPrompts this = Returned l /\ In p l.
Proof.
  intros Hbranch Hin Hsat Htext Hquery Hfield.
  rewrite (keyword_branch H this Hbranch). eexists. split; [reflexivity|].
  apply sort_In, filter_In. split; [exact Hin|].
  apply andb_true_iff. split; [|apply matchesFilters_spec, Hsat].
  apply matchesSearch_spec. unfold containsIgnoringCase in *.
  rewrite (toLowerCase_ascii _ Htext).
  unfold searchedText in *.
  rewrite !isAscii_app, !andb_true_iff in Htext.
  destruct Htext as (Ht & Hd & Hx & Hg).
  rewrite (toLowerCase_ascii _ Ht), (toLowerCase_ascii _ Hd),
    (toLowerCase_ascii _ Hx), (toLowerCase_ascii _ Hg) in Hfield.
  rewrite !lowerAscii_app.
  destruct Hfield as [Hf|[Hf|[Hf|Hf]]].
  - apply includes_app_l, Hf.
  - apply includes_app_r, includes_app_l, Hf.
  - apply includes_app_r, includes_app_r, includes_app_l, Hf.
  - apply includes_app_r, includes_app_r, includes_app_r, Hf.
Qed.

Lemma keyword_branch_finds_witness :
  exists l,
    @App.filterAndSortPrompts Examples.host
      (Examples.keywordApp "PLAN" [Examples.noted]) = Returned l /\
    In Examples.noted l.
Proof.
  apply (keyword_branch_finds Examples.host
           (Examples.keywordApp "PLAN" [Examples.noted]) Examples.noted).
  - reflexivity.
  - left. reflexivity.
  - unfold satisfiesFilters. cbn. tauto.
  - reflexivity.
  - reflexivity.
  - left. reflexivity.
Defined.

Lemma scoreless_compare (a b : Prompt.t) : App.byMapScoreDesc ∅ a b = Eq.
Proof. reflexivity. Qed.

(** X9.  In semantic mode with the model loaded and a query present, when
    the query gets no vector (the pipeline throws), the list returned is
    the list of the prompts that satisfy the exact filters, in their
    original order: the query has no effect, and the keyword branch is
    not used. *)
Theorem semantic_mode_without_vector (H : Host) (sem : SemanticSearch.t)
    (prompts : list Prompt.t) (f : App.Filter) :
  App.search f <> "" ->
  SemanticSearch.isLoaded sem = true ->
  SemanticSearch.embed sem (App.search f) = None ->
  App.filterAndSortPrompts
    {| App.semantic := sem;
       App.state := {| App.prompts := prompts; App.filter := f;
                       App.semanticMode := true |} |}
  = Returned (List.filter (App.matchesFilters f) prompts).
Proof.
  intros Hq Hl He. unfold App.filterAndSortPrompts.
  cbn [App.state App.semantic App.prompts App.filter App.semanticMode].
  destruct (truthy (App.search f)) eqn:Ht; [|apply truthy_false in Ht; contradiction].
  rewrite Hl. cbn [andb].
  rewrite (embed_None_search sem (App.search f) prompts _ He).
  f_equal. apply sort_all_equal. intros x y.
  change (App.scoreMapOf []) with (∅ : gmap string float).
  rewrite scoreless_compare. discriminate.
Qed.

Lemma semantic_mode_without_vector_witness :
  @App.filterAndSortPrompts Examples.host
    {| App.semantic := Examples.failing;
       App.state := {| App.prompts := [Examples.a; Examples.b; Examples.c];
                       App.filter := Examples.categoryX "zzz";
                       App.semanticMode := true |} |}
  = Returned [Examples.a; Examples.c].
Proof.
  apply (semantic_mode_without_vector Examples.host Examples.failing
           [Examples.a; Examples.b; Examples.c] (Examples.categoryX "zzz")).
  - discriminate.
  - reflexivity.
  - reflexivity.
Defined.

(** X10.  In the keyword branch, when every prompt has a valid creation
    date, the returned list is ordered from the newest to the oldest for
    the sort key [date-desc] and for an empty sort key, and from the
    oldest to the newest for [date-asc]. *)
Theorem keyword_branch_date_order (H : Host) (this : App.t) :
  truthy (App.search (App.filter (App.state this)))
  && SemanticSearch.isLoaded (App.semantic this)
  && App.semanticMode (App.state this) = false ->
  (forall p, In p (App.prompts (App.state this)) -> is_Some (timeOf H p)) ->
  exists l,
    App.filterAndSortPrompts this = Returned l /\
    (App.sort (App.filter (App.state this)) = "" \/
     App.sort (App.filter (App.state this)) = "date-desc" ->
     StronglySorted (fun a b => notLater H b a) l) /\
    (App.sort (App.filter (App.state this)) = "date-asc" ->
     StronglySorted (notLater H) l).
Proof.
  intros Hbranch Hvalid.
  rewrite (keyword_branch H this Hbranch). eexists. split; [reflexivity|].
  set (kept := List.filter _ _).
  assert (Hkept : forall p, In p kept -> is_Some (timeOf H p)).
  { intros p Hp. apply filter_In in Hp. apply Hvalid, Hp. }
  split.
  - intros Hsort.
    assert (Hmode : or_else (App.sort (App.filter (App.state this))) "date-desc"
                    = "date-desc") by (destruct Hsort as [-> | ->]; reflexivity).
    rewrite Hmode. apply sort_sorted_by.
    + intros x y z Hxy Hyz. eapply notLater_trans; eassumption.
    + intros x y Hx Hy Hc. apply (dateDiff_not_Gt H y x); auto.
    + intros x y Hx Hy Hc. apply (dateDiff_Gt H y x); auto.
  - intros Hsort. rewrite Hsort. apply sort_sorted_by.
    + apply notLater_trans.
    + intros x y Hx Hy Hc. apply (dateDiff_not_Gt H x y); auto.
    + intros x y Hx Hy Hc. apply (dateDiff_Gt H x y); auto.
Qed.

Lemma keyword_branch_date_order_witness :
  exists l,
    @App.filterAndSortPrompts Examples.calendar
      (Examples.keywordApp "" [Examples.alpha; Examples.beta; Examples.gamma])
    = Returned l /\
    StronglySorted (fun a b => notLater Examples.calendar b a) l.
Proof.
  destruct (keyword_branch_date_order Examples.calendar
              (Examples.keywordApp "" [Examples.alpha; Examples.beta; Examples.gamma]))
    as (l & Hl & Hdesc & _).
  - reflexivity.
  - intros p [<-|[<-|[<-|[]]]]; eexists; reflexivity.
  - exists l. split; [exact Hl|]. apply Hdesc. left. reflexivity.
Defined.

(** The default order of the sidebar on the three dated prompts: newest
    first. *)
Example date_desc_scenario :
  @App.filterAndSortPrompts Examples.calendar
    (Examples.keywordApp "" [Examples.alpha; Examples.beta; Examples.gamma])
  = Returned [Examples.gamma; Examples.beta; Examples.alpha].
Proof. vm_compute. reflexivity. Qed.

(** ** The vault, continued *)

Section VaultScan.
Import VaultRepo.
Implicit Types (dir : gmap string Entry) (this : t).

Lemma jsonFiles_In dir (ne : string * Entry) :
  In ne (jsonFiles dir) <->
  dir !! ne.1 = Some ne.2 /\ is_file ne.2 = true /\ endsWith ne.1 ".json" = true.
Proof.
  unfold jsonFiles. rewrite filter_In, In_map_to_list, andb_true_iff. tauto.
Qed.

Lemma filesFor_In_read dir id name :
  In name (filesFor dir id) <->
  endsWith name ".json" = true /\
  exists j, readJson dir name = Returned j /\ Json_id j = Some id.
Proof.
  rewrite filesFor_In. split; intros (Hends & j & Hr & Hid); (split; [exact Hends|]);
    exists j; (split; [|exact Hid]).
  - unfold readJson. rewrite Hr. reflexivity.
  - unfold readJson in Hr. destruct (dir !! name) as [[?|[j'|]]|]; try discriminate.
    congruence.
Qed.

Lemma readJson_file dir name j :
  readJson dir name = Returned j <-> dir !! name = Some (File (Some j)).
Proof.
  unfold readJson. destruct (dir !! name) as [[?|[j'|]]|]; split; congruence.
Qed.

Lemma loadOne_prompts dir acc ne p :
  In p (prompts (loadOne dir acc ne).1) <->
  In p (prompts acc.1) \/ readJson dir ne.1 = Returned (JPrompt p).
Proof.
  unfold loadOne. destruct (readJson dir ne.1) as [[q|t0|i]|e]; cbn [fst prompts].
  - rewrite in_app_iff. cbn [In]. split.
    + intros [Hp|[->|[]]]; auto.
    + intros [Hp|Hp]; [auto | injection Hp as ->; auto].
  - split; [auto | intros [Hp|Hp]; [exact Hp | discriminate]].
  - split; [auto | intros [Hp|Hp]; [exact Hp | discriminate]].
  - split; [auto | intros [Hp|Hp]; [exact Hp | discriminate]].
Qed.

Lemma loadOne_map_sound dir acc ne id name :
  (loadOne dir acc ne).2 !! id = Some name ->
  acc.2 !! id = Some name \/
  (id <> "" /\ name = ne.1 /\ exists j, readJson dir ne.1 = Returned j /\ Json_id j = Some id).
Proof.
  unfold loadOne. destruct (readJson dir ne.1) as [j|e]; [|auto].
  assert (Hfm : forall fm : gmap string string,
             fm = match Json_id j with
                  | Some i => if truthy i then <[i := ne.1]> acc.2 else acc.2
                  | None => acc.2
                  end ->
             fm !! id = Some name ->
             acc.2 !! id = Some name \/
             (id <> "" /\ name = ne.1 /\ exists j', Returned j = Returned j' /\
                                                   Json_id j' = Some id)).
  { intros fm -> Hl. destruct (Json_id j) as [i|] eqn:Hid; [|auto].
    destruct (truthy i) eqn:Ht; [|auto].
    destruct (decide (i = id)) as [->|Hne].
    - rewrite lookup_insert_eq in Hl. injection Hl as <-. right.
      split; [intros ->; discriminate|]. split; [reflexivity|]. eauto.
    - rewrite lookup_insert_ne in Hl by exact Hne. auto. }
  destruct j; cbn [snd]; apply Hfm; reflexivity.
Qed.

Lemma loadOne_map_keeps dir acc ne id :
  is_Some (acc.2 !! id) -> is_Some ((loadOne dir acc ne).2 !! id).
Proof.
  intros Hs. unfold loadOne. destruct (readJson dir ne.1) as [j|e]; [|exact Hs].
  assert (Hfm : is_Some (match Json_id j with
                         | Some i => if truthy i then <[i := ne.1]> acc.2 else acc.2
                         | None => acc.2
                         end !! id)).
  { destruct (Json_id j) as [i|]; [|exact Hs].
    destruct (truthy i); [|exact Hs].
    destruct (decide (i = id)) as [->|Hne];
      [rewrite lookup_insert_eq; eauto | rewrite lookup_insert_ne by exact Hne; exact Hs]. }
  destruct j; exact Hfm.
Qed.

Lemma loadOne_map_adds dir acc ne j id :
  readJson dir ne.1 = Returned j -> Json_id j = Some id -> id <> "" ->
  is_Some ((loadOne dir acc ne).2 !! id).
Proof.
  intros Hr Hid Hne. unfold loadOne. rewrite Hr.
  assert (Ht : truthy id = true) by (destruct id; [contradiction | reflexivity]).
  assert (Hfm : is_Some (match Json_id j with
                         | Some i => if truthy i then <[i := ne.1]> acc.2 else acc.2
                         | None => acc.2
                         end !! id)).
  { rewrite Hid, Ht, lookup_insert_eq. eauto. }
  destruct j; exact Hfm.
Qed.

Lemma load_fold_prompts dir es acc p :
  In p (prompts (fold_left (loadOne dir) es acc).1) <->
  In p (prompts acc.1) \/
  exists ne, In ne es /\ readJson dir ne.1 = Returned (JPrompt p).
Proof.
  revert acc. induction es as [|ne es IH]; intros acc; cbn [fold_left].
  - split; [auto | intros [Hp|(ne & [] & _)]; exact Hp].
  - rewrite IH, loadOne_prompts. split.
    + intros [[Hp|Hr]|(ne' & Hin & Hr)]; eauto using in_eq, in_cons.
    + intros [Hp|(ne' & [<-|Hin] & Hr)]; eauto.
Qed.

Lemma load_fold_map_sound dir es acc id name :
  (fold_left (loadOne dir) es acc).2 !! id = Some name ->
  acc.2 !! id = Some name \/
  (id <> "" /\ exists ne j, In ne es /\ ne.1 = name /\
                            readJson dir name = Returned j /\ Json_id j = Some id).
Proof.
  revert acc. induction es as [|ne es IH]; intros acc; cbn [fold_left]; [auto|].
  intros Hl. apply IH in Hl as [Hl|(Hne & ne' & j & Hin & Hn & Hr & Hid)].
  - apply loadOne_map_sound in Hl as [Hl|(Hne & -> & j & Hr & Hid)]; [auto|].
    right. split; [exact Hne|]. exists ne, j. auto using in_eq.
  - right. split; [exact Hne|]. exists ne', j. auto using in_cons.
Qed.

Lemma load_fold_map_keeps dir es acc id :
  is_Some (acc.2 !! id) -> is_Some ((fold_left (loadOne dir) es acc).2 !! id).
Proof.
  revert acc. induction es as [|ne es IH]; intros acc Hs; [exact Hs|].
  cbn [fold_left]. apply IH, loadOne_map_keeps, Hs.
Qed.

Lemma load_fold_map_adds dir es acc ne j id :
  In ne es -> readJson dir ne.1 = Returned j -> Json_id j = Some id -> id <> "" ->
  is_Some ((fold_left (loadOne dir) es acc).2 !! id).
Proof.
  revert acc. induction es as [|ne' es IH]; intros acc Hin Hr Hid Hne; [contradiction|].
  cbn [fold_left]. destruct Hin as [->|Hin].
  - apply load_fold_map_keeps. eapply loadOne_map_adds; eassumption.
  - eapply IH; eassumption.
Qed.

End VaultScan.

(** X11.  With a directory selected, [loadAll] leaves the directory as it
    is and returns exactly the prompts held by its parseable [.json]
    files; it rebuilds the file map from nothing: every entry of the new
    map names a file that holds the id, and every non-empty id that some
    file holds has an entry. *)
Theorem loadAll_rebuilds_index (this : VaultRepo.t) (dir : gmap string VaultRepo.Entry) :
  VaultRepo.dirHandle this = Some dir ->
  VaultRepo.dirHandle (VaultRepo.loadAll this).2 = Some dir /\
  (forall p,
     In p (VaultRepo.prompts (VaultRepo.loadAll this).1) <->
     exists name,
       endsWith name ".json" = true /\
       dir !! name = Some (VaultRepo.File (Some (VaultRepo.JPrompt p)))) /\
  (forall id name,
     VaultRepo.fileMap (VaultRepo.loadAll this).2 !! id = Some name ->
     id <> "" /\ In name (VaultRepo.filesFor dir id)) /\
  (forall id name,
     id <> "" -> In name (VaultRepo.filesFor dir id) ->
     is_Some (VaultRepo.fileMap (VaultRepo.loadAll this).2 !! id)).
Proof.
  intros Hd. unfold VaultRepo.loadAll. rewrite Hd.
  cbn [fst snd VaultRepo.dirHandle VaultRepo.fileMap].
  split; [reflexivity|]. split; [|split].
  - intros p. rewrite load_fold_prompts. cbn [fst VaultRepo.prompts In]. split.
    + intros [[]|([n e] & Hin & Hr)]. apply jsonFiles_In in Hin as (_ & _ & Hends).
      exists n. split; [exact Hends|]. apply readJson_file, Hr.
    + intros (name & Hends & Hl). right.
      exists (name, VaultRepo.File (Some (VaultRepo.JPrompt p))).
      split; [apply jsonFiles_In; cbn; auto | apply readJson_file, Hl].
  - intros id name Hl.
    apply load_fold_map_sound in Hl as [Hl|(Hne & [n e] & j & Hin & Hn & Hr & Hid)].
    + cbn [snd] in Hl. rewrite lookup_empty in Hl. discriminate.
    + split; [exact Hne|]. apply filesFor_In_read.
      apply jsonFiles_In in Hin as (_ & _ & Hends). cbn [fst] in *. subst n. eauto.
  - intros id name Hne Hin. apply filesFor_In in Hin as (Hends & j & Hl & Hid).
    eapply (load_fold_map_adds dir _ _ (name, VaultRepo.File (Some j)) j id).
    + apply jsonFiles_In. cbn. auto.
    + apply readJson_file, Hl.
    + exact Hid.
    + exact Hne.
Qed.

Lemma loadAll_rebuilds_index_witness :
  VaultRepo.dirHandle Examples.restarted
  = Some (default ∅ (VaultRepo.dirHandle Examples.restarted)) /\
  VaultRepo.fileMap Examples.restarted !! "p1" = None /\
  is_Some (VaultRepo.fileMap (VaultRepo.loadAll Examples.restarted).2 !! "p1").
Proof.
  split; [vm_compute; reflexivity|]. split; [vm_compute; reflexivity|].
  destruct (loadAll_rebuilds_index Examples.restarted
              (default ∅ (VaultRepo.dirHandle Examples.restarted)))
    as (_ & _ & _ & Hadds).
  - vm_compute. reflexivity.
  - apply (Hadds "p1" "Draft__p1.json"); [discriminate|].
    vm_compute. left. reflexivity.
Defined.

Section VaultWrites.
Import VaultRepo.
Implicit Types (dir : gmap string Entry) (this : t).

Lemma removeOld_other this dir id new name :
  fileMap this !! id <> Some name ->
  removeOld this dir id new !! name = dir !! name.
Proof.
  intros Hne. unfold removeOld. destruct (fileMap this !! id) as [old|]; [|reflexivity].
  destruct (truthy old && negb (String.eqb old new)); [|reflexivity].
  unfold removeEntry. destruct (dir !! old) as [[[|]|c]|]; cbn [try_catch];
    try reflexivity; apply lookup_delete_ne; congruence.
Qed.

Lemma renameAndWrite_one_file this dir id new data :
  endsWith new ".json" = true ->
  Json_id data = Some id ->
  (forall name, In name (filesFor dir id) -> fileMap this !! id = Some name) ->
  (forall e, dir !! new <> Some (Subdirectory e)) ->
  exists dir',
    renameAndWrite this dir id new data
    = (Returned new,
       {| dirHandle := Some dir'; isConnected := isConnected this;
          fileMap := <[id := new]> (fileMap this) |}) /\
    filesFor dir' id = [new] /\
    dir' !! new = Some (File (Some data)).
Proof.
  intros Hends Hdata Hidx Hnodir. unfold renameAndWrite.
  assert (Hw : writeFile (removeOld this dir id new) new data
               = Returned (<[new := File (Some data)]> (removeOld this dir id new))).
  { unfold writeFile.
    destruct (removeOld this dir id new !! new) as [[e|c]|] eqn:Hl; try reflexivity.
    exfalso. apply removeOld_sub in Hl. exact (Hnodir e Hl). }
  rewrite Hw. eexists. split; [reflexivity|].
  split; [|apply lookup_insert_eq].
  apply NoDup_only; [apply filesFor_NoDup|].
  intros name. rewrite filesFor_In. split.
  - intros (Hends' & j & Hl & Hid).
    destruct (decide (name = new)) as [|Hne]; [assumption|]. exfalso.
    rewrite lookup_insert_ne in Hl by congruence.
    pose proof (removeOld_sub _ _ _ _ _ _ Hl) as Hdir.
    assert (Hin : In name (filesFor dir id)) by (apply filesFor_In; eauto).
    apply Hidx in Hin.
    pose proof (removeOld_removes this dir id new name (Some j) Hin Hne
                  (endsWith_json_truthy _ Hends') Hdir) as Hgone.
    congruence.
  - intros ->. split; [exact Hends|]. exists data.
    split; [apply lookup_insert_eq | exact Hdata].
Qed.

Lemma templateFileName_json template :
  endsWith (templateFileName template) ".json" = true.
Proof.
  unfold templateFileName. do 4 apply endsWith_append. apply endsWith_refl.
Qed.

Lemma scanDelete_spec dir id es :
  (forall ne, In ne es -> dir !! ne.1 = Some ne.2) ->
  match scanDelete dir id es with
  | Some d => exists name, In name (filesFor dir id) /\ d = delete name dir
  | None => forall ne, In ne es -> ~ In ne.1 (filesFor dir id)
  end.
Proof.
  induction es as [|ne es IH]; intros Hes; cbn [scanDelete]; [intros ne []|].
  assert (Hrest : forall ne', In ne' es -> dir !! ne'.1 = Some ne'.2)
    by (intros ne' Hin; apply Hes; now right).
  specialize (IH Hrest).
  assert (Hskip : ~ In ne.1 (filesFor dir id) ->
                  match scanDelete dir id es with
                  | Some d => exists name, In name (filesFor dir id) /\ d = delete name dir
                  | None => forall ne', In ne' (ne :: es) -> ~ In ne'.1 (filesFor dir id)
                  end).
  { intros Hnot. destruct (scanDelete dir id es); [exact IH|].
    intros ne' [<-|Hin]; [exact Hnot | apply IH, Hin]. }
  destruct (is_file ne.2 && endsWith ne.1 ".json") eqn:Hjson.
  - destruct (readJson dir ne.1) as [j|e] eqn:Hr.
    + case_bool_decide as Hid.
      * apply andb_true_iff in Hjson as [_ Hends].
        apply readJson_file in Hr. unfold removeEntry. rewrite Hr.
        exists ne.1. split; [|reflexivity]. apply filesFor_In. eauto.
      * apply Hskip. intros Hin. apply filesFor_In_read in Hin as (_ & j' & Hr' & Hid').
        congruence.
    + apply Hskip. intros Hin. apply filesFor_In_read in Hin as (_ & j' & Hr' & _).
      congruence.
  - apply Hskip. intros Hin. apply filesFor_In in Hin as (Hends & j & Hl & _).
    rewrite (Hes ne (or_introl eq_refl)) in Hl. injection Hl as Hl.
    rewrite Hl, Hends in Hjson. discriminate.
Qed.

Lemma scanDelete_all dir id :
  match scanDelete dir id (map_to_list dir) with
  | Some d => exists name, In name (filesFor dir id) /\ d = delete name dir
  | None => filesFor dir id = []
  end.
Proof.
  pose proof (scanDelete_spec dir id (map_to_list dir)
                (fun ne Hin => proj1 (In_map_to_list dir ne) Hin)) as Hs.
  destruct (scanDelete dir id (map_to_list dir)); [exact Hs|].
  destruct (list_eq_nil_dec (filesFor dir id)) as [Hf|Hf]; [exact Hf|]. exfalso.
  destruct (filesFor dir id) as [|name l] eqn:Hfiles; [contradiction|].
  assert (Hin : In name (filesFor dir id)) by (rewrite Hfiles; now left).
  pose proof Hin as Hin'. apply filesFor_In in Hin' as (_ & j & Hl & _).
  rewrite <- Hfiles in Hs.
  apply (Hs (name, File (Some j))); [apply In_map_to_list, Hl | exact Hin].
Qed.

Lemma filesFor_delete dir id name name' :
  In name' (filesFor (delete name dir) id) ->
  name' <> name /\ In name' (filesFor dir id).
Proof.
  rewrite !filesFor_In. intros (Hends & j & Hl & Hid).
  apply lookup_delete_Some in Hl as [Hne Hl]. split; [congruence | eauto].
Qed.

End VaultWrites.

(** X12.  [loadAll] followed by [savePrompt]: when the directory holds at
    most one file for the (non-empty) id of the document and the new file
    name is not taken by a subdirectory, the save after a load succeeds
    and leaves exactly one file for the id, named from the current
    title. *)
Theorem load_then_save_keeps_one_file (this : VaultRepo.t)
    (dir : gmap string VaultRepo.Entry) (prompt : Prompt.t) :
  VaultRepo.dirHandle this = Some dir ->
  Prompt.id prompt <> "" ->
  (forall n1 n2,
     In n1 (VaultRepo.filesFor dir (Prompt.id prompt)) ->
     In n2 (VaultRepo.filesFor dir (Prompt.id prompt)) -> n1 = n2) ->
  (forall e,
     dir !! VaultRepo.promptFileName prompt <> Some (VaultRepo.Subdirectory e)) ->
  exists dir',
    fst (VaultRepo.savePrompt (VaultRepo.loadAll this).2 prompt)
    = Returned (VaultRepo.promptFileName prompt) /\
    VaultRepo.dirHandle (snd (VaultRepo.savePrompt (VaultRepo.loadAll this).2 prompt))
    = Some dir' /\
    VaultRepo.filesFor dir' (Prompt.id prompt) = [VaultRepo.promptFileName prompt].
Proof.
  intros Hd Hid Huniq Hnodir.
  unfold VaultRepo.loadAll. rewrite Hd. cbn [snd].
  unfold VaultRepo.savePrompt. cbn [VaultRepo.dirHandle].
  destruct (renameAndWrite_one_file
              {| VaultRepo.dirHandle := Some dir;
                 VaultRepo.isConnected := VaultRepo.isConnected this;
                 VaultRepo.fileMap :=
                   (fold_left (VaultRepo.loadOne dir) (VaultRepo.jsonFiles dir)
                      ({| VaultRepo.prompts := []; VaultRepo.templates := [] |}, ∅)).2 |}
              dir (Prompt.id prompt) (VaultRepo.promptFileName prompt)
              (VaultRepo.JPrompt prompt))
    as (dir' & Hsave & Hfiles & _).
  - apply promptFileName_json.
  - reflexivity.
  - intros name Hin. cbn [VaultRepo.fileMap].
    pose proof Hin as Hin'. apply filesFor_In in Hin' as (Hends & j & Hl & Hj).
    destruct (load_fold_map_adds dir (VaultRepo.jsonFiles dir)
                ({| VaultRepo.prompts := []; VaultRepo.templates := [] |}, ∅)
                (name, VaultRepo.File (Some j)) j (Prompt.id prompt))
      as [name' Hname'].
    + apply jsonFiles_In. cbn. auto.
    + apply readJson_file, Hl.
    + exact Hj.
    + exact Hid.
    + rewrite Hname'. f_equal.
      apply load_fold_map_sound in Hname' as [Hl'|(_ & [n e] & j' & Hin2 & Hn & Hr & Hj')].
      * cbn [snd] in Hl'. rewrite lookup_empty in Hl'. discriminate.
      * apply Huniq; [|exact Hin]. apply filesFor_In_read.
        apply jsonFiles_In in Hin2 as (_ & _ & Hends2). cbn [fst] in *. subst n. eauto.
  - exact Hnodir.
  - exists dir'. rewrite Hsave. auto.
Qed.

Lemma load_then_save_keeps_one_file_witness :
  exists dir',
    VaultRepo.dirHandle
      (snd (VaultRepo.savePrompt (VaultRepo.loadAll Examples.restarted).2 Examples.final))
    = Some dir' /\
    VaultRepo.filesFor dir' "p1" = ["Final__p1.json"].
Proof.
  destruct (load_then_save_keeps_one_file Examples.restarted
              (default ∅ (VaultRepo.dirHandle Examples.restarted)) Examples.final)
    as (dir' & _ & Hdir & Hfiles).
  - vm_compute. reflexivity.
  - discriminate.
  - intros n1 n2 H1 H2.
    replace (VaultRepo.filesFor _ _) with ["Draft__p1.json"] in H1, H2
      by (vm_compute; reflexivity).
    destruct H1 as [<-|[]], H2 as [<-|[]]. reflexivity.
  - intros e. vm_compute. discriminate.
  - exists dir'. split; [exact Hdir | exact Hfiles].
Defined.



(** X14.  [saveTemplate] renames like [savePrompt]: when the file map
    records the name of every file that holds the id of the template and
    the new file name is not taken by a subdirectory, the save succeeds
    and a full scan then finds exactly one file for the id, named from
    the current description and holding the template. *)
Theorem template_rename_keeps_one_file (this : VaultRepo.t)
    (dir : gmap string VaultRepo.Entry) (template : Template.t) :
  VaultRepo.dirHandle this = Some dir ->
  (forall name,
     In name (VaultRepo.filesFor dir (Template.id template)) ->
     VaultRepo.fileMap this !! Template.id template = Some name) ->
  (forall e,
     dir !! VaultRepo.templateFileName template <> Some (VaultRepo.Subdirectory e)) ->
  exists dir',
    VaultRepo.saveTemplate this template
    = (Returned tt,
       {| VaultRepo.dirHandle := Some dir';
          VaultRepo.isConnected := VaultRepo.isConnected this;
          VaultRepo.fileMap :=
            <[Template.id template := VaultRepo.templateFileName template]>
              (VaultRepo.fileMap this) |}) /\
    VaultRepo.filesFor dir' (Template.id template)
    = [VaultRepo.templateFileName template] /\
    VaultRepo.readJson dir' (VaultRepo.templateFileName template)
    = Returned (VaultRepo.JTemplate template).
Proof.
  intros Hd Hidx Hnodir. unfold VaultRepo.saveTemplate. rewrite Hd.
  destruct (renameAndWrite_one_file this dir (Template.id template)
              (VaultRepo.templateFileName template) (VaultRepo.JTemplate template)
              (templateFileName_json template) eq_refl Hidx Hnodir)
    as (dir' & Hsave & Hfiles & Hl).
  exists dir'. rewrite Hsave. cbn [fst snd bind].
  split; [reflexivity|]. split; [exact Hfiles | apply readJson_file, Hl].
Qed.

Lemma template_rename_keeps_one_file_witness :
  VaultRepo.filesFor (default ∅ (VaultRepo.dirHandle Examples.afterMemo)) "t1"
  = ["TEMPLATE_Memo__t1.json"] /\
  exists dir',
    VaultRepo.dirHandle (snd (VaultRepo.saveTemplate Examples.afterMemo Examples.letter))
    = Some dir' /\
    VaultRepo.filesFor dir' "t1" = ["TEMPLATE_Letter__t1.json"].
Proof.
  split; [vm_compute; reflexivity|].
  destruct (template_rename_keeps_one_file Examples.afterMemo
              (default ∅ (VaultRepo.dirHandle Examples.afterMemo)) Examples.letter)
    as (dir' & Hsave & Hfiles & _).
  - vm_compute. reflexivity.
  - intros name Hin.
    replace (VaultRepo.filesFor _ _) with ["TEMPLATE_Memo__t1.json"] in Hin
      by (vm_compute; reflexivity).
    destruct Hin as [<-|[]]. vm_compute. reflexivity.
  - intros e. vm_compute. discriminate.
  - exists dir'. rewrite Hsave. split; [reflexivity | exact Hfiles].
Defined.

Lemma no_In_nil {A} (l : list A) : (forall x, ~ In x l) -> l = [].
Proof.
  destruct l as [|x l]; [reflexivity|]. intros Hno. exfalso. apply (Hno x). now left.
Qed.

(** X15.  A save touches at most two names of the directory: the new file
    name and the name the file map recorded for the id.  Every other
    entry is the same after [savePrompt], whether the save succeeded or
    threw. *)
Theorem save_touches_two_names (this : VaultRepo.t)
    (dir : gmap string VaultRepo.Entry) (prompt : Prompt.t) (name : string) :
  VaultRepo.dirHandle this = Some dir ->
  name <> VaultRepo.promptFileName prompt ->
  VaultRepo.fileMap this !! Prompt.id prompt <> Some name ->
  exists dir',
    VaultRepo.dirHandle (snd (VaultRepo.savePrompt this prompt)) = Some dir' /\
    dir' !! name = dir !! name.
Proof.
  intros Hd Hnew Hold. unfold VaultRepo.savePrompt. rewrite Hd.
  unfold VaultRepo.renameAndWrite, VaultRepo.writeFile.
  destruct (VaultRepo.removeOld this dir _ _ !! VaultRepo.promptFileName prompt)
    as [[e|c]|]; cbn [snd VaultRepo.dirHandle]; eexists; (split; [reflexivity|]);
    rewrite ?lookup_insert_ne by congruence; apply removeOld_other, Hold.
Qed.

Lemma save_touches_two_names_witness :
  exists dir',
    VaultRepo.dirHandle (snd (VaultRepo.savePrompt Examples.afterMemo Examples.final))
    = Some dir' /\
    dir' !! "TEMPLATE_Memo__t1.json"
    = default ∅ (VaultRepo.dirHandle Examples.afterMemo) !! "TEMPLATE_Memo__t1.json".
Proof.
  apply (save_touches_two_names Examples.afterMemo
           (default ∅ (VaultRepo.dirHandle Examples.afterMemo)) Examples.final
           "TEMPLATE_Memo__t1.json").
  - vm_compute. reflexivity.
  - vm_compute. discriminate.
  - vm_compute. discriminate.
Defined.

(** X16.  When the file map records the name of every file that holds
    the id, [deleteFile] (so [deletePrompt] and [deleteTemplate]) returns
    normally and afterwards no file of the directory holds the id. *)
Theorem delete_removes_indexed (this : VaultRepo.t)
    (dir : gmap string VaultRepo.Entry) (id : string) :
  VaultRepo.dirHandle this = Some dir ->
  (forall name,
     In name (VaultRepo.filesFor dir id) -> VaultRepo.fileMap this !! id = Some name) ->
  fst (VaultRepo.deleteFile this id) = Returned tt /\
  exists dir',
    VaultRepo.dirHandle (snd (VaultRepo.deleteFile this id)) = Some dir' /\
    VaultRepo.filesFor dir' id = [].
Proof.
  intros Hd Hidx. unfold VaultRepo.deleteFile. rewrite Hd.
  assert (Hgone : forall name,
             VaultRepo.fileMap this !! id = Some name ->
             VaultRepo.filesFor (delete name dir) id = []).
  { intros name Hmap. apply no_In_nil. intros n Hin.
    apply filesFor_delete in Hin as [Hne Hin]. apply Hidx in Hin. congruence. }
  assert (Hslow : forall name,
             VaultRepo.fileMap this !! id = Some name ->
             dir !! name = None \/ (exists e, dir !! name = Some (VaultRepo.Subdirectory e))
             \/ truthy name = false ->
             VaultRepo.filesFor dir id = []).
  { intros name Hmap Hbad. apply no_In_nil. intros n Hin.
    pose proof (Hidx n Hin) as Hn. rewrite Hmap in Hn. injection Hn as ->.
    apply filesFor_In in Hin as (Hends & j & Hl & _).
    destruct Hbad as [Hnone|[[e He]|Ht]]; try congruence.
    rewrite (endsWith_json_truthy _ Hends) in Ht. discriminate. }
  assert (Hscan : VaultRepo.filesFor dir id = [] ->
                  VaultRepo.scanDelete dir id (map_to_list dir) = None).
  { intros Hf. pose proof (scanDelete_all dir id) as Hs.
    destruct (VaultRepo.scanDelete dir id (map_to_list dir)); [|reflexivity].
    destruct Hs as (name & Hin & _). rewrite Hf in Hin. contradiction. }
  destruct (VaultRepo.fileMap this !! id) as [cached|] eqn:Hmap.
  - destruct (truthy cached) eqn:Ht.
    + unfold VaultRepo.removeEntry.
      destruct (dir !! cached) as [[[|]|c]|] eqn:Hl; cbn [fst snd VaultRepo.dirHandle].
      * split; [reflexivity|]. eexists. split; [reflexivity|]. apply Hgone. reflexivity.
      * rewrite (Hscan (Hslow cached eq_refl (or_intror (or_introl (ex_intro _ _ Hl))))).
        cbn [fst snd]. rewrite Hd. split; [reflexivity|]. eexists. split; [reflexivity|].
        apply (Hslow cached eq_refl). right. left. eauto.
      * split; [reflexivity|]. eexists. split; [reflexivity|]. apply Hgone. reflexivity.
      * rewrite (Hscan (Hslow cached eq_refl (or_introl Hl))).
        cbn [fst snd]. rewrite Hd. split; [reflexivity|]. eexists. split; [reflexivity|].
        apply (Hslow cached eq_refl). left. exact Hl.
    + rewrite (Hscan (Hslow cached eq_refl (or_intror (or_intror Ht)))).
      cbn [fst snd]. rewrite Hd. split; [reflexivity|]. eexists. split; [reflexivity|].
      apply (Hslow cached eq_refl). right. right. exact Ht.
  - assert (Hf : VaultRepo.filesFor dir id = []).
    { apply no_In_nil. intros n Hin. specialize (Hidx n Hin). discriminate. }
    rewrite (Hscan Hf). cbn [fst snd]. rewrite Hd.
    split; [reflexivity|]. eexists. split; [reflexivity | exact Hf].
Qed.

Lemma delete_removes_indexed_witness :
  VaultRepo.filesFor (default ∅ (VaultRepo.dirHandle Examples.afterDraft)) "p1"
  = ["Draft__p1.json"] /\
  exists dir',
    VaultRepo.dirHandle (snd (VaultRepo.deleteFile Examples.afterDraft "p1")) = Some dir' /\
    VaultRepo.filesFor dir' "p1" = [].
Proof.
  split; [vm_compute; reflexivity|].
  apply (delete_removes_indexed Examples.afterDraft
           (default ∅ (VaultRepo.dirHandle Examples.afterDraft)) "p1").
  - vm_compute. reflexivity.
  - intros name Hin.
    replace (VaultRepo.filesFor _ _) with ["Draft__p1.json"] in Hin
      by (vm_compute; reflexivity).
    destruct Hin as [<-|[]]. vm_compute. reflexivity.
Defined.

(** X17.  When the file map has no entry for the id, [deleteFile] scans:
    if no file holds the id it returns normally and changes nothing
    (deleting an unknown id is not an error); otherwise it removes one
    file that holds the id, and nothing else. *)
Theorem delete_scans_when_unindexed (this : VaultRepo.t)
    (dir : gmap string VaultRepo.Entry) (id : string) :
  VaultRepo.dirHandle this = Some dir ->
  VaultRepo.fileMap this !! id = None ->
  (VaultRepo.filesFor dir id = [] ->
   VaultRepo.deleteFile this id = (Returned tt, this)) /\
  (VaultRepo.filesFor dir id <> [] ->
   exists name,
     In name (VaultRepo.filesFor dir id) /\
     VaultRepo.deleteFile this id
     = (Returned tt,
        {| VaultRepo.dirHandle := Some (delete name dir);
           VaultRepo.isConnected := VaultRepo.isConnected this;
           VaultRepo.fileMap := delete id (VaultRepo.fileMap this) |})).
Proof.
  intros Hd Hmap. unfold VaultRepo.deleteFile. rewrite Hd, Hmap.
  pose proof (scanDelete_all dir id) as Hs.
  destruct (VaultRepo.scanDelete dir id (map_to_list dir)) as [d|].
  - destruct Hs as (name & Hin & ->). split.
    + intros Hf. rewrite Hf in Hin. contradiction.
    + intros _. exists name. split; [exact Hin | reflexivity].
  - split; [reflexivity | intros Hf; contradiction].
Qed.

Lemma delete_scans_when_unindexed_witness :
  VaultRepo.fileMap Examples.restarted !! "p1" = None /\
  exists name,
    In name (VaultRepo.filesFor (default ∅ (VaultRepo.dirHandle Examples.restarted)) "p1") /\
    VaultRepo.dirHandle (snd (VaultRepo.deleteFile Examples.restarted "p1"))
    = Some (delete name (default ∅ (VaultRepo.dirHandle Examples.restarted))).
Proof.
  split; [vm_compute; reflexivity|].
  destruct (delete_scans_when_unindexed Examples.restarted
              (default ∅ (VaultRepo.dirHandle Examples.restarted)) "p1")
    as [_ Hsome].
  - vm_compute. reflexivity.
  - vm_compute. reflexivity.
  - destruct Hsome as (name & Hin & Hdel).
    + vm_compute. discriminate.
    + exists name. split; [exact Hin|]. rewrite Hdel. reflexivity.
Defined.

(** X18.  A save followed by a delete: under the conditions of a
    successful save (the file map records every file of the id, the new
    name is free of a subdirectory), deleting the id afterwards removes
    the file just written, leaves no file for the id and no entry in the
    file map. *)
Theorem save_then_delete (this : VaultRepo.t)
    (dir : gmap string VaultRepo.Entry) (prompt : Prompt.t) :
  VaultRepo.dirHandle this = Some dir ->
  (forall name,
     In name (VaultRepo.filesFor dir (Prompt.id prompt)) ->
     VaultRepo.fileMap this !! Prompt.id prompt = Some name) ->
  (forall e,
     dir !! VaultRepo.promptFileName prompt <> Some (VaultRepo.Subdirectory e)) ->
  exists dir'',
    VaultRepo.deletePrompt (snd (VaultRepo.savePrompt this prompt)) (Prompt.id prompt)
    = (Returned tt,
       {| VaultRepo.dirHandle := Some dir'';
          VaultRepo.isConnected := VaultRepo.isConnected this;
          VaultRepo.fileMap := delete (Prompt.id prompt) (VaultRepo.fileMap this) |}) /\
    VaultRepo.filesFor dir'' (Prompt.id prompt) = [] /\
    dir'' !! VaultRepo.promptFileName prompt = None.
Proof.
  intros Hd Hidx Hnodir. unfold VaultRepo.savePrompt. rewrite Hd.
  destruct (renameAndWrite_one_file this dir (Prompt.id prompt)
              (VaultRepo.promptFileName prompt) (VaultRepo.JPrompt prompt)
              (promptFileName_json prompt) eq_refl Hidx Hnodir)
    as (dir' & Hsave & Hfiles & Hl).
  rewrite Hsave. cbn [snd].
  unfold VaultRepo.deletePrompt, VaultRepo.deleteFile.
  cbn [VaultRepo.dirHandle VaultRepo.fileMap VaultRepo.isConnected].
  rewrite lookup_insert_eq, (endsWith_json_truthy _ (promptFileName_json prompt)).
  unfold VaultRepo.removeEntry. rewrite Hl.
  exists (delete (VaultRepo.promptFileName prompt) dir').
  split; [|split].
  - f_equal. f_equal. apply delete_insert_eq.
  - apply no_In_nil. intros n Hin. apply filesFor_delete in Hin as [Hne Hin].
    rewrite Hfiles in Hin. destruct Hin as [<-|[]]. contradiction.
  - apply lookup_delete_eq.
Qed.

Lemma save_then_delete_witness :
  exists dir'',
    VaultRepo.dirHandle
      (snd (VaultRepo.deletePrompt
              (snd (VaultRepo.savePrompt Examples.afterDraft Examples.final)) "p1"))
    = Some dir'' /\
    VaultRepo.filesFor dir'' "p1" = [].
Proof.
  destruct (save_then_delete Examples.afterDraft
              (default ∅ (VaultRepo.dirHandle Examples.afterDraft)) Examples.final)
    as (dir'' & Hdel & Hfiles & _).
  - vm_compute. reflexivity.
  - intros name Hin.
    replace (VaultRepo.filesFor _ _) with ["Draft__p1.json"] in Hin
      by (vm_compute; reflexivity).
    destruct Hin as [<-|[]]. vm_compute. reflexivity.
  - intros e. vm_compute. discriminate.
  - exists dir''. split; [|exact Hfiles].
    change "p1" with (Prompt.id Examples.final). rewrite Hdel. reflexivity.
Defined.

(** ** Import and export *)

Lemma or_else_id s d : s <> "" -> or_else s d = s.
Proof. destruct s; [contradiction | reflexivity]. Qed.

Lemma or_else_nonempty s d : d <> "" -> or_else s d <> "".
Proof. destruct s; cbn; [auto | discriminate]. Qed.

Lemma or_default_nonempty o d : d <> "" -> or_default o d <> "".
Proof. destruct o as [s|]; cbn; [apply or_else_nonempty | auto]. Qed.

(** X19.  Export then import gives the prompt back, field for field,
    when its id, title, status and creation date are not empty (an empty
    one is replaced by the default of the import). *)
Theorem prompt_export_import (p : Prompt.t) (generateId : unit -> string)
    (now : string) :
  Prompt.id p <> "" ->
  Prompt.title p <> "" ->
  Prompt.status p <> "" ->
  Prompt.date_created p <> "" ->
  DataMapper.promptFromImport (DataMapper.promptToExport p) generateId now = p.
Proof.
  intros Hid Htitle Hstatus Hdate. destruct p as [i t d x g s n c cl dc v e].
  cbn in *. unfold DataMapper.promptFromImport, DataMapper.promptToExport.
  cbn -[truthy or_else].
  assert (Hi : truthy i = true) by (destruct i; [contradiction | reflexivity]).
  rewrite Hi, !or_else_empty, !(or_else_id i), !(or_else_id t), !(or_else_id s),
    !(or_else_id dc) by assumption.
  reflexivity.
Qed.

Lemma prompt_export_import_witness :
  DataMapper.promptFromImport (DataMapper.promptToExport Examples.alpha)
    (fun _ => "fresh") "now" = Examples.alpha.
Proof.
  apply prompt_export_import; discriminate.
Defined.

(** X20.  Export then import gives the template back when its id and its
    description are not empty. *)
Theorem template_export_import (t : Template.t) (generateId : unit -> string) :
  Template.id t <> "" ->
  Template.description t <> "" ->
  DataMapper.templateFromImport (DataMapper.templateToExport t) generateId = t.
Proof.
  intros Hid Hdesc. destruct t as [i d x n f o]. cbn in *.
  unfold DataMapper.templateFromImport, DataMapper.templateToExport.
  cbn -[truthy or_else].
  assert (Hi : truthy i = true) by (destruct i; [contradiction | reflexivity]).
  assert (Hd : truthy d = true) by (destruct d; [contradiction | reflexivity]).
  rewrite Hi, Hd. cbn [or_default].
  rewrite (or_else_id i), (or_else_id d), !or_else_empty by assumption.
  destruct n; reflexivity.
Qed.

Lemma template_export_import_witness :
  DataMapper.templateFromImport (DataMapper.templateToExport Examples.memo)
    (fun _ => "fresh") = Examples.memo.
Proof.
  apply template_export_import; discriminate.
Defined.

(** X21.  Whatever object is imported, the prompt [promptFromImport]
    makes has a non-empty id (given that the generator makes one), a
    non-empty title and a non-empty status, and a non-empty creation date
    (given a non-empty current time); an object without any key becomes
    an untitled draft with the generated id, no versions and no
    embedding. *)
Theorem import_fills_defaults (raw : DataMapper.RawPrompt)
    (generateId : unit -> string) (now : string) :
  generateId tt <> "" ->
  now <> "" ->
  Prompt.id (DataMapper.promptFromImport raw generateId now) <> "" /\
  Prompt.title (DataMapper.promptFromImport raw generateId now) <> "" /\
  Prompt.status (DataMapper.promptFromImport raw generateId now) <> "" /\
  Prompt.date_created (DataMapper.promptFromImport raw generateId now) <> "" /\
  DataMapper.promptFromImport
    (DataMapper.mkRawPrompt None None None None None None None None None None None
                            None None None None None) generateId now
  = {| Prompt.id := generateId tt; Prompt.title := "Untitled";
       Prompt.description := ""; Prompt.prompt_text := ""; Prompt.tags := "";
       Prompt.status := "draft"; Prompt.notes := ""; Prompt.category := "";
       Prompt.client := ""; Prompt.date_created := now; Prompt.versions := [];
       Prompt.embedding := None |}.
Proof.
  intros Hgen Hnow. unfold DataMapper.promptFromImport. cbn [Prompt.id Prompt.title
    Prompt.status Prompt.date_created].
  split; [|split; [|split; [|split]]].
  - destruct (DataMapper.first_of _ _); [apply or_else_nonempty|]; exact Hgen.
  - apply or_default_nonempty. discriminate.
  - apply or_default_nonempty. discriminate.
  - apply or_default_nonempty, Hnow.
  - reflexivity.
Qed.

Lemma import_fills_defaults_witness :
  Prompt.title
    (DataMapper.promptFromImport
       (DataMapper.mkRawPrompt None (Some "legacy-1") None (Some "") None None
          (Some "text") None None None None None None None None None)
       (fun _ => "fresh") "now") <> "".
Proof.
  apply (import_fills_defaults
           (DataMapper.mkRawPrompt None (Some "legacy-1") None (Some "") None None
              (Some "text") None None None None None None None None None)
           (fun _ => "fresh") "now"); discriminate.
Defined.

(** ** The local database, continued *)

Lemma contains_app d1 d2 n :
  IndexedDBRepo.contains (d1 ++ d2) n
  = IndexedDBRepo.contains d1 n || IndexedDBRepo.contains d2 n.
Proof. unfold IndexedDBRepo.contains. apply existsb_app. Qed.

Lemma upgrade_contains d :
  IndexedDBRepo.contains (IndexedDBRepo.upgrade d) "prompts" = true /\
  IndexedDBRepo.contains (IndexedDBRepo.upgrade d) "templates" = true /\
  IndexedDBRepo.contains (IndexedDBRepo.upgrade d) "collections" = true.
Proof.
  unfold IndexedDBRepo.upgrade.
  destruct (IndexedDBRepo.contains d "prompts") eqn:Hp; cbn [negb];
    destruct (IndexedDBRepo.contains _ "templates") eqn:Ht; cbn [negb];
    destruct (IndexedDBRepo.contains _ "collections") eqn:Hc; cbn [negb];
    rewrite ?contains_app, ?Hp, ?Ht, ?Hc; cbn; rewrite ?orb_true_r;
    repeat split; try reflexivity;
    rewrite ?contains_app in *; cbn in *; rewrite ?orb_false_r in *; congruence.
Qed.

(** X22.  The upgrade handler of [init] is additive: it keeps every
    store the database has, in place, and appends the missing ones;
    afterwards the three stores [prompts], [templates] and [collections]
    exist; and an upgrade of an upgraded database changes nothing. *)
Theorem upgrade_is_additive (d : list IndexedDBRepo.ObjectStore) :
  (exists added, IndexedDBRepo.upgrade d = d ++ added) /\
  IndexedDBRepo.contains (IndexedDBRepo.upgrade d) "prompts" = true /\
  IndexedDBRepo.contains (IndexedDBRepo.upgrade d) "templates" = true /\
  IndexedDBRepo.contains (IndexedDBRepo.upgrade d) "collections" = true /\
  IndexedDBRepo.upgrade (IndexedDBRepo.upgrade d) = IndexedDBRepo.upgrade d.
Proof.
  split.
  - unfold IndexedDBRepo.upgrade.
    destruct (negb (IndexedDBRepo.contains d "prompts"));
      destruct (negb (IndexedDBRepo.contains _ "templates"));
      destruct (negb (IndexedDBRepo.contains _ "collections"));
      rewrite <- ?app_assoc; eexists; try reflexivity.
    symmetry. apply app_nil_r.
  - destruct (upgrade_contains d) as (Hp & Ht & Hc).
    split; [exact Hp|]. split; [exact Ht|]. split; [exact Hc|].
    unfold IndexedDBRepo.upgrade at 1. rewrite Hp. cbn [negb]. rewrite Ht. cbn [negb].
    rewrite Hc. reflexivity.
Qed.

Lemma settled_stays (r : IndexedDBRepo.Run) (ev : IndexedDBRepo.Event) :
  IndexedDBRepo.promise r <> IndexedDBRepo.Pending ->
  IndexedDBRepo.promise (IndexedDBRepo.handle r ev) = IndexedDBRepo.promise r.
Proof.
  intros Hs. destruct ev; cbn [IndexedDBRepo.handle IndexedDBRepo.promise]; try reflexivity;
    destruct (IndexedDBRepo.promise r); try contradiction; reflexivity.
Qed.

Lemma settled_stays_fold (events : list IndexedDBRepo.Event) (r : IndexedDBRepo.Run) :
  IndexedDBRepo.promise r <> IndexedDBRepo.Pending ->
  IndexedDBRepo.promise (fold_left IndexedDBRepo.handle events r) = IndexedDBRepo.promise r.
Proof.
  revert r. induction events as [|ev events IH]; intros r Hs; [reflexivity|].
  cbn [fold_left]. rewrite IH; [apply settled_stays, Hs|].
  rewrite settled_stays by exact Hs. exact Hs.
Qed.

(** X23.  The promise of [init] is settled once: after the open request
    has succeeded or failed, no later event changes what the caller
    receives.  When the request succeeds after an upgrade, the caller
    receives the database with the three stores, and the same database
    is kept in the [db] field. *)
Theorem init_settles_once (existing : list IndexedDBRepo.ObjectStore)
    (before after : list IndexedDBRepo.Event) :
  (IndexedDBRepo.promise (IndexedDBRepo.run existing before) <> IndexedDBRepo.Pending ->
   IndexedDBRepo.promise (IndexedDBRepo.run existing (before ++ after))
   = IndexedDBRepo.promise (IndexedDBRepo.run existing before)) /\
  IndexedDBRepo.promise
    (IndexedDBRepo.run existing [IndexedDBRepo.upgradeneeded; IndexedDBRepo.success])
  = IndexedDBRepo.Fulfilled (IndexedDBRepo.upgrade existing) /\
  IndexedDBRepo.db
    (IndexedDBRepo.run existing [IndexedDBRepo.upgradeneeded; IndexedDBRepo.success])
  = Some (IndexedDBRepo.upgrade existing).
Proof.
  split; [|split; reflexivity].
  intros Hs. unfold IndexedDBRepo.run in *. rewrite fold_left_app.
  apply settled_stays_fold, Hs.
Qed.

Lemma init_settles_once_witness :
  IndexedDBRepo.promise
    (IndexedDBRepo.run [] ([IndexedDBRepo.error "x"] ++ [IndexedDBRepo.success]))
  = IndexedDBRepo.Rejected "DB Error".
Proof.
  rewrite (proj1 (init_settles_once [] [IndexedDBRepo.error "x"] [IndexedDBRepo.success]));
    [reflexivity|].
  cbn. discriminate.
Defined.

(** ** Template variables *)

Section Placeholders.
Import TemplateService.

Lemma splitBrace_spec s n r :
  splitBrace s = Some (n, r) ->
  s = String.append n (String "}" r) /\ includes n "}" = false.
Proof.
  revert n r. induction s as [|c s IH]; intros n r; cbn [splitBrace]; [discriminate|].
  destruct (Ascii.eqb_spec c "}") as [->|Hc].
  - intros Heq. injection Heq as <- <-. split; reflexivity.
  - destruct (splitBrace s) as [[n' r']|]; [|discriminate].
    intros Heq. injection Heq as <- <-.
    destruct (IH n' r' eq_refl) as [-> Hno]. split; [reflexivity|].
    cbn [includes]. rewrite Hno, orb_false_r.
    cbn [String.prefix]. destruct (ascii_dec "}" c); [congruence | reflexivity].
Qed.

Lemma placeholder_spec s n r :
  placeholder s = Some (n, r) ->
  s = String.append "${" (String.append n (String "}" r)) /\
  n <> "" /\ includes n "}" = false.
Proof.
  unfold placeholder. destruct s as [|c1 [|c2 rest]]; try discriminate.
  destruct (Ascii.eqb_spec c1 "$") as [->|]; [|discriminate].
  destruct (Ascii.eqb_spec c2 "{") as [->|]; [|discriminate]. cbn [andb].
  destruct (splitBrace rest) as [[n' r']|] eqn:Hs; [|discriminate].
  destruct (truthy n') eqn:Ht; [|discriminate].
  intros Heq. injection Heq as <- <-.
  destruct (splitBrace_spec _ _ _ Hs) as [-> Hno].
  split; [reflexivity|]. split; [|exact Hno].
  intros ->. discriminate.
Qed.

Lemma string_append_assoc a b c :
  String.append (String.append a b) c = String.append a (String.append b c).
Proof.
  induction a as [|x a IH]; [reflexivity|].
  change (String x (String.append (String.append a b) c)
          = String x (String.append a (String.append b c))).
  now rewrite IH.
Qed.

Lemma placeholder_text n r :
  String.append "${" (String.append n (String "}" r))
  = String.append (String.append "${" (String.append n "}")) r.
Proof.
  change (String "}" r) with (String.append "}" r).
  now rewrite !string_append_assoc.
Qed.

Lemma string_length_append a b :
  String.length (String.append a b) = String.length a + String.length b.
Proof.
  induction a as [|c a IH]; [reflexivity|]. simpl. now rewrite IH.
Qed.

Lemma placeholder_shorter s n r :
  placeholder s = Some (n, r) -> String.length r < String.length s.
Proof.
  intros Hp. destruct (placeholder_spec _ _ _ Hp) as [-> _].
  rewrite !string_length_append. cbn [String.length]. lia.
Qed.

Lemma prefix_append q r : String.prefix q (String.append q r) = true.
Proof.
  induction q as [|c q IH]; [destruct r; reflexivity|].
  simpl. destruct (ascii_dec c c); [exact IH | contradiction].
Qed.

Lemma includes_at_start q r : includes (String.append q r) q = true.
Proof.
  destruct (String.append q r) eqn:Hs; cbn [includes];
    rewrite <- Hs, prefix_append; reflexivity.
Qed.

Lemma extractFrom_mono fuel s vars x :
  In x vars -> In x (extractFrom fuel s vars).
Proof.
  revert s vars. induction fuel as [|fuel IH]; intros s vars Hx; [exact Hx|].
  cbn [extractFrom]. destruct (placeholder s) as [[n r]|].
  - apply IH. case_bool_decide; [exact Hx | apply in_or_app; now left].
  - destruct s; [exact Hx | apply IH, Hx].
Qed.

Lemma extractFrom_NoDup fuel s vars :
  List.NoDup vars -> List.NoDup (extractFrom fuel s vars).
Proof.
  revert s vars. induction fuel as [|fuel IH]; intros s vars Hnd; [exact Hnd|].
  cbn [extractFrom]. destruct (placeholder s) as [[n r]|].
  - apply IH. case_bool_decide as Hn; [exact Hnd|].
    apply NoDup_ListNoDup, NoDup_app. split; [apply NoDup_ListNoDup, Hnd|].
    split; [|apply NoDup_singleton].
    intros z Hz Hz'. apply list_elem_of_singleton in Hz'. subst. contradiction.
  - destruct s; [exact Hnd | apply IH, Hnd].
Qed.

Lemma extractFrom_names fuel s vars x :
  In x (extractFrom fuel s vars) ->
  In x vars \/
  (x <> "" /\ includes x "}" = false /\
   includes s (String.append "${" (String.append x "}")) = true).
Proof.
  revert s vars. induction fuel as [|fuel IH]; intros s vars Hx; [now left|].
  cbn [extractFrom] in Hx. destruct (placeholder s) as [[n r]|] eqn:Hp.
  - destruct (placeholder_spec _ _ _ Hp) as (Hs & Hne & Hno).
    assert (Hhere : includes s (String.append "${" (String.append n "}")) = true).
    { rewrite Hs. rewrite placeholder_text. apply includes_at_start. }
    apply IH in Hx as [Hx|(Hx1 & Hx2 & Hx3)].
    + case_bool_decide; [now left|].
      apply in_app_or in Hx as [Hx|[<-|[]]]; [now left|]. right. auto.
    + right. split; [exact Hx1|]. split; [exact Hx2|].
      rewrite Hs.
      change (String.append "${" (String.append n (String "}" r)))
        with (String.append "${" (String.append n (String.append "}" r))).
      apply (includes_app_r "${"), (includes_app_r n), (includes_app_r "}"), Hx3.
  - destruct s as [|c s]; [now left|].
    apply IH in Hx as [Hx|(Hx1 & Hx2 & Hx3)]; [now left|].
    right. split; [exact Hx1|]. split; [exact Hx2|].
    cbn [includes]. rewrite Hx3. apply orb_true_r.
Qed.

Lemma extractFrom_enough f1 f2 s vars :
  String.length s <= f1 -> String.length s <= f2 ->
  extractFrom f1 s vars = extractFrom f2 s vars.
Proof.
  revert f2 s vars. induction f1 as [|f1 IH]; intros [|f2] s vars H1 H2;
    cbn [extractFrom]; try reflexivity.
  - destruct s; [reflexivity | cbn in H1; lia].
  - destruct s; [reflexivity | cbn in H2; lia].
  - destruct (placeholder s) as [[n r]|] eqn:Hp.
    + apply placeholder_shorter in Hp. apply IH; lia.
    + destruct s as [|c s]; [reflexivity|]. cbn [String.length] in *. apply IH; lia.
Qed.

Lemma substituteFrom_unchanged fuel s vars (values : string -> option string) :
  (forall n, In n (extractFrom fuel s vars) -> values n = None) ->
  substituteFrom fuel s values = s.
Proof.
  revert s vars. induction fuel as [|fuel IH]; intros s vars Hnone; [reflexivity|].
  cbn [extractFrom substituteFrom] in *.
  destruct (placeholder s) as [[n r]|] eqn:Hp.
  - destruct (placeholder_spec _ _ _ Hp) as (Hs & _ & _).
    assert (Hn : values n = None).
    { apply Hnone, extractFrom_mono. case_bool_decide as Hn;
        [apply list_elem_of_In, Hn | apply in_or_app; right; now left]. }
    rewrite (IH r _ Hnone), Hn, Hs. symmetry. apply placeholder_text.
  - destruct s as [|c s]; [reflexivity|]. f_equal. apply (IH s vars Hnone).
Qed.

End Placeholders.



(** X25.  [substituteVariables] returns the text unchanged when none of
    the variables [extractVariables] finds in it has a value: every
    placeholder without a value is kept as it is. *)
Theorem substitute_without_values (templateText : string)
    (values : string -> option string) :
  (forall x, In x (TemplateService.extractVariables templateText) -> values x = None) ->
  TemplateService.substituteVariables templateText values = templateText.
Proof.
  intros Hnone. unfold TemplateService.substituteVariables.
  apply (substituteFrom_unchanged _ _ []). exact Hnone.
Qed.

Lemma substitute_without_values_witness :
  TemplateService.substituteVariables "Hello ${name}" (fun _ => None) = "Hello ${name}".
Proof.
  apply substitute_without_values. intros x _. reflexivity.
Defined.

(** The examples of the unit tests of the template service. *)
Example template_variables_scenario :
  TemplateService.extractVariables "Hello ${name}, your order ${orderId} is ready"
  = ["name"; "orderId"] /\
  TemplateService.substituteVariables "Hello ${name}, you are ${age} years old"
    (fun x => if String.eqb x "name" then Some "Alice"
              else if String.eqb x "age" then Some "30" else None)
  = "Hello Alice, you are 30 years old" /\
  TemplateService.extractVariables "${} ${open $${a${b}" = ["open $${a${b"].
Proof. vm_compute. repeat split. Qed.

(** X26.  Filtering by the exact filters and searching by keyword can be
    done in either order: [filterPrompts] of a [keywordSearch] is the
    [keywordSearch] of the [filterPrompts]. *)
Theorem filter_and_search_commute (H : Host) (prompts : list Prompt.t)
    (f : PromptService.Filter) (query : string) :
  PromptService.filterPrompts (PromptService.keywordSearch prompts query) f
  = PromptService.keywordSearch (PromptService.filterPrompts prompts f) query.
Proof.
  unfold PromptService.filterPrompts, PromptService.keywordSearch.
  destruct (negb (truthy query)); [reflexivity|].
  induction prompts as [|p prompts IH]; [reflexivity|].
  cbn [List.filter].
  destruct (PromptService.keywordMatch _ p) eqn:Hk, (PromptService.matches f p) eqn:Hm;
    cbn [List.filter]; rewrite ?Hk, ?Hm, IH; reflexivity.
Qed.

(** ** Persisting and re-indexing *)

Lemma savePrompt_writes (this : VaultRepo.t) (prompt : Prompt.t) (name : string) :
  fst (VaultRepo.savePrompt this prompt) = Returned name ->
  exists dir',
    VaultRepo.dirHandle (snd (VaultRepo.savePrompt this prompt)) = Some dir' /\
    dir' !! VaultRepo.promptFileName prompt
    = Some (VaultRepo.File (Some (VaultRepo.JPrompt prompt))).
Proof.
  unfold VaultRepo.savePrompt.
  destruct (VaultRepo.dirHandle this) as [dir|]; [|discriminate].
  unfold VaultRepo.renameAndWrite, VaultRepo.writeFile.
  destruct (VaultRepo.removeOld this dir _ _ !! VaultRepo.promptFileName prompt)
    as [[e|c]|]; cbn [fst snd VaultRepo.dirHandle]; try discriminate; intros _;
    eexists; (split; [reflexivity | apply lookup_insert_eq]).
Qed.

Lemma listed_prompt (this : VaultRepo.t) (dir : gmap string VaultRepo.Entry)
    (name : string) (p : Prompt.t) :
  VaultRepo.dirHandle this = Some dir ->
  endsWith name ".json" = true ->
  dir !! name = Some (VaultRepo.File (Some (VaultRepo.JPrompt p))) ->
  In p (VaultRepo.getAllPrompts this).1.
Proof.
  intros Hd Hends Hl. unfold VaultRepo.getAllPrompts, VaultRepo.loadAll. rewrite Hd.
  cbn [fst snd]. apply load_fold_prompts. right.
  exists (name, VaultRepo.File (Some (VaultRepo.JPrompt p))).
  split; [apply jsonFiles_In; cbn; auto | apply readJson_file, Hl].
Qed.

Lemma persisted_prompt {S : Type} (put : Prompt.t -> S -> outcome unit * S)
    (semantic : SemanticSearch.t) (storageMode : string)
    (vault : VaultRepo.t) (store : S) (prompt : Prompt.t) :
  Storage.persisted (Storage.persistPrompt put semantic storageMode vault store prompt)
  = if SemanticSearch.isLoaded semantic then refreshed semantic prompt else prompt.
Proof.
  unfold Storage.persistPrompt, refreshed.
  destruct (SemanticSearch.isLoaded semantic), (truthy (Storage.textToEmbed prompt)),
    (String.eqb storageMode Storage.STORAGE_MODE_VAULT); reflexivity.
Qed.



Lemma reindexLoop_spec {S : Type} (put : Prompt.t -> S -> outcome unit * S)
    (semantic : SemanticSearch.t) (storageMode : string) (prompts : list Prompt.t) :
  SemanticSearch.isLoaded semantic = true ->
  forall (vault : VaultRepo.t) (store : S),
    List.map Prompt.id
      (Storage.reindexLoop put semantic storageMode vault store prompts).1.1.2
    = List.map Prompt.id prompts /\
    ((Storage.reindexLoop put semantic storageMode vault store prompts).1.1.1
     = Returned tt ->
     (Storage.reindexLoop put semantic storageMode vault store prompts).1.1.2
     = List.map
         (fun p => if bool_decide (is_Some (Prompt.embedding p)) then p
                   else refreshed semantic p)
         prompts).
Proof.
  intros Hl. induction prompts as [|p prompts IH]; intros vault store;
    [split; reflexivity|].
  cbn [Storage.reindexLoop List.map].
  destruct (bool_decide (is_Some (Prompt.embedding p))); cbn [negb].
  - specialize (IH vault store).
    destruct (Storage.reindexLoop put semantic storageMode vault store prompts)
      as [[[c rest'] v] s]. cbn [fst snd] in *.
    destruct IH as [Hids Hok]. split; [cbn [List.map]; now rewrite Hids|].
    intros Hc. now rewrite (Hok Hc).
  - pose proof (persisted_prompt put semantic storageMode vault store p) as Hp.
    rewrite Hl in Hp.
    assert (Hid : Prompt.id (refreshed semantic p) = Prompt.id p)
      by (unfold refreshed; destruct (truthy _); reflexivity).
    destruct (Storage.completion
                (Storage.persistPrompt put semantic storageMode vault store p)) as [[]|e].
    + specialize (IH (Storage.vaultAfter
                        (Storage.persistPrompt put semantic storageMode vault store p))
                     (Storage.storeAfter
                        (Storage.persistPrompt put semantic storageMode vault store p))).
      destruct (Storage.reindexLoop put semantic storageMode _ _ prompts)
        as [[[c rest'] v] s]. cbn [fst snd] in *.
      destruct IH as [Hids Hok]. rewrite Hp. split.
      * cbn [List.map]. now rewrite Hid, Hids.
      * intros Hc. now rewrite (Hok Hc).
    + cbn [fst snd]. rewrite Hp. split; [cbn [List.map]; now rewrite Hid | discriminate].
Qed.



Lemma extract_values_spec_witness :
  In "X" (PromptService.extractCategories [Examples.a; Examples.b; Examples.c]) /\
  PromptService.extractCategories [Examples.a; Examples.b; Examples.c] = ["X"; "Y"].
Proof.
  split; [|vm_compute; reflexivity].
  apply (proj2 (proj1 (extract_values_spec [Examples.a; Examples.b; Examples.c])) "X").
  split; [discriminate|]. exists Examples.a. split; [now left | reflexivity].
Defined.
